(** * Data-Analyst-Agent-API: parser, dependency reconciler, executor, retry loop

    A shallow embedding of [prompt_util.py], [depend.py], [exec.py],
    [classify.py] and the fall-back of [llm.py], and the properties of the
    specification that concern them.

    Python text ([str]) is a sequence of Unicode code points; it is
    modelled as [list N].  Console output ([print]) is not modelled. *)

From Stdlib Require Import ZArith NArith List Ascii String DecimalString Lia Bool.
From stdpp Require Import base option list gmap.

Local Open Scope N_scope.
Set Warnings "-clear-no-such-hyp".

(** ** Python strings *)

Module Py.

Definition char := N.
Abbreviation str := (list N).

(** A source literal, as the code points of its characters. *)
Definition lit (s : string) : str := map N_of_ascii (list_ascii_of_string s).

(** [str.isspace] for one character: the code points CPython's
    [_PyUnicode_IsWhitespace] accepts; [\s] of [re] uses the same test. *)
Definition WHITESPACE : list N :=
  [9; 10; 11; 12; 13; 28; 29; 30; 31; 32; 133; 160; 5760;
   8192; 8193; 8194; 8195; 8196; 8197; 8198; 8199; 8200; 8201; 8202;
   8232; 8233; 8239; 8287; 12288].

Definition isspace (c : char) : bool := existsb (N.eqb c) WHITESPACE.

(** [s.lstrip()], [s.rstrip()], [s.strip()] *)
Fixpoint lstrip (s : str) : str :=
  match s with
  | c :: s' => if isspace c then lstrip s' else s
  | [] => []
  end.

Definition rstrip (s : str) : str := rev (lstrip (rev s)).

Definition strip (s : str) : str := rstrip (lstrip s).

(** Truth value of a string: [if s:] *)
Definition truthy (s : str) : bool :=
  match s with [] => false | _ => true end.

(** [s[len(p):]] when [s.startswith(p)] *)
Fixpoint strip_prefix (p s : str) : option str :=
  match p, s with
  | [], _ => Some s
  | a :: p', b :: s' => if N.eqb a b then strip_prefix p' s' else None
  | _ :: _, [] => None
  end.

Definition startswith (s p : str) : bool :=
  match strip_prefix p s with Some _ => true | None => false end.

(** The first occurrence of [sep] in [s]: the text before it and the text
    after it ([s.partition(sep)] when [sep] occurs). *)
Fixpoint find_split (sep s : str) : option (str * str) :=
  match strip_prefix sep s with
  | Some rest => Some ([], rest)
  | None =>
      match s with
      | [] => None
      | c :: s' =>
          match find_split sep s' with
          | Some (a, b) => Some (c :: a, b)
          | None => None
          end
      end
  end.

(** [sub in s] *)
Definition contains (sub s : str) : bool :=
  match find_split sub s with Some _ => true | None => false end.

(** [s.split(sep)[0]] *)
Definition split_head (sep s : str) : str :=
  match find_split sep s with
  | Some (a, _) => a
  | None => s
  end.

(** Line boundaries of [str.splitlines]. *)
Definition LINEBREAKS : list N := [10; 13; 11; 12; 28; 29; 30; 133; 8232; 8233].

Definition is_linebreak (c : char) : bool := existsb (N.eqb c) LINEBREAKS.

(** [s.splitlines()]: a carriage return followed by a line feed is one
    boundary; there is no empty last line. *)
Fixpoint splitlines (s : str) : list str :=
  match s with
  | [] => []
  | c :: s' =>
      if is_linebreak c then
        match s' with
        | d :: s'' =>
            if N.eqb c 13 && N.eqb d 10 then [] :: splitlines s''
            else [] :: splitlines s'
        | [] => [[]]
        end
      else
        match splitlines s' with
        | [] => [[c]]
        | l :: ls => (c :: l) :: ls
        end
  end.

(** [str(n)] for an integer *)
Definition str_of_Z (n : Z) : str := lit (NilZero.string_of_int (Z.to_int n)).

End Py.

Import Py.

(** ** prompt_util.py: the response parser *)

Module PromptUtil.

Definition FENCE : str := Eval cbv in lit "```".
Definition CODE_OPEN : str := Eval cbv in lit "```code".
Definition DEPS_OPEN : str := Eval cbv in lit "```dependencies".

(** The patterns [r"```code\s*(.*?)```"] and [r"```dependencies\s*(.*?)```"]
    with [re.DOTALL] have the shape  opening literal, [\s*], a lazy group
    [(.*?)] that also crosses line ends, closing literal.  The matcher below
    follows the backtracking order of [re]. *)

(** [(.*?)] followed by the closing literal: the group grows one character
    at a time until the literal matches.  Result: the group and the text
    after the match. *)
Definition lazy_group (close s : str) : option (str * str) := find_split close s.

(** [\s*] followed by the rest of the pattern: as many white-space
    characters as there are, giving them back one at a time when the rest
    does not match. *)
Fixpoint greedy_space (close s : str) : option (str * str) :=
  match s with
  | c :: s' =>
      if isspace c then
        match greedy_space close s' with
        | Some r => Some r
        | None => lazy_group close s
        end
      else lazy_group close s
  | [] => lazy_group close s
  end.

(** [re.search]: the match at the leftmost start position.  Result: group 1
    and the text after the match. *)
Fixpoint re_search (open close s : str) : option (str * str) :=
  match
    match strip_prefix open s with
    | Some after => greedy_space close after
    | None => None
    end
  with
  | Some r => Some r
  | None =>
      match s with
      | [] => None
      | _ :: s' => re_search open close s'
      end
  end.

(** [re.findall]: group 1 of the successive matches; each search starts
    where the previous match ended.  [n] bounds the number of matches. *)
Fixpoint findall_from (n : nat) (open close s : str) : list str :=
  match n with
  | O => []
  | S n' =>
      match re_search open close s with
      | Some (g, rest) => g :: findall_from n' open close rest
      | None => []
      end
  end.

(** A match consumes at least one character, so [length s] searches are
    enough. *)
Definition re_findall (open close s : str) : list str :=
  findall_from (length s) open close s.

Record parsed := mk_parsed {
  success : bool;
  code : str;
  dependencies : list str;
  error : str
}.

(** [[line.strip() for line in dep_block.splitlines() if line.strip()]] *)
Definition block_lines (dep_block : str) : list str :=
  map strip (filter (fun line => truthy (strip line) = true) (splitlines dep_block)).

(** [dependencies.extend(...)] for each block in turn *)
Definition extend_all (deps_match : list str) : list str :=
  fold_left (fun dependencies dep_block => dependencies ++ block_lines dep_block)
            deps_match [].

Definition NOT_FOUND : str := Eval cbv in lit "Code block not found".

(** [extract_code_and_dependencies] for a response that is a string; no
    step of the body raises on a string, so the handler is not reached. *)
Definition extract_code_and_dependencies (llm_response : str) : parsed :=
  let code_match := re_search CODE_OPEN FENCE llm_response in
  let deps_match := re_findall DEPS_OPEN FENCE llm_response in
  match code_match with
  | None => mk_parsed false [] [] NOT_FOUND
  | Some (group1, _) =>
      mk_parsed true (strip group1) (extend_all deps_match) []
  end.

End PromptUtil.


(** ** Exceptions and the world the programs run in *)

Module Sys.

(** The exception classes the code distinguishes.  [IOError] is [OSError];
    [PermissionError] and [FileNotFoundError] are subclasses of it; every
    class is a subclass of [Exception]. *)
Inductive exn_class :=
  | OSError | PermissionError | FileNotFoundError
  | UnicodeDecodeError | UnicodeEncodeError
  | ValueError | TypeError
  | TimeoutExpired | CalledProcessError
  | OtherException.

Record exn := mk_exn { exn_class_of : exn_class; exn_msg : str }.

(** [except IOError] *)
Definition is_IOError (e : exn) : bool :=
  match exn_class_of e with
  | OSError | PermissionError | FileNotFoundError => true
  | _ => false
  end.

(** A file as a reader in text mode with [encoding='utf-8'] sees it: its
    decoded text, or the text read before the read raises (an I/O fault, or
    bytes that are not UTF-8). *)
Inductive file :=
  | Text (content : str)
  | Unreadable (seen : str) (e : exn).

(** What one run of the package manager does: [None] is exit status 0,
    [Some e] the exception [subprocess.run(..., check=True)] raises. *)
Definition pip_outcome := option exn.

(** What [subprocess.run] does with the interpreter. *)
Inductive run_outcome :=
  | Completed (returncode : Z) (stdout stderr : str)
  | RunRaises (e : exn).

(** The environment of one call of the executor. *)
Record exec_env := mk_exec_env {
  tmp_name : str;                  (* the name [NamedTemporaryFile] picks *)
  create_fault : option exn;       (* raised by [NamedTemporaryFile] *)
  write_fault : option exn;        (* raised by [f.write(code)] *)
  run : run_outcome;
  run_files : gmap str file -> gmap str file;  (* what the child did to the files *)
  unlink_fault : option exn;       (* raised by [os.unlink] *)
  elapsed : Z                      (* wall-clock time of the call, in ms *)
}.

(** Results of a computation: a value, an exception that left the function,
    or a recursion that the bound of the model cut short. *)
Inductive res (A : Type) :=
  | Ret (a : A)
  | Raise (e : exn)
  | Unfinished.
Arguments Ret {A} a.
Arguments Raise {A} e.
Arguments Unfinished {A}.

Record world := mk_world {
  files : gmap str file;
  append_fault : str -> option exn;      (* raised by [open(path, 'a')] *)
  append_write_fault : str -> option (nat * exn);
                                         (* an [OSError] or other exception
                                            raised after the file was opened
                                            for appending - by the look at its
                                            last byte, a [write], the flush or
                                            the close - and the number of
                                            characters that had reached the
                                            file by then *)
  py_format : str -> list (str * str) -> exn + str;
                                         (* [template.format(name=value, ...)]:
                                            the text, or what it raises *)
  llm : nat -> str -> str;               (* the generator: n-th call, prompt *)
  llm_calls : nat;
  pips : nat -> list str -> bool -> pip_outcome;
                                         (* n-th run: packages, --upgrade *)
  pip_calls : nat;
  execs : nat -> exec_env;
  exec_calls : nat;
  exec_log : list (bool * str)           (* a record kept for the statements,
                                            which the code does not keep: for
                                            each result the executor returned
                                            to the orchestrator, in order, its
                                            [success] and its [output] *)
}.

Definition set_files (fs : gmap str file) (w : world) : world :=
  mk_world fs (append_fault w) (append_write_fault w) (py_format w) (llm w)
           (llm_calls w) (pips w) (pip_calls w) (execs w) (exec_calls w)
           (exec_log w).

Definition M (A : Type) : Type := world -> res A * world.

Definition ret {A} (a : A) : M A := fun w => (Ret a, w).
Definition raise {A} (e : exn) : M A := fun w => (Raise e, w).
Definition bind {A B} (m : M A) (k : A -> M B) : M B :=
  fun w =>
    match m w with
    | (Ret a, w') => k a w'
    | (Raise e, w') => (Raise e, w')
    | (Unfinished, w') => (Unfinished, w')
    end.

(** [try: m  except ...: h e] where [h] re-raises what its clauses do not
    match. *)
Definition try_except {A} (m : M A) (h : exn -> M A) : M A :=
  fun w =>
    match m w with
    | (Raise e, w') => h e w'
    | r => r
    end.

Definition lift {A} (r : res A) : M A := fun w => (r, w).

Definition get_files : M (gmap str file) := fun w => (Ret (files w), w).
Definition put_files (fs : gmap str file) : M unit := fun w => (Ret tt, set_files fs w).

(** The text a reader gets from a file, and the exception that ends the
    read, if any. *)
Definition readable_text (f : file) : str :=
  match f with Text content => content | Unreadable seen _ => seen end.

Definition read_fault (f : file) : option exn :=
  match f with Text _ => None | Unreadable _ e => Some e end.

(** Reading in text mode with the default [newline=None]: a carriage return,
    alone or before a line feed, is read as a line feed. *)
Fixpoint universal_newlines (s : str) : str :=
  match s with
  | [] => []
  | c :: s' =>
      if N.eqb c 13 then
        match s' with
        | d :: s'' =>
            if N.eqb d 10 then 10 :: universal_newlines s''
            else 10 :: universal_newlines s'
        | [] => [10]
        end
      else c :: universal_newlines s'
  end.

(** [for line in f]: the lines with their line feed; the last line may have
    none. *)
Fixpoint iter_lines (s : str) : list str :=
  match s with
  | [] => []
  | c :: s' =>
      if N.eqb c 10 then [c] :: iter_lines s'
      else
        match iter_lines s' with
        | [] => [[c]]
        | l :: ls => (c :: l) :: ls
        end
  end.

(** The UTF-8 codec refuses the surrogate code points. *)
Definition encodable (s : str) : bool :=
  forallb (fun c => (c <? 55296) || (57343 <? c)) s.

Definition SURROGATES : str := Eval cbv in lit "surrogates not allowed".

End Sys.

Import Sys.

Declare Scope py_scope.
Delimit Scope py_scope with py.
Notation "x <- m ;; k" := (bind m (fun x => k))
  (at level 100, m at next level, right associativity) : py_scope.
Notation "m ;;; k" := (bind m (fun _ => k))
  (at level 100, right associativity) : py_scope.

Local Open Scope py_scope.

(** ** depend.py: the dependency reconciler *)

Module Depend.

Definition REQUIREMENTS_TXT : str := Eval cbv in lit "requirements.txt".
Definition EQ_EQ : str := Eval cbv in lit "==".
Definition GT_EQ : str := Eval cbv in lit ">=".
Definition LT_EQ : str := Eval cbv in lit "<=".
Definition GT : str := Eval cbv in lit ">".
Definition LT : str := Eval cbv in lit "<".
Definition TILDE_EQ : str := Eval cbv in lit "~=".
Definition HASH : str := Eval cbv in lit "#".

(** [s.split('==')[0].split('>=')[0].split('<=')[0].split('>')[0]
      .split('<')[0].split('~=')[0]] *)
Definition before_specifier (s : str) : str :=
  split_head TILDE_EQ
    (split_head LT
       (split_head GT
          (split_head LT_EQ
             (split_head GT_EQ
                (split_head EQ_EQ s))))).

Section WithLower.

(** [str.lower]; nothing below depends on how it maps characters. *)
Context (lower : str -> str).

(** The normalized name of a requested dependency. *)
Definition package_name (dependency : str) : str :=
  lower (strip (before_specifier dependency)).

(** The body of the loop over the lines of the manifest. *)
Definition add_line (existing_packages : gset str) (line : str) : gset str :=
  let line := strip line in
  if truthy line && negb (startswith line HASH) then
    let package_name := strip (before_specifier line) in
    {[ lower package_name ]} ∪ existing_packages
  else existing_packages.

Definition read_lines (text : str) : gset str :=
  fold_left add_line (iter_lines (universal_newlines text)) ∅.

Definition read_requirements (requirements_file : str) : M (gset str) :=
  fs <- get_files ;;
  match fs !! requirements_file with
  | Some f =>
      (* the set holds the lines read so far when the handler runs *)
      let existing_packages := read_lines (readable_text f) in
      try_except
        (match read_fault f with
         | Some e => raise e
         | None => ret existing_packages
         end)
        (fun e => if is_IOError e then ret existing_packages else raise e)
  | None => ret ∅
  end.

Definition find_missing_dependencies (dependency_list : list str)
    (requirements_file : str) : M (list str) :=
  existing_packages <- read_requirements requirements_file ;;
  ret (fold_left
         (fun missing_packages dependency =>
            if bool_decide (package_name dependency ∉ existing_packages)
            then missing_packages ++ [dependency]
            else missing_packages)
         dependency_list []).

End WithLower.

(** [f.write(f"{dependency}\n")] for each dependency; the write of a text
    that cannot be encoded raises, after the earlier ones. *)
Fixpoint write_all (missing_dependencies : list str) (content : str)
    : str * option exn :=
  match missing_dependencies with
  | [] => (content, None)
  | dependency :: rest =>
      if encodable dependency
      then write_all rest (content ++ dependency ++ [10])
      else (content, Some (mk_exn UnicodeEncodeError SURROGATES))
  end.

(** The line feed written first when the file is not empty and its last
    character is not a line feed. *)
Definition end_last_line (content : str) : str :=
  match last content with
  | Some c => if N.eqb c 10 then content else content ++ [10]
  | None => content
  end.

(** The [with open(requirements_file, 'a')] block.  An exception of the
    operating system inside the block - at the look at the last byte, at a
    [write], or at the flush and close that end the block - leaves the block
    with the file created and holding what had reached it: its previous text
    and the first characters of what the block writes.  It is the exception
    that leaves the block also when a [write] refused its text before, since
    the close comes last. *)
Definition append_block (missing_dependencies : list str)
    (requirements_file : str) : M unit :=
  fun w =>
    match append_fault w requirements_file with
    | Some e => (Raise e, w)
    | None =>
        (* the file is created when it does not exist *)
        let f := default (Text []) (files w !! requirements_file) in
        let '(content, fault) :=
          write_all missing_dependencies (end_last_line (readable_text f)) in
        let stored (text : str) :=
          match f with
          | Text _ => Text text
          | Unreadable seen e => Unreadable seen e
          end in
        match append_write_fault w requirements_file with
        | Some (reached, e) =>
            let text := firstn (length (readable_text f) + reached) content in
            (Raise e,
             set_files (<[requirements_file := stored text]> (files w)) w)
        | None =>
            let w' :=
              set_files (<[requirements_file := stored content]> (files w)) w in
            match fault with
            | Some e => (Raise e, w')
            | None => (Ret tt, w')
            end
        end
    end.

Definition append_to_requirements (missing_dependencies : list str)
    (requirements_file : str) : M bool :=
  match missing_dependencies with
  | [] => ret true
  | _ =>
      try_except
        (append_block missing_dependencies requirements_file ;;; ret true)
        (fun e => if is_IOError e then ret false else raise e)
  end.

(** [subprocess.run(cmd, capture_output=True, text=True, check=True)] *)
Definition run_pip (packages : list str) (use_pip_upgrade : bool) : M unit :=
  fun w =>
    let w' := mk_world (files w) (append_fault w) (append_write_fault w)
                (py_format w) (llm w) (llm_calls w) (pips w) (S (pip_calls w))
                (execs w) (exec_calls w) (exec_log w) in
    match pips w (pip_calls w) packages use_pip_upgrade with
    | None => (Ret tt, w')
    | Some e => (Raise e, w')
    end.

Definition install_packages (packages : list str) (use_pip_upgrade : bool)
    : M bool :=
  match packages with
  | [] => ret true
  | _ =>
      try_except
        (run_pip packages use_pip_upgrade ;;; ret true)
        (fun e =>
           match exn_class_of e with
           | CalledProcessError => ret false
           | _ => ret false               (* [except Exception] *)
           end)
  end.

Definition manage_dependencies (lower : str -> str) (dependency_list : list str)
    (requirements_file : str) (install_missing use_pip_upgrade : bool) : M bool :=
  missing_deps <- find_missing_dependencies lower dependency_list requirements_file ;;
  match missing_deps with
  | [] => ret true
  | _ =>
      appended <- append_to_requirements missing_deps requirements_file ;;
      if negb appended then ret false
      else if install_missing then install_packages missing_deps use_pip_upgrade
      else ret true
  end.

End Depend.

(** ** exec.py: the isolated executor *)

Module Exec.

(** The value passed as [timeout]: an integer, or, as the first call of the
    orchestrator has it, a list of strings. *)
Inductive pyval :=
  | PInt (n : Z)
  | PList (l : list str).

Definition DEFAULT_TIMEOUT : pyval := PInt 50.

Definition QUOTE : str := Eval cbv in lit "'".
Definition COMMA_SPACE : str := Eval cbv in lit ", ".

(** [sep.join(l)] *)
Fixpoint join (sep : str) (l : list str) : str :=
  match l with
  | [] => []
  | [x] => x
  | x :: l' => x ++ sep ++ join sep l'
  end.

(** The text of a value inside an f-string.  For a list this is its [repr],
    given here for entries that [repr] shows unescaped between single
    quotes. *)
Definition format_value (v : pyval) : str :=
  match v with
  | PInt n => str_of_Z n
  | PList l => [91] ++ join COMMA_SPACE (map (fun x => QUOTE ++ x ++ QUOTE) l) ++ [93]
  end.

Record result := mk_result {
  success : bool;
  output : str;
  error : str;
  error_type : option str;
  return_code : option Z;
  execution_time : Z            (* in ms; the source rounds seconds to 3 places *)
}.

Definition INVALID_CODE : str := Eval cbv in lit "Invalid or empty code provided".
Definition INPUT_VALIDATION : str := Eval cbv in lit "input_validation".
Definition EXECUTION : str := Eval cbv in lit "execution".
Definition TIMEOUT : str := Eval cbv in lit "timeout".
Definition SYSTEM : str := Eval cbv in lit "system".
Definition WARNINGS : str := Eval cbv in lit "[WARNINGS]".
Definition UNKNOWN_ERROR : str := Eval cbv in lit "Unknown execution error".
Definition FAILED_RC : str := Eval cbv in lit "Execution failed (return code: ".
Definition TIMED_OUT_AFTER : str := Eval cbv in lit "Code execution timed out after ".
Definition SECONDS : str := Eval cbv in lit " seconds".
Definition PERMISSION_ERROR : str := Eval cbv in lit "Permission error: ".
Definition SYSTEM_ERROR : str := Eval cbv in lit "System error: ".
Definition CLEANUP_WARNING : str :=
  Eval cbv in lit "Cleanup warning: Could not delete temp file: ".

(** The result as initialised at the top of the function. *)
Definition initial_result : result := mk_result false [] [] None None 0.

(** How the [try] block ends: the process exited, or an exception was
    raised. *)
Inductive block_end :=
  | Exited (returncode : Z) (stdout stderr : str)
  | Raised (e : exn).

Definition BAD_TIMEOUT : str :=
  Eval cbv in lit "unsupported operand type(s) for +: 'float' and 'list'".

(** [subprocess.run(cmd, ..., timeout=timeout)].  With a number the outcome
    is the one of the environment.  With a list the process is started, and
    the deadline [_time() + timeout] then raises [TypeError]; the process is
    killed and the exception leaves [subprocess.run]: the run does not
    complete and does not time out.  An exception of the environment other
    than the time-out is taken to come from starting the process, which
    happens before the time limit is looked at. *)
Definition subprocess_run (timeout : pyval) (env : exec_env) : run_outcome :=
  match timeout with
  | PInt _ => run env
  | PList _ =>
      match run env with
      | Completed _ _ _ => RunRaises (mk_exn TypeError BAD_TIMEOUT)
      | RunRaises e =>
          match exn_class_of e with
          | TimeoutExpired => RunRaises (mk_exn TypeError BAD_TIMEOUT)
          | _ => RunRaises e
          end
      end
  end.

(** The [try] block up to and including [subprocess.run]: the name of the
    temporary file once it is assigned, how the block ended, and the files
    afterwards. *)
Definition spawn (code : str) (timeout : pyval) (env : exec_env)
    (fs : gmap str file) : option str * block_end * gmap str file :=
  match create_fault env with
  | Some e => (None, Raised e, fs)
  | None =>
      let temp_file := tmp_name env in
      match write_fault env with
      | Some e => (Some temp_file, Raised e, <[temp_file := Text []]> fs)
      | None =>
          if encodable code then
            let fs' := run_files env (<[temp_file := Text code]> fs) in
            match subprocess_run timeout env with
            | Completed rc out err => (Some temp_file, Exited rc out err, fs')
            | RunRaises e => (Some temp_file, Raised e, fs')
            end
          else (Some temp_file,
                Raised (mk_exn UnicodeEncodeError SURROGATES),
                <[temp_file := Text []]> fs)
      end
  end.

(** The rest of the [try] block: classification of a completed process. *)
Definition classify_exit (capture_stderr : bool) (env : exec_env)
    (returncode : Z) (stdout stderr : str) : result :=
  if Z.eqb returncode 0 then
    let output := stdout in
    let output :=
      if truthy stderr && capture_stderr then
        let stderr_content := strip stderr in
        if truthy stderr_content then
          if truthy output then output ++ [10] ++ WARNINGS ++ [10] ++ stderr_content
          else WARNINGS ++ [10] ++ stderr_content
        else output
      else output in
    mk_result true output [] None (Some returncode) (elapsed env)
  else
    let error_msg := if truthy stderr then stderr else UNKNOWN_ERROR in
    mk_result false stdout
      (FAILED_RC ++ str_of_Z returncode ++ [41; 10] ++ strip error_msg)
      (Some EXECUTION) (Some returncode) (elapsed env).

(** The [except] clauses, in the order of the source. *)
Definition handle_exception (timeout : pyval) (env : exec_env) (e : exn) : result :=
  match exn_class_of e with
  | TimeoutExpired =>
      mk_result false [] (TIMED_OUT_AFTER ++ format_value timeout ++ SECONDS)
        (Some TIMEOUT) (Some (-1)%Z) (elapsed env)
  | PermissionError =>
      mk_result false [] (PERMISSION_ERROR ++ exn_msg e)
        (Some SYSTEM) (Some (-1)%Z) (elapsed env)
  | _ =>
      mk_result false [] (SYSTEM_ERROR ++ exn_msg e)
        (Some SYSTEM) (Some (-1)%Z) (elapsed env)
  end.

Definition set_error (r : result) (error : str) : result :=
  mk_result (success r) (output r) error (error_type r) (return_code r)
            (execution_time r).

(** The [finally] clause. *)
Definition cleanup (temp_file : option str) (env : exec_env) (r : result)
    (fs : gmap str file) : result * gmap str file :=
  match temp_file with
  | Some path =>
      match fs !! path with
      | Some _ =>                                  (* os.path.exists *)
          match unlink_fault env with
          | None => (r, delete path fs)            (* os.unlink *)
          | Some e =>
              if truthy (error r)
              then (set_error r (error r ++ [10; 91] ++ CLEANUP_WARNING ++ exn_msg e ++ [93]), fs)
              else (set_error r (CLEANUP_WARNING ++ exn_msg e), fs)
          end
      | None => (r, fs)
      end
  | None => (r, fs)
  end.

(** [execute_python_code(code, timeout, capture_stderr)] for a [code] that is
    a string, in the environment [env] over the files [fs]. *)
Definition execute_python_code (code : str) (timeout : pyval)
    (capture_stderr : bool) (env : exec_env) (fs : gmap str file)
    : res result * gmap str file :=
  if negb (truthy (strip code)) then
    (Ret (mk_result false [] INVALID_CODE (Some INPUT_VALIDATION) None 0), fs)
  else
    let '(temp_file, outcome, fs1) := spawn code timeout env fs in
    let r :=
      match outcome with
      | Exited rc out err => classify_exit capture_stderr env rc out err
      | Raised e => handle_exception timeout env e
      end in
    let '(r', fs2) := cleanup temp_file env r fs1 in
    (Ret r', fs2).

End Exec.

(** ** classify.py: the retry orchestrator *)

Module Classify.

Import Depend Exec.

(** The prompt types the orchestrator uses (the source has four more). *)
Inductive prompt_type := PromptCode | PromptRetry.

Definition CODE_TXT : str := Eval cbv in lit "prompts/code.txt".
Definition RETRY_TXT : str := Eval cbv in lit "prompts/retry.txt".
Definition TEMPLATE_NOT_FOUND : str := Eval cbv in lit "Prompt template file not found: ".
Definition TEMPLATE_ERROR : str := Eval cbv in lit "Error reading template file ".
Definition COLON_SPACE : str := Eval cbv in lit ": ".
Definition QUESTION_EMPTY : str := Eval cbv in lit "question cannot be empty".
Definition CODE_REQUIRED : str :=
  Eval cbv in lit "code parameter is required for retry prompt".
Definition ERROR_REQUIRED : str :=
  Eval cbv in lit "error parameter is required for retry prompt".
Definition K_QUESTION : str := Eval cbv in lit "question".
Definition K_CODE : str := Eval cbv in lit "code".
Definition K_ERROR : str := Eval cbv in lit "error".
Definition MAX_RETRIES : str := Eval cbv in lit "Max retries reached. Last error: ".
Definition ERROR_RETRY : str := Eval cbv in lit "Error generating retry prompt: ".
Definition ERROR_CODE : str := Eval cbv in lit "Error generating code: ".
Definition NONE_PLUS_STR : str :=
  Eval cbv in lit "unsupported operand type(s) for +: 'NoneType' and 'str'".

Definition load_prompt_template (file_path : str) : M str :=
  fs <- get_files ;;
  match fs !! file_path with
  | None => raise (mk_exn FileNotFoundError (TEMPLATE_NOT_FOUND ++ file_path))
  | Some f =>
      match read_fault f with
      | None => ret (universal_newlines (readable_text f))
      | Some e =>
          match exn_class_of e with
          | FileNotFoundError =>
              raise (mk_exn FileNotFoundError (TEMPLATE_NOT_FOUND ++ file_path))
          | _ =>
              raise (mk_exn OSError
                       (TEMPLATE_ERROR ++ file_path ++ COLON_SPACE ++ exn_msg e))
          end
      end
  end.

(** [template.format(...)] *)
Definition format (template : str) (args : list (str * str)) : M str :=
  fun w =>
    match py_format w template args with
    | inr prompt => (Ret prompt, w)
    | inl e => (Raise e, w)
    end.

(** [not s or not s.strip()] *)
Definition blank (s : str) : bool := negb (truthy s) || negb (truthy (strip s)).

Definition generate_prompt (question : str) (prompt_type : prompt_type)
    (code error : str) : M str :=
  if blank question then raise (mk_exn ValueError QUESTION_EMPTY)
  else
    match prompt_type with
    | PromptCode =>
        template <- load_prompt_template CODE_TXT ;;
        format template [(K_QUESTION, strip question)]
    | PromptRetry =>
        if blank code then raise (mk_exn ValueError CODE_REQUIRED)
        else if blank error then raise (mk_exn ValueError ERROR_REQUIRED)
        else
          template <- load_prompt_template RETRY_TXT ;;
          format template [(K_QUESTION, strip question);
                           (K_CODE, strip code);
                           (K_ERROR, strip error)]
    end.

(** [call_llm_code]: the generator answers; it does not raise. *)
Definition call_llm_code (prompt : str) : M str :=
  fun w =>
    (Ret (llm w (llm_calls w) prompt),
     mk_world (files w) (append_fault w) (append_write_fault w) (py_format w)
       (llm w) (S (llm_calls w)) (pips w) (pip_calls w) (execs w) (exec_calls w)
       (exec_log w)).

(** What a result adds to the record of the results returned. *)
Definition logged (r : res result) : list (bool * str) :=
  match r with
  | Ret result => [(success result, output result)]
  | _ => []
  end.

(** A call of the executor, with [capture_stderr] at its default. *)
Definition execute (code : str) (timeout : pyval) : M result :=
  fun w =>
    let '(r, fs) :=
      execute_python_code code timeout true (execs w (exec_calls w)) (files w) in
    (r, mk_world fs (append_fault w) (append_write_fault w) (py_format w) (llm w)
          (llm_calls w) (pips w) (pip_calls w) (execs w) (S (exec_calls w))
          (exec_log w ++ logged r)).

Definition DEFAULT_MAX_TRIALS : Z := 6.

Section WithLower.

Context (lower : str -> str).

(** [retry]; [fuel] bounds the depth of the recursion. *)
Fixpoint retry (fuel : nat) (question code error_msg : str)
    (trial max_trials : Z) : M str :=
  match fuel with
  | O => lift Unfinished
  | S fuel' =>
      if (trial >=? max_trials)%Z then ret (MAX_RETRIES ++ error_msg)
      else
        prompt <- generate_prompt question PromptRetry code error_msg ;;
        response <- call_llm_code prompt ;;
        let result := PromptUtil.extract_code_and_dependencies response in
        if negb (PromptUtil.success result)
        then ret (ERROR_RETRY ++ PromptUtil.error result)
        else
          let code := PromptUtil.code result in
          let dependencies := PromptUtil.dependencies result in
          manage_dependencies lower dependencies REQUIREMENTS_TXT true false ;;;
          result <- execute code DEFAULT_TIMEOUT ;;
          if success result then ret (output result)
          else
            (* the recursive call does not pass [max_trials] on *)
            retry fuel' question code (error result) (trial + 1) DEFAULT_MAX_TRIALS
  end.

(** [handle_execute_code_class]; [None] is Python's [None], returned when the
    function ends without a [return]. *)
Definition handle_execute_code_class (fuel : nat) (question : str)
    : M (option str) :=
  prompt <- generate_prompt question PromptCode [] [] ;;
  response <- call_llm_code prompt ;;
  let result := PromptUtil.extract_code_and_dependencies response in
  if negb (PromptUtil.success result)
  then ret (Some (ERROR_CODE ++ PromptUtil.error result))
  else
    let code := PromptUtil.code result in
    let dependencies := PromptUtil.dependencies result in
    manage_dependencies lower dependencies REQUIREMENTS_TXT true false ;;;
    (* [dependencies] is passed in the position of [timeout] *)
    result <- execute code (PList dependencies) ;;
    if negb (success result) then
      match error_type result with
      | Some kind =>
          answer <- retry fuel question code (kind ++ error result) 2
                      DEFAULT_MAX_TRIALS ;;
          ret (Some answer)
      | None => raise (mk_exn TypeError NONE_PLUS_STR)
      end
    else ret None.

End WithLower.

End Classify.

(** ** exec.py: the two wrappers of the executor *)

Module ExecTools.

Import Exec.

Definition NO_OUTPUT : str := Eval cbv in lit "[No output]".
Definition ERROR_OPEN : str := Eval cbv in lit "ERROR (".
Definition CLOSE_COLON : str := Eval cbv in lit "): ".
Definition NONE_TEXT : str := Eval cbv in lit "None".
Definition FILE_READ : str := Eval cbv in lit "file_read".
Definition COULD_NOT_READ : str := Eval cbv in lit "Could not read file ".
Definition NO_SUCH_FILE : str :=
  Eval cbv in lit "[Errno 2] No such file or directory: ".

(** [result['error_type']] inside an f-string *)
Definition format_kind (error_type : option str) : str :=
  match error_type with
  | Some kind => kind
  | None => NONE_TEXT
  end.

(** [execute_python_code_simple(code, timeout)] *)
Definition execute_python_code_simple (code : str) (timeout : pyval)
    (env : exec_env) (fs : gmap str file) : res str * gmap str file :=
  match execute_python_code code timeout true env fs with
  | (Ret result, fs') =>
      if success result
      then (Ret (if truthy (output result) then output result else NO_OUTPUT), fs')
      else (Ret (ERROR_OPEN ++ format_kind (error_type result) ++ CLOSE_COLON
                 ++ error result), fs')
  | (Raise e, fs') => (Raise e, fs')
  | (Unfinished, fs') => (Unfinished, fs')
  end.

(** What [open(file_path, 'r')] and [f.read()] give: the text with its line
    ends as the reader sees them, or the exception raised.  For a file that
    does not exist the message is the one of the operating system, with the
    path between quotes. *)
Definition read_text (file_path : str) (fs : gmap str file) : exn + str :=
  match fs !! file_path with
  | None =>
      inl (mk_exn FileNotFoundError (NO_SUCH_FILE ++ QUOTE ++ file_path ++ QUOTE))
  | Some f =>
      match read_fault f with
      | Some e => inl e
      | None => inr (universal_newlines (readable_text f))
      end
  end.

(** [execute_python_file(file_path, timeout)] *)
Definition execute_python_file (file_path : str) (timeout : pyval)
    (env : exec_env) (fs : gmap str file) : res result * gmap str file :=
  match read_text file_path fs with
  | inr code => execute_python_code code timeout true env fs
  | inl e =>
      (* [except Exception as e] *)
      (Ret (mk_result false []
              (COULD_NOT_READ ++ file_path ++ Classify.COLON_SPACE ++ exn_msg e)
              (Some FILE_READ) (Some (-1)%Z) 0), fs)
  end.

End ExecTools.

(** ** llm.py: the generator call with its fall-back *)

Module Llm.

(** What a call of a provider does: it raises, or it returns the content of
    the answer, which is a string or [None]. *)
Inductive reply :=
  | Raises (e : exn)
  | Answers (content : option str).

(** The global flag, and the number of calls made to each provider. *)
Record state := mk_state {
  use_direct_openrouter : bool;
  proxy_calls : nat;
  direct_calls : nat
}.

Definition UNEXPECTED : str := Eval cbv in lit "Unexpected response".
Definition DIRECT_ERROR : str := Eval cbv in lit "[Direct OpenRouter Error]: ".

(** [not response or "Unexpected response" in response] *)
Definition suspicious (response : option str) : bool :=
  match response with
  | None => true
  | Some text => negb (truthy text) || contains UNEXPECTED text
  end.

Section Providers.

(** [call_openrouter_proxy] and [call_openrouter]: the n-th call with a
    prompt. *)
Context (proxy direct : nat -> str -> reply).

(** The fall-back to the direct provider. *)
Definition call_direct (prompt : str) (st : state) : option str * state :=
  let st' := mk_state (use_direct_openrouter st) (proxy_calls st)
               (S (direct_calls st)) in
  match direct (direct_calls st) prompt with
  | Answers content => (content, st')
  | Raises e => (Some (DIRECT_ERROR ++ exn_msg e), st')
  end.

(** [call_llm_with_fallback(prompt)] *)
Definition call_llm_with_fallback (prompt : str) (st : state)
    : option str * state :=
  if negb (use_direct_openrouter st) then
    let called := mk_state false (S (proxy_calls st)) (direct_calls st) in
    let switched := mk_state true (S (proxy_calls st)) (direct_calls st) in
    match proxy (proxy_calls st) prompt with
    | Answers response =>
        if suspicious response
        then call_direct prompt switched      (* RuntimeError, caught *)
        else (response, called)
    | Raises _ => call_direct prompt switched
    end
  else call_direct prompt st.

(** A sequence of calls, one per prompt. *)
Fixpoint call_all (prompts : list str) (st : state) : list (option str) * state :=
  match prompts with
  | [] => ([], st)
  | prompt :: rest =>
      let '(answer, st1) := call_llm_with_fallback prompt st in
      let '(answers, st2) := call_all rest st1 in
      (answer :: answers, st2)
  end.

End Providers.

End Llm.

(** ** classify.py: the other handlers *)

Module Handlers.

Import Depend Exec Classify.

(** The prompt types whose template takes the question alone. *)
Inductive plain_prompt_type :=
  | PromptSimpleLlm | PromptSimulate | PromptQuery | PromptClassify.

Definition SIMPLE_TXT : str := Eval cbv in lit "prompts/simple.txt".
Definition SIMULATE_TXT : str := Eval cbv in lit "prompts/simulate.txt".
Definition QUERY_TXT : str := Eval cbv in lit "prompts/query.txt".
Definition CLASSIFY_TXT : str := Eval cbv in lit "prompts/classify.txt".
Definition NO_RESPONSE : str := Eval cbv in lit "No response from LLM".
Definition ERROR_CLASSIFYING : str := Eval cbv in lit "Error classifying question: ".

Definition template_path (t : plain_prompt_type) : str :=
  match t with
  | PromptSimpleLlm => SIMPLE_TXT
  | PromptSimulate => SIMULATE_TXT
  | PromptQuery => QUERY_TXT
  | PromptClassify => CLASSIFY_TXT
  end.

(** [generate_prompt(question, prompt_type=...)] for these types. *)
Definition generate_plain_prompt (question : str) (t : plain_prompt_type) : M str :=
  if blank question then raise (mk_exn ValueError QUESTION_EMPTY)
  else
    template <- load_prompt_template (template_path t) ;;
    format template [(K_QUESTION, strip question)].

(** [response.strip() if response else "No response from LLM"] *)
Definition answer_of (response : str) : str :=
  if truthy response then strip response else NO_RESPONSE.

Definition simple_llm (question : str) : M str :=
  prompt <- generate_plain_prompt question PromptSimpleLlm ;;
  response <- call_llm_code prompt ;;
  ret (answer_of response).

Definition static_answer (question : str) : M str :=
  prompt <- generate_plain_prompt question PromptSimulate ;;
  response <- call_llm_code prompt ;;
  ret (answer_of response).

Definition query_only (question : str) : M str :=
  prompt <- generate_plain_prompt question PromptQuery ;;
  response <- call_llm_code prompt ;;
  ret (answer_of response).


(** [api_creation]: its body is [pass]. *)
Definition api_creation (question : str) : M (option str) := ret None.

Section Classifier.

(** [call_llm_classify], which is [call_grok]: it raises, or returns the
    content of the answer or an error text. *)
Context (call_grok : str -> world -> exn + option str).

(** [classify(question)] *)
Definition classify (question : str) : M str :=
  prompt <- generate_plain_prompt question PromptClassify ;;
  fun w =>
    match call_grok prompt w with
    | inl e => (Raise e, w)
    | inr class_ =>
        match class_ with
        | Some text =>
            if truthy text then (Ret (strip text), w)
            else (Raise (mk_exn ValueError (ERROR_CLASSIFYING ++ question)), w)
        | None => (Raise (mk_exn ValueError (ERROR_CLASSIFYING ++ question)), w)
        end
    end.

End Classifier.

End Handlers.

(** ** Notions used to state the properties *)

(** [sep] occurs in [s]. *)
Definition occurs (sep s : str) : Prop := exists a b, s = a ++ sep ++ b.

(** The first occurrence of [sep] in [s] has [a] before it and [b] after
    it. *)
Definition first_split (sep s a b : str) : Prop :=
  s = a ++ sep ++ b /\
  forall a' b', s = a' ++ sep ++ b' -> (length a <= length a')%nat.

(** The groups of the successive fenced blocks of [s], left to right: each
    block opens at the first [open] of the text still to be read and closes
    at the first [close] after it; the next block is looked for after that
    closing fence. *)
Inductive fenced (open close : str) : str -> list str -> Prop :=
  | fenced_none s :
      (forall a b c, s <> a ++ open ++ b ++ close ++ c) ->
      fenced open close s []
  | fenced_block s a after b rest bs :
      first_split open s a after ->
      first_split close after b rest ->
      fenced open close rest bs ->
      fenced open close s (b :: bs).

(** [s] holds a code delimiter pair. *)
Definition code_pair (s : str) : Prop :=
  exists a b c, s = a ++ PromptUtil.CODE_OPEN ++ b ++ PromptUtil.FENCE ++ c.

(** A fenced block as generators write it: the fence with its tag, a line
    feed, the body, a line feed, the closing fence. *)
Definition tagged_block (tag body : str) : str :=
  PromptUtil.FENCE ++ tag ++ [10] ++ body ++ [10] ++ PromptUtil.FENCE.

(** An environment of the executor in which nothing fails around the run of
    the interpreter, used in examples. *)
Definition quiet_env (outcome : run_outcome) : exec_env :=
  mk_exec_env (lit "/tmp/tmpk3x9.py") None None outcome (fun fs => fs) None 12.

(** The same environment, in which the deletion of the temporary file does
    not fail. *)
Definition deleting (env : exec_env) : exec_env :=
  mk_exec_env (tmp_name env) (create_fault env) (write_fault env) (run env)
              (run_files env) None (elapsed env).

(** The error text after a deletion that failed with message [msg], given
    the error text before it. *)
Definition with_cleanup_warning (error msg : str) : str :=
  if truthy error
  then error ++ [10; 91] ++ Exec.CLEANUP_WARNING ++ msg ++ [93]
  else Exec.CLEANUP_WARNING ++ msg.

(** The version specifiers the reconciler knows, in the order in which the
    code cuts at them. *)
Definition SPECIFIERS : list str :=
  [Depend.EQ_EQ; Depend.GT_EQ; Depend.LT_EQ; Depend.GT; Depend.LT; Depend.TILDE_EQ].

(** The package name as the specification words it: everything before the
    first place at which one of the specifiers starts. *)
Fixpoint before_any (seps : list str) (s : str) : str :=
  if existsb (startswith s) seps then []
  else match s with
       | [] => []
       | c :: s' => c :: before_any seps s'
       end.

Definition TILDE_EQ_EQ : str := Eval cbv in lit "~==".

(** The successive cuts of [before_specifier], for any list of
    separators. *)
Definition chain (seps : list str) (s : str) : str :=
  fold_left (fun t sep => split_head sep t) seps s.

(** [str.lower] on ASCII text, for the examples. *)
Definition lower_ascii (s : str) : str :=
  map (fun c => if (65 <=? c) && (c <=? 90) then c + 32 else c) s.

(** A world for the examples: the given files, no fault on opening a file
    for appending, a package manager that succeeds, a generator that answers
    with [replies], and executor runs that behave as [runs] says. *)
Definition example_world (fs : gmap str file) (replies : nat -> str)
    (runs : nat -> exec_env) : world :=
  mk_world fs (fun _ => None) (fun _ => None) (fun template _ => inr template)
           (fun n _ => replies n) 0 (fun _ _ _ => None) 0 runs 0 [].

(** The same world, but for a disk that fills up during an append: the
    exception comes when [reached] characters of the append are in the
    file. *)
Definition full_disk (fs : gmap str file) (reached : nat) : world :=
  mk_world fs (fun _ => None)
           (fun _ => Some (reached,
                           mk_exn OSError (lit "[Errno 28] No space left on device")))
           (fun template _ => inr template)
           (fun _ _ => []) 0 (fun _ _ _ => None) 0 (fun _ => quiet_env (Completed 0 [] []))
           0 [].

(** A run of the interpreter that exits with status 1. *)
Definition failing_run : exec_env :=
  quiet_env (Completed 1 [] (lit "ZeroDivisionError: division by zero")).

(** The two prompt templates the orchestrator loads. *)
Definition templates : gmap str file :=
  {[ Classify.CODE_TXT := Text (lit "Task: {question}");
     Classify.RETRY_TXT := Text (lit "Fix {code} for {question}: {error}") ]}.

(** A computation that ends, whatever the world: it returns or raises, and
    the bound of the model is not what stopped it. *)
Definition finishes {A} (m : M A) : Prop := forall w, (m w).1 <> Unfinished.

(** A separator without white space. *)
Definition solid (sep : str) : Prop :=
  sep <> [] /\ forall c, In c sep -> isspace c = false.

(** The segments of a text between line feeds and carriage returns. *)
Definition is_newline (c : N) : bool := N.eqb c 10 || N.eqb c 13.

Fixpoint segs (s : str) : list str :=
  match s with
  | [] => [[]]
  | c :: s' =>
      if is_newline c then [] :: segs s'
      else
        match segs s' with
        | l :: ls => (c :: l) :: ls
        | [] => [[c]]
        end
  end.

(** The names a list of manifest lines contributes. *)
Definition line_keys (lower : str -> str) (lines : list str) : gset str :=
  fold_left (Depend.add_line lower) lines ∅.

(** A dependency that a commit makes visible to the next diff: it is not
    blank, is not a comment line, and holds no line break. *)
Definition committable (d : str) : bool :=
  truthy (strip d) && negb (startswith (strip d) Depend.HASH) &&
  forallb (fun c => negb (is_newline c)) d.

(** The manifest is absent or can be read. *)
Definition manifest_readable (w : world) (file : str) : bool :=
  match files w !! file with
  | Some (Unreadable _ _) => false
  | _ => true
  end.

(** The lines the reader yields for a text, set against the segments of the
    text: no line at all, a first line that ends in a line feed, or one
    line without a line feed. *)
Definition aligned (lower : str -> str) (s : str) : Prop :=
  s = [] \/
  (exists l ls ls',
      iter_lines (universal_newlines s) = (l ++ [10]) :: ls /\
      segs s = l :: ls' /\
      line_keys lower ls = line_keys lower ls') \/
  (exists l, iter_lines (universal_newlines s) = [l] /\ segs s = [l]).

(** What a commit writes: each entry and a line feed. *)
Definition lines_of (missing : list str) : str :=
  concat (map (fun d => d ++ [10]) missing).

(** The kinds of failure [execute_python_code] reports. *)
Definition FAILURE_KINDS : list str :=
  [Exec.INPUT_VALIDATION; Exec.EXECUTION; Exec.TIMEOUT; Exec.SYSTEM].

(** The characters the version specifiers are made of. *)
Definition SPECIFIER_CHARS : list N := [60; 61; 62; 126].

(** A package name in which none of them occurs. *)
Definition plain_name (name : str) : bool :=
  forallb (fun c => negb (existsb (N.eqb c) SPECIFIER_CHARS)) name.

(** The package manager exited with status 0. *)
Definition pip_ok (outcome : pip_outcome) : bool :=
  match outcome with None => true | Some _ => false end.

(** The text of the manifest; empty when the file does not exist. *)
Definition manifest_text (w : world) (file : str) : str :=
  match files w !! file with
  | Some f => readable_text f
  | None => []
  end.

(** The world after [n] runs of the package manager in all. *)
Definition count_pip (w : world) (n : nat) : world :=
  mk_world (files w) (append_fault w) (append_write_fault w) (py_format w)
           (llm w) (llm_calls w) (pips w) n (execs w) (exec_calls w) (exec_log w).

(** A text without back-tick. *)
Definition no_backtick (s : str) : bool := forallb (fun c => negb (N.eqb c 96)) s.

(** A dependency line as a response carries it: not blank, one line, no
    back-tick. *)
Definition dep_line (d : str) : bool :=
  truthy (strip d) && forallb (fun c => negb (is_linebreak c)) d && no_backtick d.

(** A response in the format the prompts ask for: text, the code block, a line
    feed and more text, the dependency block, text. *)
Definition response_of (pre body mid : str) (deps : list str) (post : str) : str :=
  pre ++ tagged_block (lit "code") body ++ [10] ++ mid ++
  tagged_block (lit "dependencies") (lines_of deps) ++ post.

(** The flag went from unset to set. *)
Definition switched (st st' : Llm.state) : bool :=
  negb (Llm.use_direct_openrouter st) && Llm.use_direct_openrouter st'.

(** A proxy that answers its first call and fails from the second call on,
    and a direct provider that echoes the prompt, for the examples. *)
Definition flaky_proxy (n : nat) (prompt : str) : Llm.reply :=
  match n with
  | O => Llm.Answers (Some (lit "fine"))
  | S _ => Llm.Raises (mk_exn OSError (lit "503 Server Error"))
  end.

Definition echo_direct (n : nat) (prompt : str) : Llm.reply :=
  Llm.Answers (Some prompt).

(** The world after [n] calls of the generator in all. *)
Definition count_llm (w : world) (n : nat) : world :=
  mk_world (files w) (append_fault w) (append_write_fault w) (py_format w)
           (llm w) n (pips w) (pip_calls w) (execs w) (exec_calls w) (exec_log w).

(** Between [w] and [w'] the generator was called at most [l] times, the
    executor at most [e] times and the package manager at most [p] times. *)
Definition within (l e p : nat) (w w' : world) : Prop :=
  (llm_calls w <= llm_calls w' <= llm_calls w + l)%nat /\
  (exec_calls w <= exec_calls w' <= exec_calls w + e)%nat /\
  (pip_calls w <= pip_calls w' <= pip_calls w + p)%nat.

(** The three handlers that pass the answer of the generator on, each with
    the prompt type it asks for. *)
Definition plain_handlers : list (Handlers.plain_prompt_type * (str -> M str)) :=
  [(Handlers.PromptSimpleLlm, Handlers.simple_llm);
   (Handlers.PromptSimulate, Handlers.static_answer);
   (Handlers.PromptQuery, Handlers.query_only)].

(** A generator that answers with an empty code block. *)
Definition EMPTY_BLOCK : str := tagged_block (lit "code") [].

(** A text of white space alone, the empty text included. *)
Definition blank_line (l : str) : bool := forallb isspace l.

(** The pieces of a text between its line-break characters. *)
Fixpoint pieces (s : str) : list str :=
  match s with
  | [] => [[]]
  | c :: s' =>
      if is_linebreak c then [] :: pieces s'
      else
        match pieces s' with
        | l :: ls => (c :: l) :: ls
        | [] => [[c]]
        end
  end.

(** The lines of a dependency block as the specification words them: the
    pieces that are not blank, in their order, each without the white space
    around it. *)
Definition trimmed_lines (blk : str) : list str :=
  map strip (filter (fun l => blank_line l = false) (pieces blk)).



(** Among the results [attempts] that the executor returned during a call,
    one that reports success is the last one, and its output is what the
    call returned. *)
Definition stops_at_success {A} (attempts : list (bool * str)) (returned : res A)
    (value : str -> A) : Prop :=
  forall before text after,
    attempts = before ++ (true, text) :: after ->
    after = [] /\ returned = Ret (value text).

(** * Properties *)

(** ** Strings *)

Module PyFacts.

Lemma strip_prefix_Some p s r : strip_prefix p s = Some r <-> s = p ++ r.
Proof.
  revert s. induction p as [|a p IH]; intros s; simpl.
  - split; [intros [= ->]; reflexivity | intros ->; reflexivity].
  - destruct s as [|b s]; [split; discriminate|].
    destruct (N.eqb_spec a b) as [->|Hne].
    + rewrite IH. split; [intros ->; reflexivity | intros [= ->]; reflexivity].
    + split; [discriminate | intros [= ? ?]; congruence].
Qed.

Lemma strip_prefix_app p r : strip_prefix p (p ++ r) = Some r.
Proof. apply strip_prefix_Some. reflexivity. Qed.

Lemma find_split_sound sep s a b :
  find_split sep s = Some (a, b) -> s = a ++ sep ++ b.
Proof.
  revert a b. induction s as [|c s IH]; intros a b; simpl.
  - destruct (strip_prefix sep []) eqn:E; [|discriminate].
    intros [= <- <-]. apply strip_prefix_Some in E. exact E.
  - destruct (strip_prefix sep (c :: s)) eqn:E.
    + intros [= <- <-]. apply strip_prefix_Some in E. exact E.
    + destruct (find_split sep s) as [[a0 b0]|] eqn:F; [|discriminate].
      intros [= <- <-]. simpl. f_equal. apply IH. reflexivity.
Qed.

Lemma find_split_least sep s a b :
  find_split sep s = Some (a, b) ->
  forall a' b', s = a' ++ sep ++ b' -> (length a <= length a')%nat.
Proof.
  revert a b. induction s as [|c s IH]; intros a b; simpl.
  - destruct (strip_prefix sep []) eqn:E; [|discriminate].
    intros [= <- <-] a' b' _. simpl. lia.
  - destruct (strip_prefix sep (c :: s)) eqn:E.
    + intros [= <- <-] a' b' _. simpl. lia.
    + destruct (find_split sep s) as [[a0 b0]|] eqn:F; [|discriminate].
      intros [= <- <-] a' b' H.
      destruct a' as [|c' a'].
      * simpl in H. rewrite H, strip_prefix_app in E. discriminate.
      * simpl in H. injection H as -> ->. simpl.
        specialize (IH a0 b0 eq_refl a' b' eq_refl). lia.
Qed.

Lemma find_split_first sep s a b :
  find_split sep s = Some (a, b) -> first_split sep s a b.
Proof. intros H. split; [eapply find_split_sound | eapply find_split_least]; eauto. Qed.

Lemma find_split_None sep s : find_split sep s = None -> ~ occurs sep s.
Proof.
  induction s as [|c s IH]; simpl.
  - destruct (strip_prefix sep []) eqn:E; [discriminate|].
    intros _ (a & b & H). destruct a; [|discriminate].
    simpl in H. rewrite H, strip_prefix_app in E. discriminate.
  - destruct (strip_prefix sep (c :: s)) eqn:E; [discriminate|].
    destruct (find_split sep s) as [[a0 b0]|] eqn:F; [discriminate|].
    intros _ (a & b & H). destruct a as [|c' a].
    + simpl in H. rewrite H, strip_prefix_app in E. discriminate.
    + simpl in H. injection H as -> ->. apply IH; [reflexivity|].
      exists a, b. reflexivity.
Qed.

Lemma occurs_find_split sep s :
  occurs sep s -> exists a b, find_split sep s = Some (a, b).
Proof.
  intros H. destruct (find_split sep s) as [[a b]|] eqn:E; [eauto|].
  apply find_split_None in E. contradiction.
Qed.

Lemma first_split_unique sep s a b a' b' :
  first_split sep s a b -> first_split sep s a' b' -> a = a' /\ b = b'.
Proof.
  intros [H1 L1] [H2 L2].
  pose proof (L1 _ _ H2). pose proof (L2 _ _ H1).
  assert (length a = length a') as Hl by lia.
  rewrite H1 in H2.
  apply app_inj_1 in H2; [|exact Hl]. destruct H2 as [-> H2].
  apply app_inv_head in H2. auto.
Qed.

Lemma first_split_find sep s a b :
  first_split sep s a b -> find_split sep s = Some (a, b).
Proof.
  intros H. destruct (occurs_find_split sep s) as (a' & b' & E).
  - destruct H as [H _]. exists a, b. exact H.
  - pose proof (find_split_first _ _ _ _ E) as H'.
    destruct (first_split_unique _ _ _ _ _ _ H H') as [-> ->]. exact E.
Qed.

Lemma contains_occurs sep s : contains sep s = true <-> occurs sep s.
Proof.
  unfold contains. split.
  - destruct (find_split sep s) as [[a b]|] eqn:E; [|discriminate].
    intros _. exists a, b. eapply find_split_sound; eauto.
  - intros H. destruct (occurs_find_split _ _ H) as (a & b & ->). reflexivity.
Qed.

Lemma contains_false sep s : contains sep s = false <-> ~ occurs sep s.
Proof.
  rewrite <- contains_occurs. destruct (contains sep s); split; intros; congruence.
Qed.

End PyFacts.

Module StripFacts.
Import PyFacts.

Lemma lstrip_suffix s : lstrip s `suffix_of` s.
Proof.
  induction s as [|c s IH]; simpl; [reflexivity|].
  destruct (isspace c); [apply suffix_cons_r, IH | reflexivity].
Qed.

Lemma lstrip_app_stop b c t :
  isspace c = false -> lstrip (b ++ c :: t) = lstrip b ++ c :: t.
Proof.
  intros Hc. induction b as [|x b IH]; simpl.
  - rewrite Hc. reflexivity.
  - destruct (isspace x); [exact IH | reflexivity].
Qed.

Lemma lstrip_idem s : lstrip (lstrip s) = lstrip s.
Proof.
  induction s as [|c s IH]; simpl; [reflexivity|].
  destruct (isspace c) eqn:E; [exact IH | simpl; rewrite E; reflexivity].
Qed.

Lemma strip_cons_space c s : isspace c = true -> strip (c :: s) = strip s.
Proof. intros H. unfold strip. simpl. rewrite H. reflexivity. Qed.

Lemma strip_lstrip s : strip (lstrip s) = strip s.
Proof. unfold strip. rewrite lstrip_idem. reflexivity. Qed.

Lemma occurs_suffix sep t s : t `suffix_of` s -> occurs sep t -> occurs sep s.
Proof.
  intros [k ->] (a & b & ->). exists (k ++ a), b. rewrite <- app_assoc. reflexivity.
Qed.

End StripFacts.

(** ** The matcher of the response parser *)

Module RegexFacts.
Import PromptUtil PyFacts StripFacts.

Section Pattern.
Context (open close : str) (c0 : N) (close' : str).
Hypothesis open_nonempty : open <> [].
Hypothesis close_head : close = c0 :: close'.
Hypothesis close_head_nonspace : isspace c0 = false.

Lemma find_split_lstrip_None s :
  find_split close (lstrip s) = None -> find_split close s = None.
Proof using close_head close_head_nonspace.
  induction s as [|c s IH]; simpl; [auto|].
  destruct (isspace c) eqn:E; [|auto].
  intros H. rewrite (IH H).
  rewrite close_head. simpl.
  destruct (N.eqb_spec c0 c) as [->|]; [congruence|].
  reflexivity.
Qed.

Lemma greedy_space_eq s : greedy_space close s = find_split close (lstrip s).
Proof using close_head close_head_nonspace.
  induction s as [|c s IH]; [reflexivity|].
  cbn [greedy_space lstrip]. destruct (isspace c) eqn:E; [|reflexivity].
  rewrite IH. destruct (find_split close (lstrip s)) eqn:F; [reflexivity|].
  pose proof (find_split_lstrip_None (c :: s)) as H. cbn [lstrip] in H. rewrite E in H.
  unfold lazy_group. rewrite (H F). reflexivity.
Qed.

Lemma greedy_space_None s : ~ occurs close s -> greedy_space close s = None.
Proof using close_head close_head_nonspace.
  intros H. rewrite greedy_space_eq.
  destruct (find_split close (lstrip s)) as [[a b]|] eqn:E; [|reflexivity].
  exfalso. apply H. apply (occurs_suffix _ _ _ (lstrip_suffix s)).
  exists a, b. eapply find_split_sound; eauto.
Qed.

Lemma re_search_None s :
  (forall t after, t `suffix_of` s -> t = open ++ after -> ~ occurs close after) ->
  re_search open close s = None.
Proof using close_head close_head_nonspace.
  induction s as [|c s IH]; intros H; simpl.
  - destruct (strip_prefix open []) as [after|] eqn:E; [|reflexivity].
    apply strip_prefix_Some in E.
    rewrite (greedy_space_None after); [reflexivity|].
    eapply H; [reflexivity | exact E].
  - rewrite IH.
    + destruct (strip_prefix open (c :: s)) as [after|] eqn:E; [|reflexivity].
      apply strip_prefix_Some in E.
      rewrite (greedy_space_None after); [reflexivity|].
      eapply H; [reflexivity | exact E].
    + intros t after Ht. apply H. apply suffix_cons_r. exact Ht.
Qed.

(** Two occurrences of [open] in one text: the text after the later one is
    a suffix of the text after the earlier one. *)
Lemma after_suffix (s a after a' after' : str) :
  s = a ++ open ++ after -> s = a' ++ open ++ after' ->
  (length a <= length a')%nat -> after' `suffix_of` after.
Proof.
  intros H1 H2 Hl.
  assert (after `suffix_of` s) as S1 by (exists (a ++ open); rewrite H1, <- app_assoc; reflexivity).
  assert (after' `suffix_of` s) as S2 by (exists (a' ++ open); rewrite H2, <- app_assoc; reflexivity).
  destruct (suffix_weak_total _ _ _ S1 S2) as [S|S]; [|exact S].
  assert (length after = length after')%nat as Hlen.
  { apply suffix_length in S.
    assert (length s = length a + length open + length after)%nat
      by (rewrite H1, !length_app; lia).
    assert (length s = length a' + length open + length after')%nat
      by (rewrite H2, !length_app; lia).
    lia. }
  destruct S as [k Hk]. rewrite Hk in Hlen. rewrite length_app in Hlen.
  destruct k; [simpl in Hk; subst; reflexivity | simpl in Hlen; lia].
Qed.

Lemma re_search_spec s :
  re_search open close s =
  match find_split open s with
  | Some (_, after) => find_split close (lstrip after)
  | None => None
  end.
Proof using open_nonempty close_head close_head_nonspace.
  destruct (find_split open s) as [[a after]|] eqn:F.
  - revert a F. induction s as [|c s IH]; intros a F.
    + simpl in F. destruct (strip_prefix open []) eqn:E; [|discriminate].
      apply strip_prefix_Some in E. destruct open; [congruence | discriminate].
    + simpl in F. simpl.
      destruct (strip_prefix open (c :: s)) as [after0|] eqn:E.
      * injection F as <- <-. rewrite greedy_space_eq.
        destruct (find_split close (lstrip after0)) as [r|] eqn:G; [reflexivity|].
        apply strip_prefix_Some in E.
        apply re_search_None. intros t after' Ht Et Hocc.
        apply find_split_lstrip_None, find_split_None in G. apply G.
        destruct Ht as [k Hk].
        eapply occurs_suffix; [|exact Hocc].
        eapply (after_suffix (c :: s) [] after0 (c :: k) after'); simpl.
        -- exact E.
        -- rewrite Hk, Et. reflexivity.
        -- lia.
      * destruct (find_split open s) as [[a0 b0]|] eqn:F'; [|discriminate].
        injection F as <- <-. apply (IH a0). reflexivity.
  - apply re_search_None. intros t after [k Hk] Et _.
    apply find_split_None in F. apply F.
    exists k, after. rewrite Hk, Et. reflexivity.
Qed.

End Pattern.
End RegexFacts.

Module FindallFacts.
Import PromptUtil PyFacts StripFacts RegexFacts.

Section Pattern.
Context (open close : str) (c0 : N) (close' : str).
Hypothesis open_nonempty : open <> [].
Hypothesis close_head : close = c0 :: close'.
Hypothesis close_head_nonspace : isspace c0 = false.

Lemma find_split_lstrip s :
  find_split close (lstrip s) =
  match find_split close s with
  | Some (b, rest) => Some (lstrip b, rest)
  | None => None
  end.
Proof using close_head close_head_nonspace.
  induction s as [|c s IH]; cbn [lstrip].
  - destruct (find_split close []) as [[b rest]|] eqn:E; [|reflexivity].
    pose proof (find_split_sound _ _ _ _ E) as H.
    destruct b; [reflexivity | discriminate].
  - destruct (isspace c) eqn:E.
    + rewrite IH. simpl. rewrite close_head at 2. simpl.
      destruct (N.eqb_spec c0 c) as [->|]; [congruence|].
      destruct (find_split close s) as [[b rest]|]; [|reflexivity].
      simpl. rewrite E. reflexivity.
    + destruct (find_split close (c :: s)) as [[b rest]|] eqn:F; [|reflexivity].
      pose proof (find_split_sound _ _ _ _ F) as H.
      destruct b as [|x b]; [reflexivity|].
      simpl in H. injection H as <- _. simpl. rewrite E. reflexivity.
Qed.

Lemma re_search_first s :
  re_search open close s =
  match find_split open s with
  | Some (_, after) =>
      match find_split close after with
      | Some (b, rest) => Some (lstrip b, rest)
      | None => None
      end
  | None => None
  end.
Proof using open_nonempty close_head close_head_nonspace.
  rewrite (re_search_spec open close c0 close' open_nonempty close_head close_head_nonspace).
  destruct (find_split open s) as [[a after]|]; [|reflexivity].
  apply find_split_lstrip.
Qed.

Lemma re_search_None_iff s :
  re_search open close s = None <->
  forall a b c, s <> a ++ open ++ b ++ close ++ c.
Proof using open_nonempty close_head close_head_nonspace.
  rewrite re_search_first. split.
  - destruct (find_split open s) as [[a0 after]|] eqn:F.
    + destruct (find_split close after) as [[b0 rest]|] eqn:G; [discriminate|].
      intros _ a b c H.
      apply find_split_None in G. apply G.
      apply find_split_first in F. destruct F as [F1 F2].
      eapply occurs_suffix.
      * eapply (after_suffix open s a0 after a (b ++ close ++ c)); eauto.
      * exists b, c. reflexivity.
    + intros _ a b c H. apply find_split_None in F. apply F.
      exists a, (b ++ close ++ c). exact H.
  - intros H. destruct (find_split open s) as [[a0 after]|] eqn:F; [|reflexivity].
    destruct (find_split close after) as [[b0 rest]|] eqn:G; [|reflexivity].
    exfalso. apply (H a0 b0 rest).
    apply find_split_sound in F, G. rewrite F, G. reflexivity.
Qed.

Lemma re_search_Some_iff s g rest :
  re_search open close s = Some (g, rest) <->
  exists a after b,
    first_split open s a after /\ first_split close after b rest /\ g = lstrip b.
Proof using open_nonempty close_head close_head_nonspace.
  rewrite re_search_first. split.
  - destruct (find_split open s) as [[a0 after]|] eqn:F; [|discriminate].
    destruct (find_split close after) as [[b0 rest0]|] eqn:G; [|discriminate].
    intros [= <- <-]. exists a0, after, b0.
    split; [|split]; [apply find_split_first, F | apply find_split_first, G | reflexivity].
  - intros (a & after & b & H1 & H2 & ->).
    rewrite (first_split_find _ _ _ _ H1), (first_split_find _ _ _ _ H2). reflexivity.
Qed.

Lemma first_split_shorter s a after b rest :
  first_split open s a after -> first_split close after b rest ->
  (length rest < length s)%nat.
Proof using open_nonempty.
  intros [-> _] [-> _]. rewrite !length_app.
  destruct open; [congruence | simpl; lia].
Qed.

Lemma findall_from_fenced s bs :
  fenced open close s bs ->
  forall n, (length s <= n)%nat -> findall_from n open close s = map lstrip bs.
Proof using open_nonempty close_head close_head_nonspace.
  induction 1 as [s H | s a after b rest bs H1 H2 _ IH]; intros n Hn.
  - apply re_search_None_iff in H. destruct n; simpl; [reflexivity|].
    rewrite H. reflexivity.
  - pose proof (first_split_shorter _ _ _ _ _ H1 H2) as Hlt.
    destruct n as [|n]; [lia|]. simpl.
    assert (re_search open close s = Some (lstrip b, rest)) as ->.
    { apply re_search_Some_iff. exists a, after, b. auto. }
    f_equal. apply IH. lia.
Qed.

Lemma fenced_total s : exists bs, fenced open close s bs.
Proof using open_nonempty close_head close_head_nonspace.
  remember (length s) as n eqn:Hn. revert s Hn.
  induction n as [n IH] using lt_wf_ind. intros s ->.
  destruct (re_search open close s) as [[g rest]|] eqn:E.
  - apply re_search_Some_iff in E. destruct E as (a & after & b & H1 & H2 & _).
    destruct (IH (length rest) (first_split_shorter _ _ _ _ _ H1 H2) rest eq_refl)
      as [bs Hbs].
    exists (b :: bs). econstructor; eauto.
  - exists []. constructor. apply re_search_None_iff. exact E.
Qed.

Lemma re_findall_fenced s bs :
  fenced open close s bs -> re_findall open close s = map lstrip bs.
Proof using open_nonempty close_head close_head_nonspace.
  intros H. unfold re_findall. apply findall_from_fenced; [exact H | lia].
Qed.

End Pattern.

Lemma block_lines_space (c : N) (b : str) : isspace c = true -> block_lines (c :: b) = block_lines b.
Proof.
  intros Hc. unfold block_lines. cbn [splitlines].
  destruct (is_linebreak c) eqn:L.
  - destruct b as [|d b']; [reflexivity|].
    destruct (N.eqb_spec c 13) as [->|]; simpl andb.
    + destruct (N.eqb_spec d 10) as [->|]; [|reflexivity].
      cbn [splitlines]. destruct b'; reflexivity.
    + reflexivity.
  - destruct (splitlines b) as [|l ls].
    + rewrite filter_cons. unfold strip. cbn [lstrip]. rewrite Hc.
      destruct (decide (truthy (rstrip (lstrip [])) = true)) as [H|H];
        [discriminate H|reflexivity].
    + rewrite !filter_cons. unfold strip. cbn [lstrip]. rewrite Hc.
      destruct (decide (truthy (rstrip (lstrip l)) = true)); [|reflexivity].
      simpl. rewrite Hc. reflexivity.
Qed.

Lemma block_lines_lstrip (b : str) : block_lines (lstrip b) = block_lines b.
Proof.
  induction b as [|c b IH]; [reflexivity|]. cbn [lstrip].
  destruct (isspace c) eqn:E; [|reflexivity].
  rewrite IH. symmetry. apply block_lines_space. exact E.
Qed.

Lemma extend_all_concat bs : extend_all bs = concat (map block_lines bs).
Proof.
  unfold extend_all.
  assert (forall acc, fold_left (fun d b => d ++ block_lines b) bs acc
                      = acc ++ concat (map block_lines bs)) as H.
  { induction bs as [|b bs IH]; intros acc; simpl.
    - rewrite app_nil_r. reflexivity.
    - rewrite IH, <- app_assoc. reflexivity. }
  apply H.
Qed.

Lemma extend_all_lstrip bs :
  extend_all (map lstrip bs) = concat (map block_lines bs).
Proof.
  rewrite extend_all_concat. f_equal. rewrite map_map.
  apply map_ext. intros b. apply block_lines_lstrip.
Qed.

End FindallFacts.

(** ** The response parser *)

Module ParserSpec.
Import PromptUtil PyFacts StripFacts RegexFacts FindallFacts.

Lemma fence_head : FENCE = 96 :: [96; 96].
Proof. reflexivity. Qed.

Lemma backtick_nonspace : isspace 96 = false.
Proof. reflexivity. Qed.

Lemma code_open_nonempty : CODE_OPEN <> [].
Proof. discriminate. Qed.

Lemma deps_open_nonempty : DEPS_OPEN <> [].
Proof. discriminate. Qed.

Lemma code_pair_search s :
  re_search CODE_OPEN FENCE s = None <-> ~ code_pair s.
Proof.
  rewrite (re_search_None_iff CODE_OPEN FENCE 96 [96; 96]
             code_open_nonempty fence_head backtick_nonspace).
  unfold code_pair. split.
  - intros H (a & b & c & E). exact (H a b c E).
  - intros H a b c E. apply H. exists a, b, c. exact E.
Qed.

Lemma lstrip_blank (s : str) : lstrip s = [] <-> blank_line s = true.
Proof.
  unfold blank_line. induction s as [|c s IH]; [tauto|].
  cbn [lstrip forallb]. destruct (isspace c); cbn [andb]; [exact IH|].
  split; discriminate.
Qed.

Lemma blank_line_rev (s : str) : blank_line (rev s) = blank_line s.
Proof.
  unfold blank_line. apply eq_true_iff_eq. rewrite !forallb_forall.
  split; intros H x Hx; apply H; [apply in_rev in Hx | apply in_rev]; assumption.
Qed.

(** A text is blank exactly when nothing is left of it after trimming. *)
Lemma strip_blank (s : str) : strip s = [] <-> blank_line s = true.
Proof.
  split.
  - unfold strip, rstrip. intros H.
    apply (f_equal (@rev N)) in H. rewrite rev_involutive in H. cbn in H.
    apply lstrip_blank in H. rewrite blank_line_rev in H.
    apply lstrip_blank in H. rewrite lstrip_idem in H. apply lstrip_blank, H.
  - intros H. apply lstrip_blank in H. unfold strip. rewrite H. reflexivity.
Qed.

Lemma truthy_strip (s : str) : truthy (strip s) = negb (blank_line s).
Proof.
  destruct (blank_line s) eqn:B.
  - apply strip_blank in B. rewrite B. reflexivity.
  - destruct (strip s) eqn:E; [|reflexivity].
    apply strip_blank in E. congruence.
Qed.

Lemma kept_cons (P : str -> Prop) `{forall l, Decision (P l)} (l : str) (ls ls' : list str) :
  map strip (filter P ls) = map strip (filter P ls') ->
  map strip (filter P (l :: ls)) = map strip (filter P (l :: ls')).
Proof.
  intros E. rewrite !filter_cons. destruct (decide (P l)); cbn [map]; congruence.
Qed.

Lemma kept_skip (ls : list str) :
  map strip (filter (fun l => truthy (strip l) = true) ([] :: ls)) =
  map strip (filter (fun l => truthy (strip l) = true) ls).
Proof.
  rewrite filter_cons. destruct (decide _) as [D|D]; [discriminate D | reflexivity].
Qed.

(** [str.splitlines] and the pieces: the first line is the same, and the
    others differ by empty pieces only. *)
Lemma splitlines_pieces (n : nat) (s : str) :
  (length s <= n)%nat ->
  s = [] \/
  exists l ls ls',
    splitlines s = l :: ls /\ pieces s = l :: ls' /\
    map strip (filter (fun l => truthy (strip l) = true) ls) =
    map strip (filter (fun l => truthy (strip l) = true) ls').
Proof.
  revert s. induction n as [|n IH]; intros s Hn.
  { destruct s; [left; reflexivity | simpl in Hn; lia]. }
  destruct s as [|c s]; [left; reflexivity|]. right.
  simpl in Hn. cbn [splitlines pieces].
  assert (forall t, (length t <= n)%nat ->
            map strip (filter (fun l => truthy (strip l) = true) (splitlines t)) =
            map strip (filter (fun l => truthy (strip l) = true) (pieces t))) as F.
  { intros t Ht. destruct (IH t Ht) as [->|(l & ls & ls' & -> & -> & E)].
    - symmetry. apply (kept_skip []).
    - apply kept_cons, E. }
  destruct (is_linebreak c) eqn:L.
  - destruct s as [|d s'].
    + exists [], [], [[]]. split; [reflexivity|]. split; [reflexivity|].
      symmetry. apply (kept_skip []).
    + destruct (N.eqb c 13 && N.eqb d 10) eqn:CR.
      * apply andb_prop in CR. destruct CR as [_ D]. apply N.eqb_eq in D. subst d.
        exists [], (splitlines s'), (pieces (10 :: s')).
        split; [reflexivity|]. split; [reflexivity|].
        cbn [pieces]. change (is_linebreak 10) with true. cbn iota.
        rewrite (F s') by (simpl in Hn; lia).
        symmetry. apply kept_skip.
      * exists [], (splitlines (d :: s')), (pieces (d :: s')).
        split; [reflexivity|]. split; [reflexivity|]. apply F. lia.
  - destruct (IH s ltac:(lia)) as [->|(l & ls & ls' & -> & -> & E)].
    + exists [c], [], []. auto.
    + exists (c :: l), ls, ls'. auto.
Qed.

(** The comprehension of the code yields the trimmed non-blank lines. *)
Lemma block_lines_trimmed (blk : str) : block_lines blk = trimmed_lines blk.
Proof.
  unfold block_lines, trimmed_lines.
  transitivity (map strip (filter (fun l => truthy (strip l) = true) (pieces blk))).
  - destruct (splitlines_pieces (length blk) blk (le_n _))
      as [->|(l & ls & ls' & -> & -> & E)].
    + symmetry. apply (kept_skip []).
    + apply kept_cons, E.
  - f_equal. apply list_filter_iff. intros l. rewrite truthy_strip.
    destruct (blank_line l); cbn; split; congruence.
Qed.

(** C7.  [extract_code_and_dependencies] on any text: either the text holds
    no code delimiter pair and the result is the failure record with error
    "Code block not found", empty code and no dependencies; or the result is
    a success whose code is the trimmed text between the first opening
    [```code] and the first closing fence after it, and whose dependencies
    are the lines of the dependency blocks that are not blank, each trimmed,
    block after block and line after line in the order of the text, with
    nothing removed.  The lines are given by [trimmed_lines], which is
    written from these words and not from the code. *)
Theorem extract_code_and_dependencies_spec (s : str) :
  (~ code_pair s /\
   extract_code_and_dependencies s = mk_parsed false [] [] NOT_FOUND)
  \/
  (exists a after b rest bs,
      first_split CODE_OPEN s a after /\
      first_split FENCE after b rest /\
      fenced DEPS_OPEN FENCE s bs /\
      extract_code_and_dependencies s =
        mk_parsed true (strip b) (concat (map trimmed_lines bs)) []).
Proof.
  unfold extract_code_and_dependencies.
  destruct (re_search CODE_OPEN FENCE s) as [[g rest]|] eqn:E.
  - right.
    apply (re_search_Some_iff CODE_OPEN FENCE 96 [96; 96]
             code_open_nonempty fence_head backtick_nonspace) in E.
    destruct E as (a & after & b & H1 & H2 & ->).
    destruct (fenced_total DEPS_OPEN FENCE 96 [96; 96]
                deps_open_nonempty fence_head backtick_nonspace s) as [bs Hbs].
    exists a, after, b, rest, bs.
    repeat split; try apply H1; try apply H2; try exact Hbs.
    rewrite strip_lstrip.
    rewrite (re_findall_fenced DEPS_OPEN FENCE 96 [96; 96]
               deps_open_nonempty fence_head backtick_nonspace s bs Hbs).
    rewrite extend_all_lstrip.
    rewrite (map_ext _ _ block_lines_trimmed). reflexivity.
  - left. split; [apply code_pair_search, E | reflexivity].
Qed.

(** Two dependency blocks that name the same package: both lines are kept,
    in the order of the blocks. *)
Example extract_keeps_duplicates :
  extract_code_and_dependencies
    (tagged_block (lit "code") (lit "import numpy") ++
     tagged_block (lit "dependencies") (lit "numpy" ++ [10] ++ lit "pandas") ++
     tagged_block (lit "dependencies") (lit "  numpy  " ++ [10; 10]))
  = mk_parsed true (lit "import numpy")
      [lit "numpy"; lit "pandas"; lit "numpy"] [].
Proof. reflexivity. Qed.

(** C10, as stated, fails: a fence tagged [codex], which is not the tag
    [code], is taken for the code block. *)
Lemma extract_other_tag_counterexample :
  ~ (forall tag body : str,
        tag <> lit "code" ->
        extract_code_and_dependencies (tagged_block tag body)
        = mk_parsed false [] [] NOT_FOUND).
Proof.
  intros H. specialize (H (lit "codex") (lit "print(1)")).
  assert (lit "codex" <> lit "code") as Hne by discriminate.
  specialize (H Hne). discriminate H.
Qed.

(** C10, amended.  The opening fence is recognised by the text [```code]
    alone (a tag need only begin with [code]); a text in which [```code]
    does not occur, such as one whose only fence is tagged [python] or has
    no tag, gives the failure record with error "Code block not found". *)
Theorem extract_without_code_tag (s : str) :
  contains CODE_OPEN s = false ->
  extract_code_and_dependencies s = mk_parsed false [] [] NOT_FOUND.
Proof.
  intros H. apply contains_false in H.
  unfold extract_code_and_dependencies.
  assert (re_search CODE_OPEN FENCE s = None) as ->; [|reflexivity].
  apply code_pair_search. intros (a & b & c & E). apply H.
  exists a, (b ++ FENCE ++ c). exact E.
Qed.

Lemma extract_without_code_tag_witness :
  contains CODE_OPEN (tagged_block (lit "python") (lit "print(1)")) = false /\
  extract_code_and_dependencies (tagged_block (lit "python") (lit "print(1)"))
  = mk_parsed false [] [] NOT_FOUND.
Proof.
  split; [reflexivity | apply extract_without_code_tag; reflexivity].
Defined.

End ParserSpec.

(** ** The isolated executor *)

Module ExecSpec.
Import Exec PyFacts StripFacts.

Lemma occurs_app_l sep a b : occurs sep a -> occurs sep (a ++ b).
Proof. intros (x & y & ->). exists x, (y ++ b). rewrite <- !app_assoc. reflexivity. Qed.

Lemma occurs_app_r sep a b : occurs sep b -> occurs sep (a ++ b).
Proof. intros (x & y & ->). exists (a ++ x), y. rewrite <- !app_assoc. reflexivity. Qed.

Lemma occurs_refl sep : occurs sep sep.
Proof. exists [], []. rewrite app_nil_r. reflexivity. Qed.

(** [cleanup] changes nothing of the result but its error text, to which it
    can only add. *)
Lemma cleanup_fields temp_file env r fs :
  let r' := (cleanup temp_file env r fs).1 in
  success r' = success r /\ output r' = output r /\
  error_type r' = error_type r /\ return_code r' = return_code r /\
  exists more, error r' = error r ++ more.
Proof.
  unfold cleanup. destruct temp_file as [p|]; simpl.
  2:{ repeat split. exists []. rewrite app_nil_r. reflexivity. }
  destruct (fs !! p); simpl.
  2:{ repeat split. exists []. rewrite app_nil_r. reflexivity. }
  destruct (unlink_fault env) as [e|]; simpl.
  2:{ repeat split. exists []. rewrite app_nil_r. reflexivity. }
  destruct (error r) eqn:E; simpl; repeat split; rewrite ?E; eauto.
Qed.

Lemma cleanup_deletes path env r fs :
  (cleanup (Some path) env r fs).2 !! path = None \/
  exists e, unlink_fault env = Some e /\
            occurs (CLEANUP_WARNING ++ exn_msg e) (error (cleanup (Some path) env r fs).1).
Proof.
  unfold cleanup. destruct (fs !! path) eqn:F; simpl; [|left; exact F].
  destruct (unlink_fault env) as [e|]; simpl.
  - right. exists e. split; [reflexivity|].
    destruct (truthy (error r)); simpl.
    + apply occurs_app_r. exists [10; 91], [93]. reflexivity.
    + apply occurs_refl.
  - left. apply lookup_delete_eq.
Qed.


Lemma spawn_temp_file code timeout env fs :
  create_fault env = None -> (spawn code timeout env fs).1.1 = Some (tmp_name env).
Proof.
  intros H. unfold spawn. rewrite H.
  destruct (write_fault env); [reflexivity|].
  destruct (encodable code); [|reflexivity].
  destruct (subprocess_run timeout env); reflexivity.
Qed.

Lemma spawn_run code timeout env fs :
  create_fault env = None -> write_fault env = None -> encodable code = true ->
  (spawn code timeout env fs).1.2 =
  match subprocess_run timeout env with
  | Completed rc out err => Exited rc out err
  | RunRaises e => Raised e
  end.
Proof.
  intros H1 H2 H3. unfold spawn. rewrite H1, H2, H3.
  destruct (subprocess_run timeout env); reflexivity.
Qed.

Lemma execute_unfold code timeout capture env fs :
  truthy (strip code) = true ->
  execute_python_code code timeout capture env fs =
  let sp := spawn code timeout env fs in
  let r := match sp.1.2 with
           | Exited rc out err => classify_exit capture env rc out err
           | Raised e => handle_exception timeout env e
           end in
  (Ret (cleanup sp.1.1 env r sp.2).1, (cleanup sp.1.1 env r sp.2).2).
Proof.
  intros H. unfold execute_python_code. rewrite H. simpl negb. cbv iota.
  destruct (spawn code timeout env fs) as [[tf oc] fs1]. simpl.
  destruct (cleanup tf env _ fs1). reflexivity.
Qed.

Lemma cleanup_cases path env r fs :
  let c := cleanup (Some path) env r fs in
  (c.2 !! path = None /\ c = cleanup (Some path) (deleting env) r fs /\ c.1 = r) \/
  (exists e, unlink_fault env = Some e /\ c.2 !! path <> None /\
     success c.1 = success r /\ output c.1 = output r /\
     error_type c.1 = error_type r /\ return_code c.1 = return_code r /\
     error c.1 = with_cleanup_warning (error r) (exn_msg e)).
Proof.
  unfold cleanup, deleting. cbn [unlink_fault].
  destruct (fs !! path) eqn:F; [|left; cbn; auto].
  destruct (unlink_fault env) as [e|].
  - right. exists e. split; [reflexivity|].
    unfold with_cleanup_warning.
    destruct (truthy (error r)); cbn [fst snd success output error error_type
                                      return_code set_error];
      (split; [rewrite F; discriminate | auto]).
  - left. cbn. split; [apply lookup_delete_eq | auto].
Qed.

Lemma cleanup_deleting path env r fs :
  (cleanup (Some path) (deleting env) r fs).1 = r /\
  (cleanup (Some path) (deleting env) r fs).2 !! path = None.
Proof.
  unfold cleanup, deleting. cbn [unlink_fault].
  destruct (fs !! path) eqn:F; cbn; [split; [reflexivity | apply lookup_delete_eq] | auto].
Qed.

(** C3.  A call of [execute_python_code] on non-blank code returns a result
    (it does not raise); [r0] below is the result the same call returns when
    the deletion of the temporary file does not fail.  When the run of the
    interpreter ends by the time-out, the result has [success = false],
    [error_type = "timeout"] and [return_code = -1], and the error text
    before the clean-up is the time-out message.  On every path on which the
    temporary file was created: when the deletion does not fail the file is
    gone; otherwise either the file is gone and the result is [r0], or the
    deletion raised, and then the result is [r0] but for its error text,
    which is the error text of [r0] followed by the warning on a line of its
    own between brackets - or the warning alone when that text was empty. *)
Theorem execute_python_code_timeout_cleanup code timeout capture env fs :
  truthy (strip code) = true ->
  exists r fs' r0 fs0,
    execute_python_code code timeout capture env fs = (Ret r, fs') /\
    execute_python_code code timeout capture (deleting env) fs = (Ret r0, fs0) /\
    (forall e,
        create_fault env = None -> write_fault env = None ->
        encodable code = true ->
        subprocess_run timeout env = RunRaises e ->
        exn_class_of e = TimeoutExpired ->
        success r = false /\ error_type r = Some TIMEOUT /\
        return_code r = Some (-1)%Z /\
        error r0 = TIMED_OUT_AFTER ++ format_value timeout ++ SECONDS) /\
    (create_fault env = None ->
        fs0 !! tmp_name env = None /\
        ((fs' !! tmp_name env = None /\ r = r0 /\ fs' = fs0) \/
         (exists e, unlink_fault env = Some e /\
            fs' !! tmp_name env <> None /\
            success r = success r0 /\ output r = output r0 /\
            error_type r = error_type r0 /\ return_code r = return_code r0 /\
            error r = with_cleanup_warning (error r0) (exn_msg e)))).
Proof.
  intros Hcode. rewrite !(execute_unfold _ _ _ _ _ Hcode). cbv zeta.
  change (spawn code timeout (deleting env) fs) with (spawn code timeout env fs).
  set (sp := spawn code timeout env fs).
  set (r1 := match sp.1.2 with
             | Exited rc out err => classify_exit capture env rc out err
             | Raised e => handle_exception timeout env e
             end).
  change (match sp.1.2 with
          | Exited rc out err => classify_exit capture (deleting env) rc out err
          | Raised e => handle_exception timeout (deleting env) e
          end) with r1.
  eexists _, _, _, _. split; [reflexivity|]. split; [reflexivity|]. split.
  - intros e H1 H2 H3 Hrun Hcls.
    assert (r1 = handle_exception timeout env e) as Hr1.
    { unfold r1, sp. rewrite (spawn_run _ _ _ _ H1 H2 H3), Hrun. reflexivity. }
    destruct (cleanup_fields sp.1.1 env r1 sp.2) as (Hs & _ & Ht & Hr & _).
    rewrite Hs, Ht, Hr.
    assert (sp.1.1 = Some (tmp_name env)) as -> by apply (spawn_temp_file _ _ _ _ H1).
    rewrite (proj1 (cleanup_deleting _ _ _ _)).
    rewrite Hr1. unfold handle_exception. rewrite Hcls. cbn. auto.
  - intros H1.
    assert (sp.1.1 = Some (tmp_name env)) as -> by apply (spawn_temp_file _ _ _ _ H1).
    destruct (cleanup_deleting (tmp_name env) env r1 sp.2) as [D1 D2].
    split; [exact D2|].
    destruct (cleanup_cases (tmp_name env) env r1 sp.2)
      as [(A & B & C)|(e & A & B & C)]; cbv zeta in *.
    + left. split; [exact A|]. rewrite <- B. rewrite C. auto.
    + right. exists e. rewrite D1. auto.
Qed.

(** C2, amended.  For non-blank code whose interpreter process exits with
    status [rc], standard output [out] and standard error [err]:
    with [rc = 0] and empty [err] the result is a success with no error type
    and [output = out];
    with [rc = 0], [capture_stderr] on and an [err] that is not only white
    space, it is a success and the stripped [err] follows [out] under the
    [[WARNINGS]] marker;
    with [rc = 0] and [capture_stderr] off or an [err] of white space only,
    it is a success with [output = out] and no marker;
    with [rc <> 0] it is a failure of type "execution" whose error text
    holds the exit status and the stripped [err]. *)
Theorem execute_python_code_exit code timeout capture env fs rc out err :
  truthy (strip code) = true ->
  create_fault env = None -> write_fault env = None -> encodable code = true ->
  subprocess_run timeout env = Completed rc out err ->
  exists r fs',
    execute_python_code code timeout capture env fs = (Ret r, fs') /\
    (rc = 0%Z -> err = [] ->
       success r = true /\ error_type r = None /\ output r = out) /\
    (rc = 0%Z -> capture = true -> strip err <> [] ->
       success r = true /\
       output r = if truthy out
                  then out ++ [10] ++ WARNINGS ++ [10] ++ strip err
                  else WARNINGS ++ [10] ++ strip err) /\
    (rc = 0%Z -> capture = false \/ strip err = [] ->
       success r = true /\ error_type r = None /\ output r = out) /\
    (rc <> 0%Z ->
       success r = false /\ error_type r = Some EXECUTION /\
       occurs (str_of_Z rc) (error r) /\ occurs (strip err) (error r)).
Proof.
  intros Hcode H1 H2 H3 Hrun. rewrite (execute_unfold _ _ _ _ _ Hcode). cbv zeta.
  eexists _, _. split; [reflexivity|].
  rewrite (spawn_run _ _ _ _ H1 H2 H3), Hrun.
  destruct (cleanup_fields (spawn code timeout env fs).1.1 env
              (classify_exit capture env rc out err) (spawn code timeout env fs).2)
    as (Hs & Ho & Ht & _ & more & He).
  rewrite Hs, Ho, Ht, He. unfold classify_exit.
  split; [|split; [|split]].
  - intros -> ->. simpl. auto.
  - intros -> -> Hne. simpl.
    assert (truthy err = true) as ->
      by (destruct err; [exfalso; apply Hne; reflexivity | reflexivity]).
    assert (truthy (strip err) = true) as ->
      by (destruct (strip err); [congruence | reflexivity]).
    simpl. split; [reflexivity|]. destruct (truthy out); reflexivity.
  - intros -> Hor. simpl.
    destruct (truthy err && capture) eqn:E; [|auto].
    destruct Hor as [-> | ->]; [rewrite andb_false_r in E; discriminate | auto].
  - intros Hrc. apply Z.eqb_neq in Hrc. rewrite Hrc.
    cbn [success error_type error].
    split; [reflexivity|]. split; [reflexivity|]. split.
    + exists FAILED_RC,
        (([41; 10] ++ strip (if truthy err then err else UNKNOWN_ERROR)) ++ more).
      rewrite <- !app_assoc. reflexivity.
    + destruct err as [|c err].
      * exists ((FAILED_RC ++ str_of_Z rc ++ [41; 10] ++ strip UNKNOWN_ERROR) ++ more), [].
        rewrite app_nil_r. reflexivity.
      * cbn [truthy].
        exists (FAILED_RC ++ str_of_Z rc ++ [41; 10]), more.
        rewrite <- !app_assoc. reflexivity.
Qed.

(** C9, at the failing input: for the empty source the result is the
    input-validation failure, and its [return_code] is [None], not an
    integer. *)
Theorem execute_python_code_blank_return_code timeout capture env fs :
  execute_python_code [] timeout capture env fs =
  (Ret (mk_result false [] INVALID_CODE (Some INPUT_VALIDATION) None 0), fs).
Proof. reflexivity. Qed.

Lemma execute_python_code_timeout_cleanup_witness :
  let env := mk_exec_env (lit "/tmp/tmpk3x9.py") None None
               (RunRaises (mk_exn TimeoutExpired (lit "timed out")))
               (fun fs => fs) (Some (mk_exn PermissionError (lit "denied"))) 1000 in
  truthy (strip (lit "import time; time.sleep(60)")) = true /\
  exists r fs',
    execute_python_code (lit "import time; time.sleep(60)") (PInt 1) true env ∅
    = (Ret r, fs') /\
    success r = false /\ error_type r = Some TIMEOUT /\
    return_code r = Some (-1)%Z /\
    error r = lit "Code execution timed out after 1 seconds" ++ [10] ++
              lit "[Cleanup warning: Could not delete temp file: denied]".
Proof.
  intros env. split; [reflexivity|].
  destruct (execute_python_code_timeout_cleanup
              (lit "import time; time.sleep(60)") (PInt 1) true env ∅
              eq_refl) as (r & fs' & r0 & fs0 & H & H0 & Ht & Hc).
  exists r, fs'. split; [exact H|].
  destruct (Ht _ eq_refl eq_refl eq_refl eq_refl eq_refl) as (A & B & C & D).
  split; [exact A|]. split; [exact B|]. split; [exact C|].
  destruct (Hc eq_refl) as [_ [(G & _)|(e & E & _ & _ & _ & _ & _ & F)]].
  - exfalso. vm_compute in H. injection H as _ <-. vm_compute in G. discriminate G.
  - injection E as <-. rewrite F, D. reflexivity.
Defined.

Lemma execute_python_code_exit_witness :
  exists r fs',
    execute_python_code (lit "import warnings") (PInt 50) true
      (quiet_env (Completed 0 (lit "ok") (lit " careful " ++ [10]))) ∅
    = (Ret r, fs') /\
    success r = true /\
    output r = lit "ok" ++ [10] ++ lit "[WARNINGS]" ++ [10] ++ lit "careful".
Proof.
  destruct (execute_python_code_exit
              (lit "import warnings") (PInt 50) true
              (quiet_env (Completed 0 (lit "ok") (lit " careful " ++ [10]))) ∅
              0%Z (lit "ok") (lit " careful " ++ [10])
              eq_refl eq_refl eq_refl eq_refl eq_refl)
    as (r & fs' & H & _ & Hw & _).
  exists r, fs'. split; [exact H|].
  destruct (Hw eq_refl eq_refl) as [A B]; [discriminate|].
  split; [exact A | exact B].
Defined.

(** C2, as stated, fails: the process exits with status 0 and a standard
    error that is not empty (one line feed), and nothing is appended to the
    output: there is no [[WARNINGS]] marker. *)
Lemma whitespace_stderr_counterexample :
  exists r fs',
    execute_python_code (lit "import sys") (PInt 50) true
      (quiet_env (Completed 0 (lit "ok") [10])) ∅
    = (Ret r, fs') /\
    success r = true /\ output r = lit "ok" /\
    contains WARNINGS (output r) = false.
Proof.
  rewrite execute_unfold by reflexivity. cbv zeta.
  eexists _, _. split; [reflexivity|].
  split; [|split]; reflexivity.
Qed.

(** On every other path the exit code is an integer. *)
Lemma execute_python_code_return_code code timeout capture env fs :
  truthy (strip code) = true ->
  exists r fs' rc,
    execute_python_code code timeout capture env fs = (Ret r, fs') /\
    return_code r = Some rc.
Proof.
  intros Hcode. rewrite (execute_unfold _ _ _ _ _ Hcode). cbv zeta.
  set (sp := spawn code timeout env fs).
  set (r0 := match sp.1.2 with
             | Exited rc out err => classify_exit capture env rc out err
             | Raised e => handle_exception timeout env e
             end).
  destruct (cleanup_fields sp.1.1 env r0 sp.2) as (_ & _ & _ & Hr & _).
  assert (exists rc, return_code r0 = Some rc) as [rc Hrc].
  { unfold r0. destruct (sp.1.2) as [rc out err | e].
    - unfold classify_exit. destruct (rc =? 0)%Z; eexists; reflexivity.
    - unfold handle_exception. destruct (exn_class_of e); eexists; reflexivity. }
  eexists _, _, rc. split; [reflexivity|]. rewrite Hr. exact Hrc.
Qed.

(** The executor returns a result on every input: no exception leaves it. *)
Lemma execute_python_code_returns code timeout capture env fs :
  exists r fs', execute_python_code code timeout capture env fs = (Ret r, fs').
Proof.
  unfold execute_python_code.
  destruct (negb (truthy (strip code))); [eauto|].
  destruct (spawn code timeout env fs) as [[tf oc] fs1].
  destruct (cleanup tf env _ fs1). eauto.
Qed.

End ExecSpec.

(** ** The dependency reconciler *)

Module DependFacts.
Import Depend PyFacts StripFacts.

Section WithLower.
Context (lower : str -> str).

Lemma read_requirements_absent file w :
  files w !! file = None -> read_requirements lower file w = (Ret ∅, w).
Proof.
  intros H. unfold read_requirements, bind, get_files. rewrite H. reflexivity.
Qed.

Lemma read_requirements_text file w content :
  files w !! file = Some (Text content) ->
  read_requirements lower file w = (Ret (read_lines lower content), w).
Proof.
  intros H. unfold read_requirements, bind, get_files. rewrite H. reflexivity.
Qed.

Lemma read_requirements_unreadable file w seen e :
  files w !! file = Some (Unreadable seen e) ->
  read_requirements lower file w =
  if is_IOError e then (Ret (read_lines lower seen), w) else (Raise e, w).
Proof.
  intros H. unfold read_requirements, bind, get_files. rewrite H.
  unfold try_except. simpl. unfold raise, ret. destruct (is_IOError e); reflexivity.
Qed.

Lemma read_requirements_world file w r w' :
  read_requirements lower file w = (r, w') -> w' = w.
Proof.
  destruct (files w !! file) as [[c|seen e]|] eqn:F.
  - rewrite (read_requirements_text _ _ _ F). congruence.
  - rewrite (read_requirements_unreadable _ _ _ _ F). destruct (is_IOError e); congruence.
  - rewrite (read_requirements_absent _ _ F). congruence.
Qed.

Lemma fold_missing (existing : gset str) (l acc : list str) :
  fold_left
    (fun missing_packages dependency =>
       if bool_decide (package_name lower dependency ∉ existing)
       then missing_packages ++ [dependency]
       else missing_packages) l acc
  = acc ++ filter (fun d => package_name lower d ∉ existing) l.
Proof.
  revert acc. induction l as [|d l IH]; intros acc; simpl.
  - rewrite app_nil_r. reflexivity.
  - rewrite IH, filter_cons. cbv beta.
    destruct (decide (package_name lower d ∉ existing)) as [Hd|Hd].
    + rewrite (bool_decide_eq_true_2 _ Hd), <- app_assoc. reflexivity.
    + rewrite (bool_decide_eq_false_2 _ Hd). reflexivity.
Qed.

Lemma find_missing_filter deps file w existing :
  read_requirements lower file w = (Ret existing, w) ->
  find_missing_dependencies lower deps file w =
  (Ret (filter (fun d => package_name lower d ∉ existing) deps), w).
Proof.
  intros H. unfold find_missing_dependencies, bind. rewrite H. unfold ret.
  rewrite fold_missing. reflexivity.
Qed.

End WithLower.
End DependFacts.

Module NameFacts.
Import Depend PyFacts StripFacts.

Lemma split_head_prefix sep s :
  exists rest, s = split_head sep s ++ rest /\ (rest = [] \/ exists b, rest = sep ++ b).
Proof.
  unfold split_head. destruct (find_split sep s) as [[a b]|] eqn:E.
  - exists (sep ++ b). split; [eapply find_split_sound; eauto | right; eauto].
  - exists []. split; [rewrite app_nil_r; reflexivity | left; reflexivity].
Qed.

Lemma split_head_least sep s a b :
  s = a ++ sep ++ b -> (length (split_head sep s) <= length a)%nat.
Proof.
  intros H. unfold split_head. destruct (find_split sep s) as [[a0 b0]|] eqn:E.
  - eapply find_split_least; eauto.
  - apply find_split_None in E. exfalso. apply E. exists a, b. exact H.
Qed.

Lemma split_head_no_occurrence sep s :
  sep <> [] -> ~ occurs sep (split_head sep s).
Proof.
  intros Hne (x & y & H).
  destruct (split_head_prefix sep s) as (rest & Hs & _).
  rewrite H in Hs. rewrite <- !app_assoc in Hs.
  pose proof (split_head_least _ _ _ _ Hs) as Hl.
  rewrite H, !length_app in Hl. destruct sep; [congruence | simpl in Hl; lia].
Qed.

Lemma before_specifier_chain s : before_specifier s = chain SPECIFIERS s.
Proof. reflexivity. Qed.

Lemma chain_prefix seps s :
  exists rest, s = chain seps s ++ rest /\
    (rest = [] \/ exists sep b, In sep seps /\ rest = sep ++ b).
Proof.
  revert s. induction seps as [|sep seps IH]; intros s; simpl.
  - exists []. rewrite app_nil_r. auto.
  - destruct (IH (split_head sep s)) as (rest' & H1 & H2).
    destruct (split_head_prefix sep s) as (rest1 & H3 & H4).
    exists (rest' ++ rest1). split.
    + rewrite app_assoc, <- H1. exact H3.
    + destruct H2 as [-> | (sep' & b & Hin & ->)].
      * simpl. destruct H4 as [-> | (b & ->)]; [left; reflexivity|].
        right. exists sep, b. auto.
      * right. exists sep', (b ++ rest1). rewrite <- app_assoc. auto.
Qed.

Lemma chain_no_occurrence seps s sep :
  In sep seps -> sep <> [] -> ~ occurs sep (chain seps s).
Proof.
  revert s. induction seps as [|sep0 seps IH]; intros s Hin Hne; [destruct Hin|].
  simpl. destruct Hin as [->|Hin]; [|apply IH; assumption].
  intros Hocc.
  destruct (chain_prefix seps (split_head sep s)) as (rest & H & _).
  apply (split_head_no_occurrence sep s Hne).
  rewrite H. destruct Hocc as (x & y & ->). exists x, (y ++ rest).
  rewrite <- !app_assoc. reflexivity.
Qed.

Lemma before_any_unique seps s r rest :
  s = r ++ rest ->
  (rest = [] \/ exists sep b, In sep seps /\ rest = sep ++ b) ->
  (forall sep a b, In sep seps -> s = a ++ sep ++ b -> (length r <= length a)%nat) ->
  before_any seps s = r.
Proof.
  revert s. induction r as [|c r IH]; intros s Hs Hrest Hleast.
  - simpl in Hs. subst s. destruct Hrest as [-> | (sep & b & Hin & ->)].
    + simpl. destruct (existsb _ seps); reflexivity.
    + assert (existsb (startswith (sep ++ b)) seps = true) as E.
      { apply existsb_exists. exists sep. split; [exact Hin|].
        unfold startswith. rewrite strip_prefix_app. reflexivity. }
      destruct (sep ++ b); simpl in *; rewrite E; reflexivity.
  - subst s. simpl.
    destruct (existsb (startswith (c :: r ++ rest)) seps) eqn:E.
    + apply existsb_exists in E. destruct E as (sep & Hin & Hsw).
      unfold startswith in Hsw.
      destruct (strip_prefix sep (c :: r ++ rest)) as [b|] eqn:Hp; [|discriminate].
      apply strip_prefix_Some in Hp.
      specialize (Hleast sep [] b Hin). simpl in Hleast.
      specialize (Hleast Hp). lia.
    + f_equal. apply (IH (r ++ rest) eq_refl Hrest).
      intros sep a b Hin H.
      specialize (Hleast sep (c :: a) b Hin). simpl in Hleast.
      rewrite H in Hleast. specialize (Hleast eq_refl). lia.
Qed.

Lemma occurrence_in_prefix (s a sep b r rest : str) :
  s = a ++ sep ++ b -> s = r ++ rest ->
  (length a + length sep <= length r)%nat -> occurs sep r.
Proof.
  intros H1 H2 Hl. rewrite H1, app_assoc in H2.
  apply app_eq_app in H2. destruct H2 as (l & [[H3 H4] | [H3 H4]]).
  - assert (l = []) as ->.
    { apply (f_equal (@length _)) in H3. rewrite !length_app in H3.
      destruct l; [reflexivity | simpl in H3; lia]. }
    rewrite app_nil_r in H3. exists a, []. rewrite app_nil_r. symmetry. exact H3.
  - exists a, l. rewrite H3, <- app_assoc. reflexivity.
Qed.

Lemma straddle (s a b r rest : str) (x y : N) :
  s = a ++ [x; y] ++ b -> s = r ++ rest ->
  (length a < length r)%nat -> (length r < length a + 2)%nat ->
  r = a ++ [x] /\ rest = y :: b.
Proof.
  intros H1 H2 Hl1 Hl2. rewrite H1 in H2.
  apply app_eq_app in H2. destruct H2 as (l & [[H3 H4] | [H3 H4]]).
  - apply (f_equal (@length _)) in H3. rewrite length_app in H3. lia.
  - assert (length l = 1%nat) as Hl.
    { apply (f_equal (@length _)) in H3. rewrite length_app in H3. lia. }
    destruct l as [|z [|? ?]]; try discriminate Hl.
    simpl in H4. injection H4 as <- <-. auto.
Qed.

Lemma specifier_cases sep :
  In sep SPECIFIERS ->
  sep = [61; 61] \/ sep = [62; 61] \/ sep = [60; 61] \/
  sep = [62] \/ sep = [60] \/ sep = [126; 61].
Proof.
  unfold SPECIFIERS. simpl. intros H.
  repeat (destruct H as [<- | H]; [auto 10|]). destruct H.
Qed.

Lemma before_specifier_first (s : str) :
  contains TILDE_EQ_EQ s = false ->
  before_specifier s = before_any SPECIFIERS s.
Proof.
  intros Hno. apply contains_false in Hno.
  rewrite before_specifier_chain. symmetry.
  destruct (chain_prefix SPECIFIERS s) as (rest & Hs & Hrest).
  apply (before_any_unique SPECIFIERS s _ rest Hs Hrest).
  intros sep a b Hin Hocc.
  destruct (Nat.le_gt_cases (length (chain SPECIFIERS s)) (length a)) as [|Hlt];
    [assumption|exfalso].
  assert (forall sep', In sep' SPECIFIERS -> ~ occurs sep' (chain SPECIFIERS s)) as Hfree.
  { intros sep' Hin'. apply chain_no_occurrence; [exact Hin'|].
    destruct (specifier_cases _ Hin') as [->|[->|[->|[->|[->| ->]]]]]; discriminate. }
  destruct (Nat.le_gt_cases (length a + length sep) (length (chain SPECIFIERS s)))
    as [Hin_r | Hstr].
  { apply (Hfree sep Hin). eapply occurrence_in_prefix; eauto. }
  destruct (specifier_cases _ Hin) as [->|[->|[->|[->|[->| ->]]]]];
    cbn [length] in Hstr; try lia.
  - (* == : the first cut is at or before it *)
    change (chain SPECIFIERS s)
      with (chain [GT_EQ; LT_EQ; GT; LT; TILDE_EQ] (split_head EQ_EQ s)) in Hlt.
    destruct (chain_prefix [GT_EQ; LT_EQ; GT; LT; TILDE_EQ] (split_head EQ_EQ s))
      as (rest' & H' & _).
    pose proof (split_head_least EQ_EQ s a b Hocc) as Hl.
    rewrite H' in Hl at 1. rewrite length_app in Hl. lia.
  - (* >= *)
    destruct (straddle s a b _ rest 62 61 Hocc Hs Hlt Hstr) as [Hr _].
    apply (Hfree GT); [unfold SPECIFIERS; simpl; auto 10|].
    exists a, []. rewrite Hr. reflexivity.
  - (* <= *)
    destruct (straddle s a b _ rest 60 61 Hocc Hs Hlt Hstr) as [Hr _].
    apply (Hfree LT); [unfold SPECIFIERS; simpl; auto 10|].
    exists a, []. rewrite Hr. reflexivity.
  - (* ~= *)
    destruct (straddle s a b _ rest 126 61 Hocc Hs Hlt Hstr) as [Hr Hrest'].
    destruct Hrest as [-> | (sep' & b' & Hin' & E)]; [discriminate Hrest'|].
    rewrite Hrest' in E.
    destruct (specifier_cases _ Hin') as [->|[->|[->|[->|[->| ->]]]]];
      try discriminate E.
    simpl in E. injection E as ->.
    apply Hno. exists a, b'. rewrite Hocc. reflexivity.
Qed.

End NameFacts.

Module TrimFacts.
Import Depend PyFacts StripFacts NameFacts.

Lemma rstrip_snoc_space (x : str) (c : N) :
  isspace c = true -> rstrip (x ++ [c]) = rstrip x.
Proof.
  intros H. unfold rstrip. rewrite rev_unit. cbn [lstrip]. rewrite H. reflexivity.
Qed.

Lemma rstrip_snoc_stop (x : str) (c : N) :
  isspace c = false -> rstrip (x ++ [c]) = x ++ [c].
Proof.
  intros H. unfold rstrip. rewrite rev_unit. cbn [lstrip]. rewrite H.
  cbn [rev]. rewrite rev_involutive. reflexivity.
Qed.

Lemma lstrip_snoc_space (l : str) (c : N) :
  isspace c = true ->
  (lstrip l = [] /\ lstrip (l ++ [c]) = []) \/ lstrip (l ++ [c]) = lstrip l ++ [c].
Proof.
  intros H. induction l as [|x l IH]; cbn [lstrip app].
  - left. rewrite H. auto.
  - destruct (isspace x); [exact IH | right; reflexivity].
Qed.

Lemma strip_snoc_space (l : str) (c : N) :
  isspace c = true -> strip (l ++ [c]) = strip l.
Proof.
  intros H. unfold strip.
  destruct (lstrip_snoc_space l c H) as [[-> ->] | ->]; [reflexivity|].
  apply rstrip_snoc_space. exact H.
Qed.

Lemma strip_rstrip (x : str) : strip (rstrip x) = strip x.
Proof.
  induction x as [|c x IH] using rev_ind; [reflexivity|].
  destruct (isspace c) eqn:E.
  - rewrite rstrip_snoc_space, strip_snoc_space by exact E. exact IH.
  - rewrite rstrip_snoc_stop by exact E. reflexivity.
Qed.

(** Cutting at a separator that holds no white space commutes with a white
    space in front. *)
Lemma split_head_cons_space sep (c : N) (s : str) x sep' :
  sep = x :: sep' -> isspace x = false -> isspace c = true ->
  split_head sep (c :: s) = c :: split_head sep s.
Proof.
  intros -> Hx Hc. unfold split_head. cbn [find_split strip_prefix].
  destruct (N.eqb_spec x c) as [->|]; [congruence|].
  destruct (find_split (x :: sep') s) as [[a b]|]; reflexivity.
Qed.

Lemma solid_head sep : solid sep -> exists x sep', sep = x :: sep' /\ isspace x = false.
Proof.
  intros [Hne H]. destruct sep as [|x sep']; [congruence|].
  exists x, sep'. split; [reflexivity | apply H; left; reflexivity].
Qed.

Lemma chain_cons_space seps (c : N) (s : str) :
  Forall solid seps -> isspace c = true ->
  chain seps (c :: s) = c :: chain seps s.
Proof.
  intros Hs Hc. revert s. induction Hs as [|sep seps Hsep _ IH]; intros s; [reflexivity|].
  unfold chain in *. cbn [fold_left].
  destruct (solid_head _ Hsep) as (x & sep' & E & Hx).
  rewrite (split_head_cons_space sep c s x sep' E Hx Hc). apply IH.
Qed.

Lemma split_head_snoc_space sep (t : str) (c : N) :
  solid sep -> isspace c = true ->
  split_head sep (t ++ [c]) = split_head sep t \/
  (split_head sep (t ++ [c]) = t ++ [c] /\ split_head sep t = t).
Proof.
  intros [Hne Hsolid] Hc.
  assert (forall a b, t ++ [c] = a ++ sep ++ b -> exists b', b = b' ++ [c] /\ t = a ++ sep ++ b')
    as Hinv.
  { intros a b H. destruct b as [|y b _] using rev_ind.
    - exfalso. rewrite app_nil_r in H.
      destruct sep as [|z sep _] using rev_ind; [congruence|].
      rewrite app_assoc in H. apply app_inj_tail in H. destruct H as [_ <-].
      specialize (Hsolid c). rewrite Hsolid in Hc; [discriminate|].
      apply in_or_app. right. left. reflexivity.
    - rewrite !app_assoc in H. apply app_inj_tail in H. destruct H as [H <-].
      exists b. split; [reflexivity|]. rewrite H, <- app_assoc. reflexivity. }
  unfold split_head.
  destruct (find_split sep t) as [[a b]|] eqn:F;
    destruct (find_split sep (t ++ [c])) as [[a' b']|] eqn:G.
  - left. apply find_split_first in F, G. destruct F as [F1 F2].
    assert (first_split sep (t ++ [c]) a (b ++ [c])) as H.
    { split; [rewrite F1, <- !app_assoc; reflexivity|].
      intros a0 b0 H. destruct (Hinv a0 b0 H) as (b'' & _ & H'). eapply F2; eauto. }
    destruct (first_split_unique _ _ _ _ _ _ G H) as [-> _]. reflexivity.
  - exfalso. apply find_split_None in G. apply G.
    apply find_split_sound in F. exists a, (b ++ [c]).
    rewrite F, <- !app_assoc. reflexivity.
  - exfalso. apply find_split_sound in G.
    destruct (Hinv a' b' G) as (b'' & _ & H').
    apply find_split_None in F. apply F. exists a', b''. exact H'.
  - right. auto.
Qed.

Lemma chain_snoc_space seps (t : str) (c : N) :
  Forall solid seps -> isspace c = true ->
  chain seps (t ++ [c]) = chain seps t \/ chain seps (t ++ [c]) = chain seps t ++ [c].
Proof.
  intros Hs Hc. revert t. induction Hs as [|sep seps Hsep _ IH]; intros t.
  - right. reflexivity.
  - unfold chain in *. cbn [fold_left].
    destruct (split_head_snoc_space sep t c Hsep Hc) as [-> | [-> ->]].
    + left. reflexivity.
    + apply IH.
Qed.

Lemma specifiers_solid : Forall solid SPECIFIERS.
Proof.
  unfold SPECIFIERS. repeat constructor; try discriminate;
    intros c Hc; simpl in Hc;
    repeat (destruct Hc as [<-|Hc]; [reflexivity|]); destruct Hc.
Qed.

Lemma strip_before_specifier_lstrip (d : str) :
  strip (before_specifier (lstrip d)) = strip (before_specifier d).
Proof.
  induction d as [|c d IH]; [reflexivity|]. cbn [lstrip].
  destruct (isspace c) eqn:E; [|reflexivity].
  rewrite IH, (before_specifier_chain d), (before_specifier_chain (c :: d)).
  rewrite (chain_cons_space SPECIFIERS c d specifiers_solid E).
  symmetry. apply strip_cons_space. exact E.
Qed.

Lemma strip_before_specifier_rstrip (d : str) :
  strip (before_specifier (rstrip d)) = strip (before_specifier d).
Proof.
  induction d as [|c d IH] using rev_ind; [reflexivity|].
  destruct (isspace c) eqn:E.
  - rewrite rstrip_snoc_space by exact E.
    rewrite IH, (before_specifier_chain d), (before_specifier_chain (d ++ [c])).
    destruct (chain_snoc_space SPECIFIERS d c specifiers_solid E) as [-> | ->];
      [reflexivity|].
    symmetry. apply strip_snoc_space. exact E.
  - rewrite rstrip_snoc_stop by exact E. reflexivity.
Qed.

(** The manifest side trims a line before it cuts at the specifiers, the
    request side cuts first: the names are the same. *)
Lemma strip_before_specifier_strip (d : str) :
  strip (before_specifier (strip d)) = strip (before_specifier d).
Proof.
  unfold strip at 2. rewrite strip_before_specifier_rstrip.
  apply strip_before_specifier_lstrip.
Qed.

End TrimFacts.

Module DependSpec.
Import Depend PyFacts StripFacts DependFacts NameFacts.



(** C8, at the failing input: the manifest exists and its bytes are not
    UTF-8, so reading it raises [UnicodeDecodeError]; [read_requirements]
    catches [IOError] only, and the exception leaves [read_requirements] and
    [manage_dependencies]. *)
Theorem manage_dependencies_raises :
  let e := mk_exn UnicodeDecodeError (lit "invalid start byte") in
  let w := example_world {[ REQUIREMENTS_TXT := Unreadable [] e ]}
             (fun _ => []) (fun _ => quiet_env (Completed 0 [] [])) in
  (read_requirements lower_ascii REQUIREMENTS_TXT w).1 = Raise e /\
  (manage_dependencies lower_ascii [lit "numpy"] REQUIREMENTS_TXT true false w).1
  = Raise e.
Proof. split; reflexivity. Qed.

(** [install_packages] catches every exception. *)
Lemma install_packages_returns packages upgrade w :
  exists ok w', install_packages packages upgrade w = (Ret ok, w').
Proof.
  unfold install_packages. destruct packages as [|p ps]; [unfold ret; eauto|].
  unfold try_except, bind, run_pip.
  destruct (pips w (pip_calls w) (p :: ps) upgrade) as [e|]; simpl.
  - destruct (exn_class_of e); unfold ret; eauto.
  - unfold ret; eauto.
Qed.

End DependSpec.

(** ** The retry orchestrator *)

Module Termination.
Import Depend Exec Classify.

Create HintDb fin.

Lemma finishes_ret {A} (a : A) : finishes (ret a).
Proof. intros w. discriminate. Qed.

Lemma finishes_raise {A} (e : exn) : finishes (@raise A e).
Proof. intros w. discriminate. Qed.

Lemma finishes_bind {A B} (m : M A) (k : A -> M B) :
  finishes m -> (forall a, finishes (k a)) -> finishes (bind m k).
Proof.
  intros Hm Hk w. unfold bind. specialize (Hm w).
  destruct (m w) as [[a|e|] w']; simpl in *; [apply Hk | discriminate | congruence].
Qed.

Lemma finishes_try_except {A} (m : M A) (h : exn -> M A) :
  finishes m -> (forall e, finishes (h e)) -> finishes (try_except m h).
Proof.
  intros Hm Hh w. unfold try_except. specialize (Hm w).
  destruct (m w) as [[a|e|] w']; simpl in *; [discriminate | apply Hh | congruence].
Qed.

Lemma finishes_get_files : finishes get_files.
Proof. intros w. discriminate. Qed.

#[local] Hint Resolve finishes_ret finishes_raise finishes_get_files : fin.

Lemma finishes_read_requirements lower file : finishes (read_requirements lower file).
Proof.
  unfold read_requirements. apply finishes_bind; [auto with fin|]. intros fs.
  destruct (fs !! file) as [f|]; [|auto with fin].
  apply finishes_try_except.
  - destruct (read_fault f); auto with fin.
  - intros e. destruct (is_IOError e); auto with fin.
Qed.

Lemma finishes_find_missing lower deps file :
  finishes (find_missing_dependencies lower deps file).
Proof.
  unfold find_missing_dependencies.
  apply finishes_bind; [apply finishes_read_requirements | auto with fin].
Qed.

Lemma finishes_append_block missing file : finishes (append_block missing file).
Proof.
  intros w. unfold append_block.
  destruct (append_fault w file); [discriminate|].
  destruct (write_all _ _) as [content fault].
  destruct (append_write_fault w file) as [[reached e]|]; [discriminate|].
  destruct fault; discriminate.
Qed.

Lemma finishes_append missing file : finishes (append_to_requirements missing file).
Proof.
  unfold append_to_requirements. destruct missing; [auto with fin|].
  apply finishes_try_except.
  - apply finishes_bind; [apply finishes_append_block | auto with fin].
  - intros e. destruct (is_IOError e); auto with fin.
Qed.

Lemma finishes_install packages upgrade : finishes (install_packages packages upgrade).
Proof.
  unfold install_packages. destruct packages; [auto with fin|].
  apply finishes_try_except.
  - apply finishes_bind; [|auto with fin].
    intros w. unfold run_pip. destruct (pips _ _ _ _); discriminate.
  - intros e. destruct (exn_class_of e); auto with fin.
Qed.

Lemma finishes_manage lower deps file install upgrade :
  finishes (manage_dependencies lower deps file install upgrade).
Proof.
  unfold manage_dependencies.
  apply finishes_bind; [apply finishes_find_missing|]. intros missing.
  destruct missing; [auto with fin|].
  apply finishes_bind; [apply finishes_append|]. intros ok.
  destruct (negb ok); [auto with fin|].
  destruct install; [apply finishes_install | auto with fin].
Qed.

Lemma finishes_load file : finishes (load_prompt_template file).
Proof.
  unfold load_prompt_template. apply finishes_bind; [auto with fin|]. intros fs.
  destruct (fs !! file) as [f|]; [|auto with fin].
  destruct (read_fault f) as [e|]; [|auto with fin].
  destruct (exn_class_of e); auto with fin.
Qed.

Lemma finishes_format template args : finishes (format template args).
Proof. intros w. unfold format. destruct (py_format w template args); discriminate. Qed.

Lemma finishes_generate_prompt q t code err : finishes (generate_prompt q t code err).
Proof.
  unfold generate_prompt. destruct (blank q); [auto with fin|].
  destruct t.
  - apply finishes_bind; [apply finishes_load | intros; apply finishes_format].
  - destruct (blank code); [auto with fin|]. destruct (blank err); [auto with fin|].
    apply finishes_bind; [apply finishes_load | intros; apply finishes_format].
Qed.

Lemma finishes_call_llm prompt : finishes (call_llm_code prompt).
Proof. intros w. discriminate. Qed.

Lemma finishes_execute code timeout : finishes (execute code timeout).
Proof.
  intros w. unfold execute.
  destruct (ExecSpec.execute_python_code_returns code timeout true
              (execs w (exec_calls w)) (files w)) as (r & fs' & ->).
  discriminate.
Qed.

(** The recursion of [retry] ends: with enough fuel the bound of the model
    is not reached, whatever the generator, the files and the runs do. *)
Lemma retry_finishes lower fuel q code err trial max_trials :
  (1 + Z.to_nat (Z.max max_trials DEFAULT_MAX_TRIALS - trial) <= fuel)%nat ->
  finishes (retry lower fuel q code err trial max_trials).
Proof.
  revert code err trial max_trials.
  induction fuel as [|fuel IH]; intros code err trial max_trials Hf; [lia|].
  cbn [retry]. destruct (trial >=? max_trials)%Z eqn:E; [auto with fin|].
  apply finishes_bind; [apply finishes_generate_prompt|]. intros prompt.
  apply finishes_bind; [apply finishes_call_llm|]. intros response.
  destruct (negb _); [auto with fin|].
  apply finishes_bind; [apply finishes_manage|]. intros _.
  apply finishes_bind; [apply finishes_execute|]. intros result.
  destruct (success result); [auto with fin|].
  apply IH. unfold DEFAULT_MAX_TRIALS in *. lia.
Qed.

End Termination.

Module ClassifySpec.
Import Depend Exec Classify.

(** One attempt of [retry] that succeeds: the loop stops there and returns
    the output of that attempt. *)
Lemma retry_success_step lower fuel q code0 err trial max_trials
    w prompt w1 response w2 ok w3 r w4 :
  (trial <? max_trials)%Z = true ->
  generate_prompt q PromptRetry code0 err w = (Ret prompt, w1) ->
  call_llm_code prompt w1 = (Ret response, w2) ->
  PromptUtil.success (PromptUtil.extract_code_and_dependencies response) = true ->
  manage_dependencies lower
    (PromptUtil.dependencies (PromptUtil.extract_code_and_dependencies response))
    REQUIREMENTS_TXT true false w2 = (Ret ok, w3) ->
  execute (PromptUtil.code (PromptUtil.extract_code_and_dependencies response))
    DEFAULT_TIMEOUT w3 = (Ret r, w4) ->
  success r = true ->
  retry lower (S fuel) q code0 err trial max_trials w = (Ret (output r), w4).
Proof.
  intros Ht Hp Hl Hs Hm He Hr. cbn [retry].
  assert ((trial >=? max_trials)%Z = false) as -> by lia.
  unfold bind at 1. rewrite Hp. unfold bind at 1. rewrite Hl.
  rewrite Hs. cbn [negb]. unfold bind at 1. rewrite Hm.
  unfold bind at 1. rewrite He. rewrite Hr. reflexivity.
Qed.

(** The first execution is called with the list of dependencies as its time
    limit and cannot succeed: here every run of the interpreter would succeed,
    the first result is a failure of kind "system", and the output returned
    is the one of the second execution, made by [retry]. *)
Example handle_first_run_fails :
  let out := handle_execute_code_class lower_ascii 10 (lit "What is 1+1?")
               (example_world templates
                  (fun _ => tagged_block (lit "code") (lit "print(2)"))
                  (fun _ => quiet_env (Completed 0 (lit "2" ++ [10]) []))) in
  out.1 = Ret (Some (lit "2" ++ [10])) /\
  exec_log out.2 = [(false, []); (true, lit "2" ++ [10])].
Proof. vm_compute. split; reflexivity. Qed.

(** The first attempt fails and the regenerated one succeeds: the output of
    the second attempt is returned. *)
Example handle_failure_then_success :
  (handle_execute_code_class lower_ascii 10 (lit "What is 1+1?")
     (example_world templates
        (fun _ => tagged_block (lit "code") (lit "print(2)"))
        (fun n => match n with
                  | O => failing_run
                  | S _ => quiet_env (Completed 0 (lit "2" ++ [10]) [])
                  end))).1
  = Ret (Some (lit "2" ++ [10])).
Proof. vm_compute. reflexivity. Qed.

(** C5, at the failing input: [retry] is called at trial 2 with a maximum
    of 3 and every attempt fails.  The recursive call falls back to the
    default maximum: the loop makes four attempts (trials 2 to 5) and ends
    at trial 6, not at 3. *)
Theorem retry_ignores_max_trials :
  let w := example_world templates
             (fun _ => tagged_block (lit "code") (lit "print(1/0)"))
             (fun _ => failing_run) in
  let out := retry lower_ascii 10 (lit "What is 1/0?") (lit "print(1/0)")
               (lit "boom") 2 3 w in
  out.1 = Ret (MAX_RETRIES ++
               lit "Execution failed (return code: 1)" ++ [10] ++
               lit "ZeroDivisionError: division by zero") /\
  exec_calls out.2 = 4%nat.
Proof. vm_compute. split; reflexivity. Qed.

(** With the default maximum: a regenerated code block that is empty makes
    the next round raise [ValueError] from [generate_prompt]. *)
Lemma retry_blank_code_raises :
  (retry lower_ascii 10 (lit "What is 1/0?") (lit "print(1/0)") (lit "boom") 2 6
     (example_world templates
        (fun _ => tagged_block (lit "code") [])
        (fun _ => failing_run))).1
  = Raise (mk_exn ValueError CODE_REQUIRED).
Proof. vm_compute. reflexivity. Qed.

(** With the default maximum and attempts that parse and fail, the loop ends
    at trial 6 with the message that carries the last error. *)
Example retry_default_exhausted :
  let w := example_world templates
             (fun _ => tagged_block (lit "code") (lit "print(1/0)"))
             (fun _ => failing_run) in
  let out := retry lower_ascii 10 (lit "What is 1/0?") (lit "print(1/0)")
               (lit "boom") 2 6 w in
  out.1 = Ret (MAX_RETRIES ++
               lit "Execution failed (return code: 1)" ++ [10] ++
               lit "ZeroDivisionError: division by zero") /\
  exec_calls out.2 = 4%nat.
Proof. vm_compute. split; reflexivity. Qed.

End ClassifySpec.

Module ManifestFacts.
Import Depend PyFacts StripFacts NameFacts TrimFacts.

Section WithLower.
Context (lower : str -> str).

Lemma add_line_union (acc : gset str) (line : str) :
  add_line lower acc line = add_line lower ∅ line ∪ acc.
Proof.
  unfold add_line. destruct (truthy (strip line) && negb (startswith (strip line) HASH)).
  - set_solver.
  - set_solver.
Qed.

Lemma fold_add_line (lines : list str) (acc : gset str) :
  fold_left (add_line lower) lines acc = acc ∪ line_keys lower lines.
Proof.
  unfold line_keys. revert acc.
  induction lines as [|l ls IH]; intros acc; cbn [fold_left].
  - set_solver.
  - rewrite (IH (add_line lower acc l)), (IH (add_line lower ∅ l)).
    rewrite (add_line_union acc l). set_solver.
Qed.

Lemma line_keys_cons (l : str) (ls : list str) :
  line_keys lower (l :: ls) = add_line lower ∅ l ∪ line_keys lower ls.
Proof. unfold line_keys at 1. cbn [fold_left]. apply fold_add_line. Qed.

Lemma line_keys_nil : line_keys lower [] = ∅.
Proof. reflexivity. Qed.

Lemma line_keys_app (l1 l2 : list str) :
  line_keys lower (l1 ++ l2) = line_keys lower l1 ∪ line_keys lower l2.
Proof.
  induction l1 as [|l l1 IH]; cbn [app].
  - rewrite line_keys_nil. set_solver.
  - rewrite !line_keys_cons, IH. set_solver.
Qed.

Lemma add_line_blank : add_line lower ∅ [] = ∅.
Proof. reflexivity. Qed.

Lemma add_line_snoc_lf (l : str) :
  add_line lower ∅ (l ++ [10]) = add_line lower ∅ l.
Proof. unfold add_line. rewrite (strip_snoc_space l 10 eq_refl). reflexivity. Qed.

Lemma aligned_keys (s : str) :
  aligned lower s ->
  line_keys lower (iter_lines (universal_newlines s)) = line_keys lower (segs s).
Proof.
  intros [-> | [(l & ls & ls' & -> & -> & H) | (l & -> & ->)]].
  - reflexivity.
  - rewrite !line_keys_cons, add_line_snoc_lf, H. reflexivity.
  - reflexivity.
Qed.

Lemma aligned_all (s : str) : aligned lower s.
Proof.
  induction s as [|c s IH]; [left; reflexivity|].
  pose proof (aligned_keys s IH) as K.
  destruct (N.eqb_spec c 10) as [->|Hlf].
  { right. left. exists [], (iter_lines (universal_newlines s)), (segs s).
    repeat split; auto. }
  destruct (N.eqb_spec c 13) as [->|Hcr].
  { right. left. destruct s as [|d s'].
    - exists [], [], [[]]. repeat split.
    - destruct (N.eqb_spec d 10) as [->|Hd].
      + exists [], (iter_lines (universal_newlines s')), ([] :: segs s').
        split; [|split].
        * cbn [universal_newlines]. simpl N.eqb. cbv iota. reflexivity.
        * reflexivity.
        * cbn [universal_newlines segs] in K. simpl in K.
          rewrite !line_keys_cons in K. rewrite line_keys_cons.
          rewrite add_line_blank in *.
          assert (add_line lower ∅ [10] = ∅) as E by reflexivity.
          rewrite E in K. set_solver.
      + exists [], (iter_lines (universal_newlines (d :: s'))), (segs (d :: s')).
        split; [|split; [reflexivity | exact K]].
        cbn [universal_newlines]. simpl (13 =? 13).
        apply N.eqb_neq in Hd. rewrite Hd. reflexivity. }
  assert (universal_newlines (c :: s) = c :: universal_newlines s) as EU.
  { cbn [universal_newlines]. apply N.eqb_neq in Hcr. rewrite Hcr. reflexivity. }
  assert (is_newline c = false) as En.
  { unfold is_newline. apply N.eqb_neq in Hlf, Hcr. rewrite Hlf, Hcr. reflexivity. }
  rewrite <- N.eqb_neq in Hlf.
  destruct IH as [-> | [(l & ls & ls' & H1 & H2 & H3) | (l & H1 & H2)]].
  - right. right. exists [c]. split; [|cbn [segs]; rewrite En; reflexivity].
    rewrite EU. cbn [universal_newlines iter_lines]. rewrite Hlf. reflexivity.
  - right. left. exists (c :: l), ls, ls'. split; [|split; [|exact H3]].
    + rewrite EU. cbn [iter_lines]. rewrite Hlf, H1. reflexivity.
    + cbn [segs]. rewrite En, H2. reflexivity.
  - right. right. exists (c :: l). split.
    + rewrite EU. cbn [iter_lines]. rewrite Hlf, H1. reflexivity.
    + cbn [segs]. rewrite En, H2. reflexivity.
Qed.

(** The names read from a manifest are those of its segments. *)
Lemma read_lines_segs (text : str) :
  read_lines lower text = line_keys lower (segs text).
Proof. unfold read_lines. apply (aligned_keys text (aligned_all text)). Qed.

End WithLower.

Lemma segs_nonempty (s : str) : segs s <> [].
Proof.
  destruct s as [|c s]; [discriminate|]. cbn [segs].
  destruct (is_newline c); [discriminate|]. destruct (segs s); discriminate.
Qed.

Lemma segs_app_newline (a b : str) (nl : N) :
  is_newline nl = true -> segs (a ++ nl :: b) = segs a ++ segs b.
Proof.
  intros H. induction a as [|c a IH]; cbn [app segs].
  - rewrite H. reflexivity.
  - rewrite IH. destruct (is_newline c); [reflexivity|].
    pose proof (segs_nonempty a). destruct (segs a); [congruence | reflexivity].
Qed.

Lemma segs_one_line (d : str) :
  forallb (fun c => negb (is_newline c)) d = true -> segs d = [d].
Proof.
  induction d as [|c d IH]; [reflexivity|]. cbn [forallb segs].
  intros H. apply andb_true_iff in H. destruct H as [H1 H2].
  apply negb_true_iff in H1. rewrite H1, (IH H2). reflexivity.
Qed.

End ManifestFacts.

Module CommitSpec.
Import Depend PyFacts StripFacts DependFacts NameFacts TrimFacts ManifestFacts.

Lemma write_all_ok missing content content' :
  write_all missing content = (content', None) ->
  content' = content ++ lines_of missing.
Proof.
  revert content. induction missing as [|d ds IH]; intros content; cbn [write_all].
  - intros [= <-]. unfold lines_of. simpl. rewrite app_nil_r. reflexivity.
  - destruct (encodable d); [|discriminate].
    intros H. rewrite (IH _ H). unfold lines_of. simpl.
    rewrite <- !app_assoc. reflexivity.
Qed.

Section WithLower.
Context (lower : str -> str).

Lemma keys_end_last_line (c X : str) :
  line_keys lower (segs (end_last_line c ++ X)) =
  line_keys lower (segs c) ∪ line_keys lower (segs X).
Proof.
  unfold end_last_line. destruct (last c) as [y|] eqn:L.
  - apply last_Some in L. destruct L as [c0 ->].
    destruct (N.eqb_spec y 10) as [->|Hy].
    + rewrite <- !app_assoc. cbn [app].
      rewrite (segs_app_newline c0 X 10 eq_refl), (segs_app_newline c0 [] 10 eq_refl).
      rewrite !line_keys_app. cbn [segs]. rewrite line_keys_cons, line_keys_nil.
      rewrite add_line_blank. set_solver.
    + rewrite <- (app_assoc (c0 ++ [y]) [10] X). cbn [app].
      rewrite (segs_app_newline (c0 ++ [y]) X 10 eq_refl), line_keys_app.
      reflexivity.
  - apply last_None in L. subst c. cbn [app segs].
    rewrite line_keys_cons, line_keys_nil, add_line_blank. set_solver.
Qed.

Lemma keys_lines_of (missing : list str) (d : str) :
  d ∈ missing ->
  line_keys lower (segs d) ⊆ line_keys lower (segs (lines_of missing)).
Proof.
  induction missing as [|x xs IH]; intros Hin; [inversion Hin|].
  unfold lines_of. cbn [map concat]. rewrite <- app_assoc. cbn [app].
  rewrite (segs_app_newline x _ 10 eq_refl), line_keys_app.
  apply elem_of_cons in Hin. destruct Hin as [->|Hin].
  - set_solver.
  - specialize (IH Hin). unfold lines_of in IH. set_solver.
Qed.

Lemma committable_key (d : str) :
  committable d = true ->
  package_name lower d ∈ line_keys lower (segs d).
Proof.
  unfold committable. intros H.
  apply andb_true_iff in H. destruct H as [H H3].
  rewrite (segs_one_line d H3), line_keys_cons, line_keys_nil.
  unfold add_line. rewrite H. unfold package_name.
  rewrite strip_before_specifier_strip. set_solver.
Qed.

(** What a successful commit leaves in the manifest. *)
Lemma append_ok missing file w w1 :
  manifest_readable w file = true ->
  missing <> [] ->
  append_to_requirements missing file w = (Ret true, w1) ->
  files w1 !! file =
    Some (Text (end_last_line
                  (match files w !! file with
                   | Some f => readable_text f
                   | None => []
                   end) ++ lines_of missing)).
Proof.
  intros Hr Hne. unfold append_to_requirements.
  destruct missing as [|d ds]; [congruence|].
  unfold try_except, bind, append_block, manifest_readable in *.
  destruct (append_fault w file) as [e|].
  { destruct (is_IOError e); unfold ret, raise; discriminate. }
  destruct (files w !! file) as [[c|seen e]|] eqn:F; try discriminate Hr;
    cbn [default readable_text];
    destruct (write_all (d :: ds) _) as [content fault] eqn:W;
    (destruct (append_write_fault w file) as [[reached e']|];
     [destruct (is_IOError e'); unfold ret, raise; discriminate|]);
    (destruct fault as [e|];
     [destruct (is_IOError e); unfold ret, raise; discriminate|]);
    unfold ret; intros [= <-]; cbn [files set_files];
    rewrite lookup_insert_eq, (write_all_ok _ _ _ W); reflexivity.
Qed.

(** C4, amended.  Over a manifest that is absent or readable: after
    [find_missing_dependencies] and a successful [append_to_requirements] of
    what it returned, a second [find_missing_dependencies] of the same list
    returns only entries of the first result that the commit cannot make
    visible - blank entries, entries that are comment lines, entries with a
    line break in them.  Every other committed entry is no longer missing;
    when all can be committed the second result is empty. *)
Theorem diff_commit_diff (deps : list str) (file : str) (w w1 : world)
    (missing : list str) :
  manifest_readable w file = true ->
  find_missing_dependencies lower deps file w = (Ret missing, w) ->
  append_to_requirements missing file w = (Ret true, w1) ->
  exists again,
    find_missing_dependencies lower deps file w1 = (Ret again, w1) /\
    forall d, d ∈ again -> d ∈ missing /\ committable d = false.
Proof.
  intros Hr Hdiff Happ.
  destruct missing as [|m ms].
  { cbn in Happ. injection Happ as <-. exists []. split; [exact Hdiff|].
    intros d Hd. inversion Hd. }
  pose proof (append_ok (m :: ms) file w w1 Hr ltac:(discriminate) Happ) as Hfile.
  set (c := match files w !! file with Some f => readable_text f | None => [] end) in *.
  assert (read_requirements lower file w = (Ret (read_lines lower c), w)) as R0.
  { unfold c, manifest_readable in *.
    destruct (files w !! file) as [[t|seen e]|] eqn:F; try discriminate Hr.
    - apply read_requirements_text. exact F.
    - rewrite (read_requirements_absent lower file w F). reflexivity. }
  rewrite (find_missing_filter lower deps file w _ R0) in Hdiff.
  injection Hdiff as Hmissing.
  pose proof (read_requirements_text lower file w1 _ Hfile) as R1.
  eexists. split; [apply (find_missing_filter lower deps file w1 _ R1)|].
  intros d Hd. apply list_elem_of_filter in Hd. destruct Hd as [Hnot Hin].
  rewrite read_lines_segs, keys_end_last_line in Hnot.
  assert (d ∈ m :: ms) as Hm.
  { rewrite <- Hmissing. apply list_elem_of_filter. split; [|exact Hin].
    rewrite read_lines_segs. set_solver. }
  split; [exact Hm|].
  destruct (committable d) eqn:C; [exfalso|reflexivity].
  apply Hnot. apply elem_of_union_r.
  apply (keys_lines_of (m :: ms) d Hm). apply committable_key. exact C.
Qed.

End WithLower.

Lemma diff_commit_diff_witness :
  let w := example_world ∅ (fun _ => []) (fun _ => failing_run) in
  let missing := [lit "numpy==1.24.3"; lit "Pandas >= 1.5"] in
  let w1 := (append_to_requirements missing REQUIREMENTS_TXT w).2 in
  find_missing_dependencies lower_ascii missing REQUIREMENTS_TXT w1 = (Ret [], w1).
Proof.
  intros w missing w1.
  assert (manifest_readable w REQUIREMENTS_TXT = true) as H1 by reflexivity.
  assert (find_missing_dependencies lower_ascii missing REQUIREMENTS_TXT w
          = (Ret missing, w)) as H2 by reflexivity.
  assert (append_to_requirements missing REQUIREMENTS_TXT w = (Ret true, w1))
    as H3 by reflexivity.
  destruct (diff_commit_diff lower_ascii missing REQUIREMENTS_TXT w w1 missing
              H1 H2 H3) as (again & H & Hall).
  rewrite H. destruct again as [|d ds]; [reflexivity|exfalso].
  destruct (Hall d ltac:(left)) as [Hin Hc].
  apply elem_of_cons in Hin. destruct Hin as [->|Hin]; [discriminate Hc|].
  apply elem_of_cons in Hin. destruct Hin as [->|Hin]; [discriminate Hc|].
  inversion Hin.
Defined.

(** C4, as stated, fails: the entry [# no packages needed] is reported
    missing, is appended to the manifest, and is reported missing again,
    because the reader skips comment lines. *)
Lemma commit_comment_counterexample :
  let w := example_world ∅ (fun _ => []) (fun _ => failing_run) in
  let deps := [lit "# no packages needed"] in
  (find_missing_dependencies lower_ascii deps REQUIREMENTS_TXT w).1 = Ret deps /\
  (append_to_requirements deps REQUIREMENTS_TXT w).1 = Ret true /\
  (find_missing_dependencies lower_ascii deps REQUIREMENTS_TXT
     (append_to_requirements deps REQUIREMENTS_TXT w).2).1 = Ret deps.
Proof. vm_compute. repeat split. Qed.

End CommitSpec.

(** ** More on the executor and its wrappers *)

Module ExecMore.
Import Exec ExecTools PyFacts StripFacts ExecSpec.

Lemma lstrip_keeps (c : N) (s : str) :
  In c s -> isspace c = false -> In c (lstrip s).
Proof.
  intros Hin Hc. induction s as [|x s IH]; [destruct Hin|].
  cbn [lstrip]. destruct (isspace x) eqn:E; [|exact Hin].
  destruct Hin as [->|Hin]; [congruence | auto].
Qed.

Lemma strip_keeps (c : N) (s : str) :
  In c s -> isspace c = false -> In c (strip s).
Proof.
  intros Hin Hc. unfold strip, rstrip.
  apply in_rev. rewrite rev_involutive.
  apply lstrip_keeps; [|exact Hc]. apply in_rev. rewrite rev_involutive.
  apply lstrip_keeps; assumption.
Qed.

Lemma not_blank_of_solid_char (c : N) (s : str) :
  In c s -> isspace c = false -> Classify.blank s = false.
Proof.
  intros Hin Hc. unfold Classify.blank.
  pose proof (strip_keeps c s Hin Hc) as H.
  destruct s; [destruct Hin|]. destruct (strip _); [destruct H | reflexivity].
Qed.

Lemma classify_exit_invariant capture env rc out err :
  let r := classify_exit capture env rc out err in
  (success r = true -> error_type r = None /\ return_code r = Some 0%Z) /\
  (success r = false ->
     error_type r = Some EXECUTION /\ In 69 (error r) /\ rc <> 0%Z).
Proof.
  unfold classify_exit. destruct (Z.eqb_spec rc 0) as [->|Hne]; cbn.
  - split; [auto | discriminate].
  - split; [discriminate|]. intros _. repeat split; auto.
Qed.

Lemma handle_exception_invariant timeout env e :
  let r := handle_exception timeout env e in
  success r = false /\ output r = [] /\ return_code r = Some (-1)%Z /\
  error_type r =
    Some (match exn_class_of e with TimeoutExpired => TIMEOUT | _ => SYSTEM end) /\
  (In 67 (error r) \/ In 80 (error r) \/ In 83 (error r)).
Proof.
  unfold handle_exception. destruct (exn_class_of e); cbn; repeat split; auto.
Qed.

(** The shape of a result, whatever the path that produced it. *)
Lemma result_shape code timeout capture env fs r fs' :
  execute_python_code code timeout capture env fs = (Ret r, fs') ->
  (success r = true -> error_type r = None /\ return_code r = Some 0%Z) /\
  (success r = false ->
     exists kind, error_type r = Some kind /\ In kind FAILURE_KINDS /\
                  Classify.blank (error r) = false).
Proof.
  destruct (truthy (strip code)) eqn:Hcode.
  2:{ unfold execute_python_code. rewrite Hcode. cbn [negb].
      intros [= <- <-]. cbn. split; [discriminate|].
      intros _. exists INPUT_VALIDATION. unfold FAILURE_KINDS. cbn. auto. }
  rewrite (execute_unfold _ _ _ _ _ Hcode). cbv zeta. intros [= <- <-].
  set (sp := spawn code timeout env fs).
  set (r0 := match sp.1.2 with
             | Exited rc out err => classify_exit capture env rc out err
             | Raised e => handle_exception timeout env e
             end).
  destruct (cleanup_fields sp.1.1 env r0 sp.2) as (Hs & _ & Ht & Hr & more & He).
  rewrite Hs, Ht, Hr, He. clearbody sp. unfold r0. clear r0 Hs Ht Hr He.
  destruct (sp.1.2) as [rc out err | e].
  - destruct (classify_exit_invariant capture env rc out err) as [H1 H2].
    split; [exact H1|]. intros Hf. destruct (H2 Hf) as (K & Hin & _).
    exists EXECUTION. split; [exact K|]. split; [unfold FAILURE_KINDS; cbn; auto|].
    apply (not_blank_of_solid_char 69); [apply in_or_app; left; exact Hin | reflexivity].
  - destruct (handle_exception_invariant timeout env e) as (Hs & _ & _ & Ht & Hin).
    split; [rewrite Hs; discriminate|]. intros _.
    eexists. split; [exact Ht|]. split.
    + unfold FAILURE_KINDS. destruct (exn_class_of e); cbn; auto.
    + destruct Hin as [Hin|[Hin|Hin]];
        [apply (not_blank_of_solid_char 67) | apply (not_blank_of_solid_char 80)
         | apply (not_blank_of_solid_char 83)];
        try reflexivity; apply in_or_app; left; exact Hin.
Qed.

(** Every call returns a result.  A success has no error type and exit
    code 0; a failure has one of the four kinds of the executor and an error
    text that is not blank, so that the orchestrator can concatenate the two
    and build a retry prompt from them. *)
Theorem execute_python_code_result_kinds code timeout capture env fs :
  exists r fs',
    execute_python_code code timeout capture env fs = (Ret r, fs') /\
    (success r = true -> error_type r = None /\ return_code r = Some 0%Z) /\
    (success r = false ->
       exists kind, error_type r = Some kind /\ In kind FAILURE_KINDS /\
                    Classify.blank (error r) = false).
Proof.
  destruct (execute_python_code_returns code timeout capture env fs)
    as (r & fs' & H).
  exists r, fs'. split; [exact H|].
  exact (result_shape code timeout capture env fs r fs' H).
Qed.

Lemma spawn_frame code timeout env fs path :
  (forall g, run_files env g = g) -> path <> tmp_name env ->
  (spawn code timeout env fs).2 !! path = fs !! path.
Proof.
  intros Hq Hne. unfold spawn.
  destruct (create_fault env); [reflexivity|].
  destruct (write_fault env); cbn; [apply lookup_insert_ne; congruence|].
  destruct (encodable code); cbn; [|apply lookup_insert_ne; congruence].
  destruct (subprocess_run timeout env); cbn; rewrite Hq; apply lookup_insert_ne; congruence.
Qed.

Lemma spawn_created code timeout env fs p :
  (forall g, run_files env g = g) ->
  (spawn code timeout env fs).1.1 = Some p ->
  p = tmp_name env /\ exists f, (spawn code timeout env fs).2 = <[p := f]> fs.
Proof.
  intros Hq. unfold spawn.
  destruct (create_fault env); [discriminate|].
  destruct (write_fault env); cbn; [intros [= <-]; eauto|].
  destruct (encodable code); cbn; [|intros [= <-]; eauto].
  destruct (subprocess_run timeout env); cbn; rewrite Hq; intros [= <-]; eauto.
Qed.

Lemma spawn_not_created code timeout env fs :
  (spawn code timeout env fs).1.1 = None -> (spawn code timeout env fs).2 = fs.
Proof.
  unfold spawn. destruct (create_fault env); [reflexivity|].
  destruct (write_fault env); cbn; [discriminate|].
  destruct (encodable code); cbn; [|discriminate].
  destruct (subprocess_run timeout env); discriminate.
Qed.

Lemma cleanup_frame tf env r fs path :
  tf <> Some path -> (cleanup tf env r fs).2 !! path = fs !! path.
Proof.
  intros Hne. unfold cleanup. destruct tf as [p|]; [|reflexivity].
  destruct (fs !! p); [|reflexivity].
  destruct (unlink_fault env); [destruct (truthy (error r)); reflexivity|].
  cbn. apply lookup_delete_ne. congruence.
Qed.

(** When the child process changes no file: the executor leaves every file
    other than its temporary file as it was; and when the deletion does not
    fail and the temporary name was free, the files are exactly as before
    the call. *)
Theorem execute_python_code_files code timeout capture env fs :
  (forall g, run_files env g = g) ->
  (forall path, path <> tmp_name env ->
     (execute_python_code code timeout capture env fs).2 !! path = fs !! path) /\
  (unlink_fault env = None -> fs !! tmp_name env = None ->
     (execute_python_code code timeout capture env fs).2 = fs).
Proof.
  intros Hq.
  destruct (truthy (strip code)) eqn:Hcode.
  2:{ unfold execute_python_code. rewrite Hcode. cbn. auto. }
  rewrite (execute_unfold _ _ _ _ _ Hcode). cbv zeta. cbn [snd].
  split.
  - intros path Hne. rewrite cleanup_frame.
    + apply spawn_frame; assumption.
    + intros H. destruct (spawn_created _ _ _ _ _ Hq H) as [-> _]. congruence.
  - intros Hu Hfresh.
    destruct ((spawn code timeout env fs).1.1) as [p|] eqn:T.
    + destruct (spawn_created _ _ _ _ _ Hq T) as [-> [f Hf]].
      unfold cleanup. rewrite Hf, lookup_insert_eq, Hu. cbn.
      apply delete_insert_id. exact Hfresh.
    + unfold cleanup. cbn. apply spawn_not_created. exact T.
Qed.

Lemma execute_python_code_files_witness :
  (execute_python_code (lit "print(1)") (PInt 50) true
     (quiet_env (Completed 0 (lit "1") [])) ∅).2 = ∅.
Proof.
  apply (execute_python_code_files (lit "print(1)") (PInt 50) true
           (quiet_env (Completed 0 (lit "1") [])) ∅ (fun g => eq_refl));
    reflexivity.
Defined.

(** An exception raised while the temporary file is made or the
    interpreter is run ends in a failure with empty output and exit code -1:
    of kind "timeout" for [TimeoutExpired], else of kind "system", with the
    text "Permission error: " or "System error: " before the message of the
    exception. *)
Theorem execute_python_code_system_fault code timeout capture env fs e :
  truthy (strip code) = true ->
  (spawn code timeout env fs).1.2 = Raised e ->
  exists r fs',
    execute_python_code code timeout capture env fs = (Ret r, fs') /\
    success r = false /\ output r = [] /\ return_code r = Some (-1)%Z /\
    match exn_class_of e with
    | TimeoutExpired => error_type r = Some TIMEOUT
    | PermissionError =>
        error_type r = Some SYSTEM /\
        strip_prefix (PERMISSION_ERROR ++ exn_msg e) (error r) <> None
    | _ =>
        error_type r = Some SYSTEM /\
        strip_prefix (SYSTEM_ERROR ++ exn_msg e) (error r) <> None
    end.
Proof.
  intros Hcode Hsp. rewrite (execute_unfold _ _ _ _ _ Hcode). cbv zeta.
  eexists _, _. split; [reflexivity|]. rewrite Hsp.
  destruct (cleanup_fields (spawn code timeout env fs).1.1 env
              (handle_exception timeout env e) (spawn code timeout env fs).2)
    as (Hs & Ho & Ht & Hr & more & He).
  rewrite Hs, Ho, Ht, Hr, He.
  unfold handle_exception.
  destruct (exn_class_of e); cbn [success output return_code error_type error];
    repeat split; try reflexivity;
    rewrite strip_prefix_app; discriminate.
Qed.

Lemma execute_python_code_system_fault_witness :
  exists r fs',
    execute_python_code (lit "print(1)") (PInt 50) true
      (mk_exec_env (lit "/tmp/t.py") (Some (mk_exn PermissionError (lit "denied")))
         None (Completed 0 [] []) (fun g => g) None 3) ∅ = (Ret r, fs') /\
    error_type r = Some SYSTEM /\ return_code r = Some (-1)%Z.
Proof.
  destruct (execute_python_code_system_fault (lit "print(1)") (PInt 50) true
      (mk_exec_env (lit "/tmp/t.py") (Some (mk_exn PermissionError (lit "denied")))
         None (Completed 0 [] []) (fun g => g) None 3) ∅
      (mk_exn PermissionError (lit "denied")) eq_refl eq_refl)
    as (r & fs' & H & _ & _ & Hr & Ht & _).
  exists r, fs'. auto.
Defined.

(** [execute_python_code_simple] returns a text that is never empty: the
    output of a success, "[No output]" when that output is empty, and for a
    failure "ERROR (kind): message" with one of the four kinds. *)
Theorem execute_python_code_simple_text code timeout env fs :
  exists text fs',
    execute_python_code_simple code timeout env fs = (Ret text, fs') /\
    text <> [] /\
    (forall r fs1,
        execute_python_code code timeout true env fs = (Ret r, fs1) ->
        fs' = fs1 /\
        (success r = true -> output r = [] -> text = NO_OUTPUT) /\
        (success r = true -> output r <> [] -> text = output r) /\
        (success r = false ->
           exists kind, In kind FAILURE_KINDS /\
             text = ERROR_OPEN ++ kind ++ CLOSE_COLON ++ error r)).
Proof.
  destruct (execute_python_code_returns code timeout true env fs)
    as (r & fs1 & H).
  destruct (result_shape code timeout true env fs r fs1 H) as [Hok Hfail].
  unfold execute_python_code_simple. rewrite H.
  destruct (success r) eqn:S.
  - eexists _, _. split; [reflexivity|]. split.
    + destruct (output r); discriminate.
    + intros r' fs1' [= <- <-]. split; [reflexivity|]. rewrite S.
      split; [|split].
      * intros _ ->. reflexivity.
      * intros _ Hne. destruct (output r); [congruence | reflexivity].
      * discriminate.
  - destruct (Hfail eq_refl) as (kind & Hk & Hin & _).
    eexists _, _. split; [reflexivity|]. split; [discriminate|].
    intros r' fs1' [= <- <-]. split; [reflexivity|]. rewrite S.
    split; [discriminate|]. split; [discriminate|].
    intros _. exists kind. split; [exact Hin|]. rewrite Hk. reflexivity.
Qed.

(** [execute_python_file] returns a result on every path.  The kind
    "file_read" is reported exactly when the file is missing or cannot be
    read; then no file is touched, the exit code is -1 and the error text
    names the path.  A readable file is run as [execute_python_code] runs
    its text. *)
Theorem execute_python_file_read_failure file_path timeout env fs :
  exists r fs',
    execute_python_file file_path timeout env fs = (Ret r, fs') /\
    (error_type r = Some FILE_READ <->
       match fs !! file_path with
       | Some (Text _) => False
       | _ => True
       end) /\
    (error_type r = Some FILE_READ ->
       fs' = fs /\ success r = false /\ return_code r = Some (-1)%Z /\
       occurs file_path (error r)) /\
    (forall content, fs !! file_path = Some (Text content) ->
       execute_python_file file_path timeout env fs =
       execute_python_code (universal_newlines content) timeout true env fs).
Proof.
  unfold execute_python_file, read_text.
  destruct (fs !! file_path) as [[content|seen e]|] eqn:F; cbn.
  - destruct (execute_python_code_returns (universal_newlines content)
                timeout true env fs) as (r & fs1 & H).
    destruct (result_shape _ timeout true env fs r fs1 H) as [Hok Hfail].
    exists r, fs1. split; [exact H|].
    assert (error_type r <> Some FILE_READ) as Hne.
    { destruct (success r) eqn:S.
      - destruct (Hok eq_refl) as [-> _]. discriminate.
      - destruct (Hfail eq_refl) as (kind & -> & Hin & _).
        unfold FAILURE_KINDS in Hin. cbn in Hin.
        destruct Hin as [<-|[<-|[<-|[<-|[]]]]]; discriminate. }
    split; [split; [intros; contradiction | intros []]|].
    split; [intros; contradiction|]. intros c [= <-]. reflexivity.
  - eexists _, _. split; [reflexivity|]. cbn.
    split; [split; auto|]. split; [|discriminate].
    intros _. repeat split.
    exists COULD_NOT_READ, (Classify.COLON_SPACE ++ exn_msg e). reflexivity.
  - eexists _, _. split; [reflexivity|]. cbn.
    split; [split; auto|]. split; [|discriminate].
    intros _. repeat split.
    exists COULD_NOT_READ,
      (Classify.COLON_SPACE ++ NO_SUCH_FILE ++ QUOTE ++ file_path ++ QUOTE).
    reflexivity.
Qed.

End ExecMore.

(** ** More on the dependency reconciler *)

Module DependMore.
Import Depend PyFacts StripFacts DependFacts NameFacts TrimFacts ManifestFacts CommitSpec.

Section WithLower.
Context (lower : str -> str).

Lemma line_keys_member (ls : list str) (x : str) :
  x ∈ line_keys lower ls <-> exists l, l ∈ ls /\ x ∈ add_line lower ∅ l.
Proof.
  induction ls as [|l ls IH].
  - rewrite line_keys_nil. split; [set_solver|]. intros (l & Hl & _). inversion Hl.
  - rewrite line_keys_cons, elem_of_union, IH. split.
    + intros [H | (l' & Hl' & H)].
      * exists l. split; [left | exact H].
      * exists l'. split; [right; exact Hl' | exact H].
    + intros (l' & Hl' & H). apply elem_of_cons in Hl'. destruct Hl' as [->|Hl'].
      * left. exact H.
      * right. eauto.
Qed.

Lemma add_line_member (l x : str) :
  x ∈ add_line lower ∅ l <->
  truthy (strip l) = true /\ startswith (strip l) HASH = false /\
  x = lower (strip (before_specifier l)).
Proof.
  unfold add_line. rewrite strip_before_specifier_strip.
  destruct (truthy (strip l)); destruct (startswith (strip l) HASH); cbn;
    split; try set_solver.
  all: intros (? & ? & ?); try discriminate; set_solver.
Qed.

(** The names [read_requirements] reads from a readable manifest: a name is
    in the set exactly when some line of the text, ended by a line feed, a
    carriage return or the end of the text, is neither blank nor a comment
    and has that name before its version specifier, trimmed and in lower
    case. *)
Theorem read_requirements_names (file : str) (w : world) (text : str) :
  files w !! file = Some (Text text) ->
  exists names,
    read_requirements lower file w = (Ret names, w) /\
    forall x, x ∈ names <->
      exists line, line ∈ segs text /\
        truthy (strip line) = true /\ startswith (strip line) HASH = false /\
        x = lower (strip (before_specifier line)).
Proof.
  intros F. exists (read_lines lower text).
  split; [apply read_requirements_text; exact F|].
  intros x. rewrite read_lines_segs, line_keys_member.
  split; intros (l & Hl & H); exists l; (split; [exact Hl|]); apply add_line_member; exact H.
Qed.

(** The version does not count: a request made of a name without [<], [=],
    [>] or [~], one of the specifiers and any version (in which [~==] does
    not occur) has the trimmed, lower-cased name as its normalized name. *)
Theorem package_name_ignores_version (name sep version : str) :
  In sep SPECIFIERS -> plain_name name = true ->
  contains TILDE_EQ_EQ (name ++ sep ++ version) = false ->
  package_name lower (name ++ sep ++ version) = lower (strip name).
Proof.
  intros Hsep Hname Hno. unfold package_name.
  rewrite (before_specifier_first _ Hno). f_equal. f_equal.
  apply (before_any_unique SPECIFIERS _ name (sep ++ version) eq_refl).
  - right. exists sep, version. auto.
  - intros sep' a b Hin' E.
    destruct (Nat.le_gt_cases (length name) (length a)) as [|Hlt]; [assumption|exfalso].
    (* the first character of [sep'] would be a character of [name] *)
    assert (exists c rest, sep' = c :: rest /\ existsb (N.eqb c) SPECIFIER_CHARS = true)
      as (c & rest & -> & Hc).
    { destruct (specifier_cases _ Hin') as [->|[->|[->|[->|[->| ->]]]]];
        eexists _, _; split; reflexivity. }
    assert (In c name) as Hcn.
    { apply app_eq_app in E. destruct E as (l & [[E1 E2] | [E1 E2]]).
      - subst name. destruct l as [|y l].
        + rewrite app_nil_r in Hlt. lia.
        + cbn in E2. injection E2 as -> _. apply in_or_app. right. left. reflexivity.
      - subst a. rewrite length_app in Hlt. lia. }
    unfold plain_name in Hname. rewrite forallb_forall in Hname.
    specialize (Hname c Hcn). rewrite Hc in Hname. discriminate.
Qed.

End WithLower.



Lemma read_requirements_names_witness :
  exists names,
    read_requirements lower_ascii REQUIREMENTS_TXT
      (example_world {[ REQUIREMENTS_TXT :=
           Text (lit "# pinned" ++ [13; 10] ++ lit "NumPy==1.24.3" ++ [13; 10]) ]}
         (fun _ => []) (fun _ => failing_run))
    = (Ret names,
       example_world {[ REQUIREMENTS_TXT :=
           Text (lit "# pinned" ++ [13; 10] ++ lit "NumPy==1.24.3" ++ [13; 10]) ]}
         (fun _ => []) (fun _ => failing_run)) /\
    lit "numpy" ∈ names.
Proof.
  assert (files (example_world {[ REQUIREMENTS_TXT :=
           Text (lit "# pinned" ++ [13; 10] ++ lit "NumPy==1.24.3" ++ [13; 10]) ]}
         (fun _ => []) (fun _ => failing_run)) !! REQUIREMENTS_TXT
          = Some (Text (lit "# pinned" ++ [13; 10] ++ lit "NumPy==1.24.3" ++ [13; 10])))
    as F by (vm_compute; reflexivity).
  destruct (read_requirements_names lower_ascii REQUIREMENTS_TXT _ _ F)
    as (names & H & Hn).
  exists names. split; [exact H|].
  apply Hn. exists (lit "NumPy==1.24.3"). split.
  - vm_compute. do 2 right. left.
  - repeat split.
Defined.

Lemma package_name_ignores_version_witness :
  package_name lower_ascii (lit "NumPy" ++ lit ">=" ++ lit "1.24, <2") = lit "numpy".
Proof.
  apply (package_name_ignores_version lower_ascii (lit "NumPy") (lit ">=") (lit "1.24, <2")).
  - right. left. reflexivity.
  - reflexivity.
  - reflexivity.
Defined.

Lemma append_world missing file w r w1 :
  append_to_requirements missing file w = (r, w1) ->
  w1 = set_files (files w1) w.
Proof.
  unfold append_to_requirements. destruct missing as [|d ds].
  { intros [= <- <-]. destruct w; reflexivity. }
  unfold try_except, bind, append_block.
  destruct (append_fault w file) as [e|].
  { destruct (is_IOError e); intros [= <- <-]; destruct w; reflexivity. }
  destruct (write_all (d :: ds) _) as [content fault].
  destruct (append_write_fault w file) as [[reached e]|]; cbn.
  { destruct (is_IOError e); intros [= <- <-]; reflexivity. }
  destruct fault as [e|]; cbn.
  - destruct (is_IOError e); intros [= <- <-]; reflexivity.
  - intros [= <- <-]. reflexivity.
Qed.

(** A text that cannot be encoded is refused with an exception that is not
    an [IOError]. *)
Lemma write_all_fault missing content content' e :
  write_all missing content = (content', Some e) -> is_IOError e = false.
Proof.
  revert content. induction missing as [|x xs IH]; intros c; cbn; [discriminate|].
  destruct (encodable x); [apply IH | intros [= _ <-]; reflexivity].
Qed.

Lemma write_all_prefix missing content content' fault :
  write_all missing content = (content', fault) ->
  content `prefix_of` content' /\ content' `prefix_of` content ++ lines_of missing.
Proof.
  revert content. induction missing as [|x xs IH]; intros c; cbn [write_all].
  - intros [= <- <-]. split; [reflexivity|]. exists []. reflexivity.
  - destruct (encodable x).
    + intros H. destruct (IH _ H) as [[k1 H1] [k2 H2]]. split.
      * exists (x ++ [10] ++ k1). rewrite H1, <- !app_assoc. reflexivity.
      * exists k2. unfold lines_of in *. cbn [map concat].
        rewrite <- !app_assoc in *. exact H2.
    + intros [= <- <-]. split; [reflexivity|]. eexists. reflexivity.
Qed.

Lemma end_last_line_prefix (c : str) : c `prefix_of` end_last_line c.
Proof.
  unfold end_last_line. destruct (last c) as [y|]; [|reflexivity].
  destruct (N.eqb y 10); [reflexivity | eexists; reflexivity].
Qed.

Lemma firstn_between (old content : str) (n : nat) :
  old `prefix_of` content ->
  old `prefix_of` firstn (length old + n) content /\
  firstn (length old + n) content `prefix_of` content.
Proof.
  intros [k ->]. split.
  - rewrite firstn_app. replace (length old + n - length old)%nat with n by lia.
    rewrite firstn_all2 by lia. eexists. reflexivity.
  - exists (skipn (length old + n) (old ++ k)). symmetry. apply firstn_skipn.
Qed.

(** The two ways in which [append_to_requirements] returns [False]. *)
Lemma append_false missing file w w1 :
  manifest_readable w file = true ->
  append_to_requirements missing file w = (Ret false, w1) ->
  (exists e, append_fault w file = Some e /\ w1 = w) \/
  (exists reached e text,
     append_fault w file = None /\
     append_write_fault w file = Some (reached, e) /\
     files w1 !! file = Some (Text text) /\
     manifest_text w file `prefix_of` text /\
     text `prefix_of` end_last_line (manifest_text w file) ++ lines_of missing).
Proof.
  intros Hr. unfold append_to_requirements. destruct missing as [|d ds]; [discriminate|].
  unfold try_except, bind, append_block.
  destruct (append_fault w file) as [e|].
  { destruct (is_IOError e); intros [= <-]. left. eauto. }
  assert (exists c, default (Text []) (files w !! file) = Text c /\
                    manifest_text w file = c) as (c & -> & Hc).
  { unfold manifest_readable, manifest_text in *.
    destruct (files w !! file) as [[c|seen e]|]; try discriminate Hr; cbn; eauto. }
  cbn [readable_text].
  destruct (write_all (d :: ds) (end_last_line c)) as [content fault] eqn:W.
  destruct (append_write_fault w file) as [[reached e]|]; cbn.
  - destruct (is_IOError e); intros [= <-]. right.
    exists reached, e, (firstn (length c + reached) content).
    split; [reflexivity|]. split; [reflexivity|].
    split; [cbn; apply lookup_insert_eq|]. rewrite Hc.
    destruct (write_all_prefix _ _ _ _ W) as [P1 P2].
    destruct (firstn_between c content reached) as [Q1 Q2].
    { etransitivity; [apply end_last_line_prefix | exact P1]. }
    split; [exact Q1 | etransitivity; [exact Q2 | exact P2]].
  - destruct fault as [e|]; cbn; [|discriminate].
    rewrite (write_all_fault _ _ _ _ W). discriminate.
Qed.

Lemma append_other_files missing file w r w1 other :
  other <> file ->
  append_to_requirements missing file w = (r, w1) ->
  files w1 !! other = files w !! other.
Proof.
  intros Hne. unfold append_to_requirements. destruct missing as [|d ds].
  { intros [= <- <-]. reflexivity. }
  unfold try_except, bind, append_block.
  destruct (append_fault w file) as [e|].
  { destruct (is_IOError e); intros [= <- <-]; reflexivity. }
  destruct (write_all (d :: ds) _) as [content fault].
  destruct (append_write_fault w file) as [[reached e]|]; cbn.
  { destruct (is_IOError e); intros [= <- <-]; cbn; apply lookup_insert_ne; congruence. }
  destruct fault as [e|]; cbn.
  - destruct (is_IOError e); intros [= <- <-]; cbn; apply lookup_insert_ne; congruence.
  - intros [= <- <-]. cbn. apply lookup_insert_ne. congruence.
Qed.

(** [append_to_requirements] over a manifest that is absent or readable
    only appends: no other file changes.  When it returns [False], either
    the file could not be opened and nothing has changed, or an exception of
    the operating system came after the opening, and the manifest is left
    with a text that begins with its old text and is a beginning of what a
    complete append would have left.  Given nothing to append it changes
    nothing.  On success the manifest holds its old text, a line feed when
    the old text did not end in one, and each entry followed by a line
    feed. *)
Theorem append_to_requirements_appends missing file w ok w1 :
  manifest_readable w file = true ->
  append_to_requirements missing file w = (Ret ok, w1) ->
  (forall other, other <> file -> files w1 !! other = files w !! other) /\
  (ok = false ->
     (exists e, append_fault w file = Some e /\ w1 = w) \/
     (exists reached e text,
        append_fault w file = None /\
        append_write_fault w file = Some (reached, e) /\
        files w1 !! file = Some (Text text) /\
        manifest_text w file `prefix_of` text /\
        text `prefix_of` end_last_line (manifest_text w file) ++ lines_of missing)) /\
  (ok = true -> missing = [] -> w1 = w) /\
  (ok = true -> missing <> [] ->
     files w1 !! file =
     Some (Text (end_last_line (manifest_text w file) ++ lines_of missing))).
Proof.
  intros Hr H. split; [|split; [|split]].
  - intros other Hne. eapply append_other_files; eauto.
  - intros ->. eapply append_false; eauto.
  - intros -> ->. cbn in H. injection H as <-. reflexivity.
  - intros -> Hne. apply (append_ok missing file w w1 Hr Hne H).
Qed.

(** The disk fills up after three characters of the append: the call returns
    [False] and the manifest is left with the beginning of the new line. *)
Example append_to_requirements_disk_full :
  let out := append_to_requirements [lit "flask"] REQUIREMENTS_TXT
               (full_disk {[ REQUIREMENTS_TXT := Text (lit "numpy") ]} 3) in
  out.1 = Ret false /\
  files out.2 !! REQUIREMENTS_TXT = Some (Text (lit "numpy" ++ [10] ++ lit "fl")).
Proof. vm_compute. split; reflexivity. Qed.

Lemma append_to_requirements_appends_witness :
  files (append_to_requirements [lit "flask"] REQUIREMENTS_TXT
           (example_world {[ REQUIREMENTS_TXT := Text (lit "numpy") ]}
              (fun _ => []) (fun _ => failing_run))).2 !! REQUIREMENTS_TXT
  = Some (Text (lit "numpy" ++ [10] ++ lit "flask" ++ [10])).
Proof.
  assert (manifest_readable
            (example_world {[ REQUIREMENTS_TXT := Text (lit "numpy") ]}
               (fun _ => []) (fun _ => failing_run)) REQUIREMENTS_TXT = true)
    as Hr by (vm_compute; reflexivity).
  assert (append_to_requirements [lit "flask"] REQUIREMENTS_TXT
            (example_world {[ REQUIREMENTS_TXT := Text (lit "numpy") ]}
               (fun _ => []) (fun _ => failing_run))
          = (Ret true,
             (append_to_requirements [lit "flask"] REQUIREMENTS_TXT
                (example_world {[ REQUIREMENTS_TXT := Text (lit "numpy") ]}
                   (fun _ => []) (fun _ => failing_run))).2))
    as Ha by (vm_compute; reflexivity).
  pose proof (append_to_requirements_appends [lit "flask"] REQUIREMENTS_TXT
                _ true _ Hr Ha) as (_ & _ & _ & H).
  rewrite (H eq_refl); [vm_compute; reflexivity | discriminate].
Defined.

End DependMore.

(** ** What the diff returns *)

Module DiffSpec.
Import Depend PyFacts StripFacts ParserSpec DependFacts NameFacts TrimFacts
       ManifestFacts DependSpec DependMore.

Section WithLower.
Context (lower : str -> str).




End WithLower.


End DiffSpec.

Module ManageSpec.
Import Depend PyFacts StripFacts DependFacts NameFacts TrimFacts ManifestFacts CommitSpec DependMore.

Section WithLower.
Context (lower : str -> str).

Lemma find_missing_world deps file w r w' :
  find_missing_dependencies lower deps file w = (r, w') -> w' = w.
Proof.
  unfold find_missing_dependencies, bind.
  destruct (read_requirements lower file w) as [[names|e|] w0] eqn:R;
    apply read_requirements_world in R; subst w0; unfold ret; congruence.
Qed.

Lemma filter_nil_all (names : gset str) (deps : list str) :
  (forall d, d ∈ deps -> package_name lower d ∈ names) ->
  filter (fun d => package_name lower d ∉ names) deps = [].
Proof.
  intros H. induction deps as [|d deps IH]; [reflexivity|].
  rewrite filter_cons.
  destruct (decide (package_name lower d ∉ names)) as [Hn|_].
  - exfalso. apply Hn, H. left.
  - apply IH. intros d' Hd'. apply H. right. exact Hd'.
Qed.

Lemma install_packages_run p ps upgrade w :
  install_packages (p :: ps) upgrade w =
  (Ret (pip_ok (pips w (pip_calls w) (p :: ps) upgrade)),
   count_pip w (S (pip_calls w))).
Proof.
  unfold install_packages, try_except, bind, run_pip, count_pip.
  destruct (pips w (pip_calls w) (p :: ps) upgrade) as [e|]; cbn.
  - destruct (exn_class_of e); reflexivity.
  - reflexivity.
Qed.

(** What [manage_dependencies] does once the append has returned. *)
Lemma manage_after_append deps file install upgrade w missing ok w1 :
  find_missing_dependencies lower deps file w = (Ret missing, w) ->
  missing <> [] ->
  append_to_requirements missing file w = (Ret ok, w1) ->
  manage_dependencies lower deps file install upgrade w =
    if ok && install
    then (Ret (pip_ok (pips w (pip_calls w) missing upgrade)),
          count_pip w1 (S (pip_calls w)))
    else (Ret ok, w1).
Proof.
  intros Hf Hne Ha. unfold manage_dependencies, bind. rewrite Hf.
  destruct missing as [|m ms]; [congruence|]. rewrite Ha.
  pose proof (append_world _ _ _ _ _ Ha) as Hw.
  destruct ok; cbn [negb andb]; [|reflexivity].
  destruct install; [|reflexivity].
  rewrite install_packages_run. rewrite Hw. reflexivity.
Qed.

(** Nothing is missing when every name is known. *)
Lemma manage_nothing_missing deps file install upgrade w names :
  read_requirements lower file w = (Ret names, w) ->
  (forall d, d ∈ deps -> package_name lower d ∈ names) ->
  manage_dependencies lower deps file install upgrade w = (Ret true, w).
Proof.
  intros R H. unfold manage_dependencies, bind.
  rewrite (find_missing_filter lower deps file w names R).
  rewrite (filter_nil_all names deps H). reflexivity.
Qed.

(** When the normalized name of every requested dependency is already among
    the names of the manifest, [manage_dependencies] returns [True] and
    changes nothing: it writes no file and does not run the package
    manager. *)
Theorem manage_dependencies_satisfied deps file install upgrade w names :
  read_requirements lower file w = (Ret names, w) ->
  (forall d, d ∈ deps -> package_name lower d ∈ names) ->
  manage_dependencies lower deps file install upgrade w = (Ret true, w).
Proof.
  intros R H. unfold manage_dependencies, bind.
  rewrite (find_missing_filter lower deps file w names R).
  rewrite (filter_nil_all names deps H). reflexivity.
Qed.

(** When something is missing: with [install_missing] off the result is
    that of the append and the package manager is not run; with it on, a
    failed append gives [False] without a run, and a successful append is
    followed by exactly one run of the package manager, on the whole list of
    missing entries, whose exit status decides the result. *)
Theorem manage_dependencies_installs deps file upgrade w missing ok w1 :
  find_missing_dependencies lower deps file w = (Ret missing, w) ->
  missing <> [] ->
  append_to_requirements missing file w = (Ret ok, w1) ->
  manage_dependencies lower deps file false upgrade w = (Ret ok, w1) /\
  manage_dependencies lower deps file true upgrade w =
    if ok
    then (Ret (pip_ok (pips w (pip_calls w) missing upgrade)),
          count_pip w1 (S (pip_calls w)))
    else (Ret false, w1).
Proof.
  intros Hf Hne Ha.
  rewrite !(manage_after_append deps file _ upgrade w missing ok w1 Hf Hne Ha).
  rewrite andb_false_r, andb_true_r. destruct ok; split; reflexivity.
Qed.

Lemma names_after_commit (c : str) (missing deps : list str) (names : gset str) :
  names = read_lines lower c ->
  missing = filter (fun d => package_name lower d ∉ names) deps ->
  (forall d, d ∈ deps -> committable d = true) ->
  forall d, d ∈ deps ->
    package_name lower d ∈ read_lines lower (end_last_line c ++ lines_of missing).
Proof.
  intros -> -> Hc d Hd.
  rewrite read_lines_segs, keys_end_last_line, <- read_lines_segs.
  destruct (decide (package_name lower d ∈ read_lines lower c)) as [Hin|Hnot].
  - apply elem_of_union_l. exact Hin.
  - apply elem_of_union_r.
    eapply keys_lines_of; [|apply committable_key, Hc, Hd].
    apply list_elem_of_filter. auto.
Qed.

(** The manifest is written before the packages are installed.  So, over a
    manifest that is absent or readable, when the file can be opened for
    appending and no exception of the operating system comes while it is
    written and closed, for dependencies that are one non-blank, non-comment
    line each: once a call of [manage_dependencies] has returned, with [True]
    or, after a failed installation, with [False], a second call with the
    same list returns [True] and changes nothing; a failed installation is
    not tried again. *)
Theorem manage_dependencies_again deps file install upgrade w ok w1 :
  manifest_readable w file = true ->
  (forall d, d ∈ deps -> committable d = true) ->
  append_fault w file = None ->
  append_write_fault w file = None ->
  manage_dependencies lower deps file install upgrade w = (Ret ok, w1) ->
  manage_dependencies lower deps file install upgrade w1 = (Ret true, w1).
Proof.
  intros Hr Hc Hfault Hwrite H.
  assert (read_requirements lower file w
          = (Ret (read_lines lower (manifest_text w file)), w)) as R0.
  { unfold manifest_text, manifest_readable in *.
    destruct (files w !! file) as [[t|seen e]|] eqn:F; try discriminate Hr.
    - apply read_requirements_text. exact F.
    - rewrite (read_requirements_absent lower file w F). reflexivity. }
  pose proof (find_missing_filter lower deps file w _ R0) as Hf.
  set (missing := filter (fun d => package_name lower d ∉
                            read_lines lower (manifest_text w file)) deps) in *.
  destruct missing as [|m ms] eqn:Hm.
  { unfold manage_dependencies, bind in H. rewrite Hf in H.
    injection H as <- <-.
    unfold manage_dependencies, bind. rewrite Hf. reflexivity. }
  destruct (append_to_requirements (m :: ms) file w) as [[okA|e|] wA] eqn:Ha.
  - pose proof (manage_after_append deps file install upgrade w (m :: ms) okA wA
                  Hf ltac:(discriminate) Ha) as H1.
    rewrite H1 in H.
    destruct okA.
    + pose proof (append_ok (m :: ms) file w wA Hr ltac:(discriminate) Ha) as Hfile.
      assert (files w1 !! file = files wA !! file) as Hsame.
      { destruct install; cbn [andb] in H; injection H as _ <-; reflexivity. }
      rewrite <- Hsame in Hfile.
      eapply manage_nothing_missing.
      * apply read_requirements_text. exact Hfile.
      * apply (names_after_commit _ (m :: ms) deps _ eq_refl); [|exact Hc].
        symmetry. exact Hm.
    + exfalso. clear H1 H.
      destruct (append_false (m :: ms) file w wA Hr Ha)
        as [(e & E & _)|(reached & e & text & _ & E & _)]; congruence.
  - exfalso. unfold manage_dependencies, bind in H. rewrite Hf, Ha in H. discriminate H.
  - exfalso. unfold manage_dependencies, bind in H. rewrite Hf, Ha in H. discriminate H.
Qed.

End WithLower.

Lemma manage_dependencies_satisfied_witness :
  manage_dependencies lower_ascii [lit "NumPy>=1.0"] REQUIREMENTS_TXT true false
    (example_world {[ REQUIREMENTS_TXT := Text (lit "numpy==1.24.3" ++ [10]) ]}
       (fun _ => []) (fun _ => failing_run))
  = (Ret true,
     example_world {[ REQUIREMENTS_TXT := Text (lit "numpy==1.24.3" ++ [10]) ]}
       (fun _ => []) (fun _ => failing_run)).
Proof.
  apply (manage_dependencies_satisfied lower_ascii [lit "NumPy>=1.0"]
           REQUIREMENTS_TXT true false _
           (read_lines lower_ascii (lit "numpy==1.24.3" ++ [10]))).
  - vm_compute. reflexivity.
  - intros d Hd. apply list_elem_of_singleton in Hd. subst d.
    apply (bool_decide_unpack
             (package_name lower_ascii (lit "NumPy>=1.0")
              ∈ read_lines lower_ascii (lit "numpy==1.24.3" ++ [10]))).
    vm_compute. exact I.
Defined.

Lemma manage_dependencies_installs_witness :
  let w := example_world ∅ (fun _ => []) (fun _ => failing_run) in
  let w1 := (append_to_requirements [lit "flask"] REQUIREMENTS_TXT w).2 in
  manage_dependencies lower_ascii [lit "flask"] REQUIREMENTS_TXT true false w
  = (Ret true, count_pip w1 1).
Proof.
  intros w w1.
  assert (find_missing_dependencies lower_ascii [lit "flask"] REQUIREMENTS_TXT w
          = (Ret [lit "flask"], w)) as Hf by (vm_compute; reflexivity).
  assert (append_to_requirements [lit "flask"] REQUIREMENTS_TXT w = (Ret true, w1))
    as Ha by (vm_compute; reflexivity).
  destruct (manage_dependencies_installs lower_ascii [lit "flask"] REQUIREMENTS_TXT
              false w [lit "flask"] true w1 Hf ltac:(discriminate) Ha) as [_ H].
  exact H.
Defined.

Lemma manage_dependencies_again_witness :
  let w := example_world ∅ (fun _ => []) (fun _ => failing_run) in
  let w1 := (manage_dependencies lower_ascii [lit "flask"] REQUIREMENTS_TXT
               true false w).2 in
  manage_dependencies lower_ascii [lit "flask"] REQUIREMENTS_TXT true false w1
  = (Ret true, w1).
Proof.
  intros w w1.
  apply (manage_dependencies_again lower_ascii [lit "flask"] REQUIREMENTS_TXT
           true false w true w1).
  - vm_compute. reflexivity.
  - intros d Hd. apply list_elem_of_singleton in Hd. subst d. reflexivity.
  - reflexivity.
  - reflexivity.
  - vm_compute. reflexivity.
Defined.

(** When the disk fills up during the append, the first call returns [False]
    with the manifest partly written, and a second call with the same list
    finds the entry missing and appends again. *)
Example manage_dependencies_disk_full :
  let w := full_disk {[ REQUIREMENTS_TXT := Text (lit "numpy") ]} 3 in
  let first := manage_dependencies lower_ascii [lit "flask"] REQUIREMENTS_TXT
                 true false w in
  let second := manage_dependencies lower_ascii [lit "flask"] REQUIREMENTS_TXT
                  true false first.2 in
  first.1 = Ret false /\
  files first.2 !! REQUIREMENTS_TXT = Some (Text (lit "numpy" ++ [10] ++ lit "fl")) /\
  second.1 = Ret false /\
  files second.2 !! REQUIREMENTS_TXT
  = Some (Text (lit "numpy" ++ [10] ++ lit "fl" ++ [10] ++ lit "fl")) /\
  pip_calls second.2 = 0%nat.
Proof. vm_compute. repeat split. Qed.

End ManageSpec.

(** ** The response parser: normal form and round trip *)

Module ParserMore.
Import PromptUtil PyFacts StripFacts RegexFacts FindallFacts ParserSpec TrimFacts ExecMore.

Lemma strip_idem (s : str) : strip (strip s) = strip s.
Proof.
  unfold strip at 2. rewrite strip_rstrip. apply strip_lstrip.
Qed.

Lemma rstrip_prefix (s : str) : rstrip s `prefix_of` s.
Proof.
  unfold rstrip. destruct (lstrip_suffix (rev s)) as [k Hk].
  exists (rev k). apply (f_equal (@rev N)) in Hk.
  rewrite rev_involutive, rev_app_distr in Hk. exact Hk.
Qed.

Lemma strip_infix (s : str) : exists a b, s = a ++ strip s ++ b.
Proof.
  unfold strip. destruct (lstrip_suffix s) as [a Ha].
  destruct (rstrip_prefix (lstrip s)) as [b Hb].
  exists a, b. rewrite <- Hb. exact Ha.
Qed.

Lemma strip_in (c : N) (s : str) : In c (strip s) -> In c s.
Proof.
  destruct (strip_infix s) as (a & b & E). intros H. rewrite E.
  apply in_or_app. right. apply in_or_app. left. exact H.
Qed.

Lemma occurs_strip sep (s : str) : occurs sep (strip s) -> occurs sep s.
Proof.
  destruct (strip_infix s) as (a & b & E). intros (x & y & H).
  exists (a ++ x), (y ++ b). rewrite E at 1. rewrite H.
  rewrite <- !app_assoc. reflexivity.
Qed.

(** Nothing before the first occurrence holds the separator. *)
Lemma first_split_clean sep (s a b : str) :
  sep <> [] -> first_split sep s a b -> ~ occurs sep a.
Proof.
  intros Hne [-> Hmin] (x & y & ->).
  specialize (Hmin x (y ++ sep ++ b)).
  rewrite <- !app_assoc in Hmin. specialize (Hmin eq_refl).
  rewrite !length_app in Hmin. destruct sep; [congruence|]. simpl in Hmin. lia.
Qed.

Lemma splitlines_no_break (s : str) :
  forall l, In l (splitlines s) -> forall c, In c l -> is_linebreak c = false.
Proof.
  remember (length s) as n eqn:Hn. revert s Hn.
  induction n as [n IH] using lt_wf_ind. intros s -> l Hl c Hc.
  destruct s as [|x s]; [destruct Hl|]. cbn [splitlines] in Hl.
  destruct (is_linebreak x) eqn:E.
  - destruct s as [|d s'].
    + destruct Hl as [<-|[]]. destruct Hc.
    + destruct (N.eqb x 13 && N.eqb d 10).
      * destruct Hl as [<-|Hl]; [destruct Hc|].
        eapply (IH (length s')); [simpl; lia | reflexivity | exact Hl | exact Hc].
      * destruct Hl as [<-|Hl]; [destruct Hc|].
        eapply (IH (length (d :: s'))); [simpl; lia | reflexivity | exact Hl | exact Hc].
  - assert (forall l', In l' (splitlines s) ->
                       forall c', In c' l' -> is_linebreak c' = false) as IHs.
    { intros l' Hl' c' Hc'.
      eapply (IH (length s)); [simpl; lia | reflexivity | exact Hl' | exact Hc']. }
    destruct (splitlines s) as [|l0 ls].
    + destruct Hl as [<-|[]]. destruct Hc as [<-|[]]. exact E.
    + destruct Hl as [<-|Hl].
      * destruct Hc as [<-|Hc]; [exact E|]. apply (IHs l0); [left; reflexivity | exact Hc].
      * apply (IHs l); [right; exact Hl | exact Hc].
Qed.

Lemma block_lines_normal (b d : str) :
  In d (block_lines b) ->
  d <> [] /\ strip d = d /\ forall c, In c d -> is_linebreak c = false.
Proof.
  unfold block_lines. intros H. apply in_map_iff in H.
  destruct H as (l & <- & Hl).
  apply list_elem_of_In, list_elem_of_filter in Hl. destruct Hl as [Ht Hl].
  apply list_elem_of_In in Hl.
  split; [|split].
  - intros E. rewrite E in Ht. discriminate Ht.
  - apply strip_idem.
  - intros c Hc. apply strip_in in Hc. eapply splitlines_no_break; eauto.
Qed.

Lemma extract_code_normal (s : str) :
  let r := extract_code_and_dependencies s in
  strip (code r) = code r /\ ~ occurs FENCE (code r).
Proof.
  unfold extract_code_and_dependencies.
  destruct (re_search CODE_OPEN FENCE s) as [[g rest]|] eqn:E; cbn.
  - apply (re_search_Some_iff CODE_OPEN FENCE 96 [96; 96]
             code_open_nonempty fence_head backtick_nonspace) in E.
    destruct E as (a & after & b & H1 & H2 & ->).
    split; [apply strip_idem|].
    rewrite strip_lstrip. intros H. apply occurs_strip in H.
    revert H. apply (first_split_clean FENCE after b rest); [discriminate | exact H2].
  - split; [reflexivity|]. intros (x & y & H). destruct x; discriminate H.
Qed.

Lemma extract_dependencies_normal (s d : str) :
  In d (dependencies (extract_code_and_dependencies s)) ->
  d <> [] /\ strip d = d /\ forall c, In c d -> is_linebreak c = false.
Proof.
  unfold extract_code_and_dependencies.
  destruct (re_search CODE_OPEN FENCE s) as [[g rest]|]; cbn; [|intros []].
  intros Hd. rewrite extend_all_concat in Hd.
  apply in_concat in Hd. destruct Hd as (l & Hl & Hd).
  apply in_map_iff in Hl. destruct Hl as (blk & <- & _).
  eapply block_lines_normal; exact Hd.
Qed.

(** What the parser returns is in normal form, whatever the response: the
    code is trimmed and holds no closing fence, and every dependency is a
    non-empty, trimmed text without a line break; a failure carries empty
    code, no dependency and the error text, a success no error text. *)
Theorem extract_normal_form (s : str) :
  let r := extract_code_and_dependencies s in
  strip (code r) = code r /\
  ~ occurs FENCE (code r) /\
  (forall d, In d (dependencies r) ->
     d <> [] /\ strip d = d /\ forall c, In c d -> is_linebreak c = false) /\
  (success r = false -> code r = [] /\ dependencies r = [] /\ error r = NOT_FOUND) /\
  (success r = true -> error r = []).
Proof.
  cbv zeta. destruct (extract_code_normal s) as [H1 H2].
  split; [exact H1|]. split; [exact H2|].
  split; [apply extract_dependencies_normal|].
  unfold extract_code_and_dependencies.
  destruct (re_search CODE_OPEN FENCE s) as [[g rest]|]; cbn.
  - split; [discriminate | reflexivity].
  - split; [auto | discriminate].
Qed.

(** *** Round trip *)

Lemma occurs_split_at sep (c : N) (x y : str) :
  ~ In c sep -> occurs sep (x ++ c :: y) -> occurs sep x \/ occurs sep y.
Proof.
  intros Hc (a & b & H). symmetry in H.
  apply app_eq_app in H. destruct H as [l [[-> H]|[-> H]]].
  - destruct l as [|c' l].
    + destruct sep as [|s0 sep]; [left; exists x, []; rewrite app_nil_r; reflexivity|].
      injection H as <- _. exfalso. apply Hc. left. reflexivity.
    + injection H as <- ->. right. exists l, b. reflexivity.
  - apply app_eq_app in H. destruct H as [k [[-> H]|[-> H]]].
    + destruct k as [|k0 k].
      * left. exists a, []. rewrite !app_nil_r. reflexivity.
      * injection H as <- _. exfalso. apply Hc. apply in_or_app. right. left. reflexivity.
    + left. exists a, k. reflexivity.
Qed.

Lemma occurs_skip (c0 : N) sep' (x t : str) :
  ~ In c0 x -> occurs (c0 :: sep') (x ++ t) -> occurs (c0 :: sep') t.
Proof.
  intros Hc (a & b & H). symmetry in H.
  apply app_eq_app in H. destruct H as [l [[-> H]|[-> H]]].
  - exists l, b. exact H.
  - destruct l as [|c' l].
    + exists [], b. simpl in H. simpl. congruence.
    + injection H as <- _. exfalso. apply Hc. apply in_or_app. right. left. reflexivity.
Qed.

Lemma occurs_head (c0 : N) sep' (x : str) : occurs (c0 :: sep') x -> In c0 x.
Proof.
  intros (a & b & ->). apply in_or_app. right. left. reflexivity.
Qed.

(** An occurrence that starts before the end of [x] lies in [x], or a
    non-empty end of [x] begins the separator. *)
Lemma early_occurrence sep (x y a' b' : str) :
  x ++ sep ++ y = a' ++ sep ++ b' -> (length a' < length x)%nat ->
  exists l, x = a' ++ l /\ l <> [] /\
            ((exists k, sep = l ++ k) \/ (exists k, l = sep ++ k)).
Proof.
  intros H Hlt. apply app_eq_app in H. destruct H as [l [[-> H]|[-> H]]].
  - exists l. split; [reflexivity|]. split.
    + intros ->. rewrite app_nil_r in Hlt. lia.
    + symmetry in H. apply app_eq_app in H. destruct H as [k [[-> _]|[-> _]]]; eauto.
  - rewrite length_app in Hlt. lia.
Qed.

Lemma first_split_intro sep (x y : str) :
  (forall a' b', x ++ sep ++ y = a' ++ sep ++ b' -> (length a' < length x)%nat -> False) ->
  first_split sep (x ++ sep ++ y) x y.
Proof.
  intros H. split; [reflexivity|]. intros a' b' E.
  destruct (Nat.le_gt_cases (length x) (length a')) as [|Hlt]; [assumption|].
  destruct (H a' b' E Hlt).
Qed.

(** The separator begins with a character that [x] does not hold. *)
Lemma first_split_head_absent (c0 : N) sep' (x y : str) :
  ~ In c0 x -> first_split (c0 :: sep') (x ++ (c0 :: sep') ++ y) x y.
Proof.
  intros Hc. apply first_split_intro. intros a' b' E Hlt.
  destruct (early_occurrence _ _ _ _ _ E Hlt) as (l & -> & Hl & [[k Hk]|[k Hk]]);
    apply Hc, in_or_app; right;
    (destruct l as [|l0 l]; [congruence|]); injection Hk as <- _; left; reflexivity.
Qed.

Lemma suffix_after (c : N) (x1 x2 a l : str) :
  x1 ++ c :: x2 = a ++ l -> ~ In c l -> exists m, x2 = m ++ l.
Proof.
  intros H Hc. apply app_eq_app in H. destruct H as [j [[-> H]|[-> H]]].
  - exfalso. apply Hc. rewrite H. apply in_or_app. right. left. reflexivity.
  - destruct j as [|j0 j].
    + exfalso. apply Hc. simpl in H. rewrite <- H. left. reflexivity.
    + injection H as _ ->. eauto.
Qed.

(** [x] ends with a character foreign to the separator, then text without
    the first character of the separator; before that, no occurrence. *)
Lemma first_split_guard (c0 : N) sep' (c : N) (x1 x2 y : str) :
  ~ In c (c0 :: sep') -> ~ occurs (c0 :: sep') x1 -> ~ In c0 x2 ->
  first_split (c0 :: sep') ((x1 ++ c :: x2) ++ (c0 :: sep') ++ y) (x1 ++ c :: x2) y.
Proof.
  intros Hc Hx1 Hx2. apply first_split_intro. intros a' b' E Hlt.
  destruct (early_occurrence _ _ _ _ _ E Hlt) as (l & Hx & Hl & [[k Hk]|[k Hk]]).
  - destruct l as [|l0 l]; [congruence|]. injection Hk as <- Hk.
    destruct (suffix_after c x1 x2 a' (c0 :: l) Hx) as [m ->].
    + intros Hin. apply Hc. destruct Hin as [<-|Hin]; [left; reflexivity|].
      right. rewrite Hk. apply in_or_app. left. exact Hin.
    + apply Hx2, in_or_app. right. left. reflexivity.
  - subst l.
    destruct (occurs_split_at (c0 :: sep') c x1 x2 Hc) as [H|H].
    + exists a', k. exact Hx.
    + exact (Hx1 H).
    + exact (Hx2 (occurs_head _ _ _ H)).
Qed.

Lemma no_backtick_In (s : str) : no_backtick s = true <-> ~ In 96 s.
Proof.
  unfold no_backtick. rewrite forallb_forall. split.
  - intros H Hin. specialize (H _ Hin). discriminate H.
  - intros H c Hc. destruct (N.eqb_spec c 96) as [->|]; [contradiction | reflexivity].
Qed.

Lemma splitlines_line (d t : str) :
  forallb (fun c => negb (is_linebreak c)) d = true ->
  splitlines (d ++ 10 :: t) = d :: splitlines t.
Proof.
  induction d as [|c d IH]; intros H.
  - cbn [app splitlines]. change (is_linebreak 10) with true. cbn iota.
    destruct t; reflexivity.
  - cbn [forallb] in H. apply andb_prop in H. destruct H as [Hc Hd].
    cbn [app splitlines]. apply negb_true_iff in Hc. rewrite Hc, (IH Hd). reflexivity.
Qed.

Lemma dep_line_parts (d : str) :
  dep_line d = true ->
  truthy (strip d) = true /\ forallb (fun c => negb (is_linebreak c)) d = true /\
  no_backtick d = true.
Proof.
  unfold dep_line. intros H. apply andb_prop in H. destruct H as [H H3].
  apply andb_prop in H. tauto.
Qed.

Lemma block_lines_of (deps : list str) :
  forallb dep_line deps = true ->
  block_lines (lines_of deps ++ [10]) = map strip deps.
Proof.
  intros H. unfold block_lines.
  assert (splitlines (lines_of deps ++ [10]) = deps ++ [[]]) as ->.
  { induction deps as [|d deps IH]; [reflexivity|].
    cbn [forallb] in H. apply andb_prop in H. destruct H as [Hd H].
    unfold lines_of. cbn [map concat]. rewrite <- !app_assoc. cbn [app].
    rewrite splitlines_line by apply (dep_line_parts d Hd).
    f_equal. apply IH, H. }
  induction deps as [|d deps IH].
  - cbn [app]. rewrite filter_cons. destruct (decide _) as [E|E]; [discriminate E | reflexivity].
  - cbn [forallb] in H. apply andb_prop in H. destruct H as [Hd H].
    cbn [app]. rewrite filter_cons.
    destruct (decide (truthy (strip d) = true)) as [E|E].
    + cbn [map]. f_equal. apply IH, H.
    + destruct E. apply (dep_line_parts d Hd).
Qed.

Lemma lines_of_no_backtick (deps : list str) :
  forallb dep_line deps = true -> ~ In 96 (lines_of deps).
Proof.
  induction deps as [|d deps IH]; intros H; [intros []|].
  cbn [forallb] in H. apply andb_prop in H. destruct H as [Hd H].
  unfold lines_of. cbn [map concat]. intros Hin.
  apply in_app_or in Hin. destruct Hin as [Hin|Hin]; [|exact (IH H Hin)].
  apply in_app_or in Hin. destruct Hin as [Hin|[Hin|[]]]; [|discriminate Hin].
  destruct (dep_line_parts d Hd) as (_ & _ & Hb).
  apply no_backtick_In in Hb. exact (Hb Hin).
Qed.

(** Round trip.  A response in the format of the prompts - a code block,
    then after a line feed a dependency block, with text free of back-ticks
    before, between and after them, a body in which the fence does not
    occur, and dependency lines that are not blank and hold neither a line
    break nor a back-tick - parses to a success with the trimmed body as the
    code and the trimmed lines, in their order, as the dependencies. *)
Theorem extract_round_trip (pre body mid : str) (deps : list str) (post : str) :
  no_backtick pre = true -> no_backtick mid = true -> no_backtick post = true ->
  contains FENCE body = false ->
  forallb dep_line deps = true ->
  extract_code_and_dependencies (response_of pre body mid deps post)
  = mk_parsed true (strip body) (map strip deps) [].
Proof.
  intros Hpre Hmid Hpost Hbody Hdeps.
  apply no_backtick_In in Hpre, Hmid, Hpost. apply contains_false in Hbody.
  set (after := [10] ++ body ++ [10] ++ FENCE ++ [10] ++ mid ++
                tagged_block (lit "dependencies") (lines_of deps) ++ post).
  set (rest := [10] ++ mid ++ tagged_block (lit "dependencies") (lines_of deps) ++ post).
  assert (response_of pre body mid deps post = pre ++ CODE_OPEN ++ after) as Es.
  { unfold response_of, tagged_block, after. cbn. rewrite <- !app_assoc. reflexivity. }
  assert (~ occurs FENCE ([10] ++ body)) as Hnb.
  { intros H. apply (occurs_split_at FENCE 10 [] body) in H.
    - destruct H as [(a & b & H)|H]; [destruct a; discriminate H | exact (Hbody H)].
    - cbn. intuition discriminate. }
  assert (re_search CODE_OPEN FENCE (response_of pre body mid deps post)
          = Some (lstrip ([10] ++ body ++ [10]), rest)) as Hcode.
  { apply (re_search_Some_iff CODE_OPEN FENCE 96 [96; 96]
             code_open_nonempty fence_head backtick_nonspace).
    exists pre, after, ([10] ++ body ++ [10]). split; [|split; [|reflexivity]].
    - rewrite Es. apply (first_split_head_absent 96). exact Hpre.
    - pose proof (first_split_guard 96 [96; 96] 10 ([10] ++ body) [] rest) as G.
      rewrite <- !app_assoc in G. apply G; [cbn; intuition discriminate | exact Hnb | intros []]. }
  set (x1 := pre ++ CODE_OPEN ++ [10] ++ body ++ [10] ++ FENCE).
  set (after_d := [10] ++ lines_of deps ++ [10] ++ FENCE ++ post).
  assert (response_of pre body mid deps post = (x1 ++ 10 :: mid) ++ DEPS_OPEN ++ after_d) as Ed.
  { unfold response_of, tagged_block, x1, after_d. cbn. rewrite <- !app_assoc. cbn.
    rewrite <- !app_assoc. reflexivity. }
  assert (~ occurs DEPS_OPEN x1) as Hx1.
  { unfold x1. intros H.
    apply (occurs_skip 96 _ pre) in H; [|exact Hpre].
    change (CODE_OPEN ++ [10] ++ body ++ [10] ++ FENCE)
      with (CODE_OPEN ++ 10 :: (body ++ 10 :: FENCE)) in H.
    apply occurs_split_at in H; [|cbn; intuition discriminate].
    destruct H as [H|H].
    - apply contains_occurs in H. discriminate H.
    - apply occurs_split_at in H; [|cbn; intuition discriminate].
      destruct H as [(a & b & H)|H].
      + apply Hbody. exists a, (skipn 3 DEPS_OPEN ++ b). rewrite H. reflexivity.
      + apply contains_occurs in H. discriminate H. }
  assert (fenced DEPS_OPEN FENCE (response_of pre body mid deps post)
            [[10] ++ lines_of deps ++ [10]]) as Hf.
  { apply (fenced_block DEPS_OPEN FENCE _ (x1 ++ 10 :: mid) after_d _ post []).
    - rewrite Ed. apply (first_split_guard 96 _ 10 x1 mid);
        [cbn; intuition discriminate | exact Hx1 | exact Hmid].
    - pose proof (first_split_head_absent 96 [96; 96]
                    ([10] ++ lines_of deps ++ [10]) post) as G.
      rewrite <- !app_assoc in G. apply G.
      intros Hin. cbn [app] in Hin. destruct Hin as [Hin|Hin]; [discriminate Hin|].
      apply in_app_or in Hin. destruct Hin as [Hin|[Hin|[]]]; [|discriminate Hin].
      exact (lines_of_no_backtick deps Hdeps Hin).
    - apply fenced_none. intros a b c E. apply Hpost. rewrite E.
      apply in_or_app. right. left. reflexivity. }
  unfold extract_code_and_dependencies. rewrite Hcode.
  rewrite (re_findall_fenced DEPS_OPEN FENCE 96 [96; 96]
             deps_open_nonempty fence_head backtick_nonspace _ _ Hf).
  rewrite extend_all_lstrip. cbn [map concat]. rewrite app_nil_r.
  f_equal.
  - rewrite strip_lstrip. cbn [app].
    rewrite strip_cons_space by reflexivity.
    apply strip_snoc_space. reflexivity.
  - cbn [app]. rewrite block_lines_space by reflexivity.
    apply block_lines_of, Hdeps.
Qed.

Lemma extract_round_trip_witness :
  extract_code_and_dependencies
    (response_of (lit "Here is the program.") (lit "import numpy" ++ [10] ++ lit "print(1)")
       (lit "It needs:" ++ [10]) [lit "numpy>=1.24"; lit " pandas "] (lit " Done."))
  = mk_parsed true (lit "import numpy" ++ [10] ++ lit "print(1)")
      [lit "numpy>=1.24"; lit "pandas"] [].
Proof.
  apply (extract_round_trip (lit "Here is the program.")
           (lit "import numpy" ++ [10] ++ lit "print(1)")
           (lit "It needs:" ++ [10]) [lit "numpy>=1.24"; lit " pandas "] (lit " Done."));
    reflexivity.
Defined.

End ParserMore.

(** ** The generator call and its fall-back *)

Module LlmSpec.
Import PyFacts Llm.

Section Providers.
Context (proxy direct : nat -> str -> reply).

Lemma call_direct_state prompt st :
  (call_direct direct prompt st).2 =
  mk_state (use_direct_openrouter st) (proxy_calls st) (S (direct_calls st)).
Proof.
  unfold call_direct. destruct (direct (direct_calls st) prompt); reflexivity.
Qed.

(** The three ways a call can go. *)
Lemma call_cases prompt st :
  let st' := (call_llm_with_fallback proxy direct prompt st).2 in
  (use_direct_openrouter st = true /\
     st' = mk_state true (proxy_calls st) (S (direct_calls st))) \/
  (use_direct_openrouter st = false /\
     st' = mk_state false (S (proxy_calls st)) (direct_calls st) /\
     exists text, proxy (proxy_calls st) prompt = Answers (Some text) /\
                  suspicious (Some text) = false /\
                  (call_llm_with_fallback proxy direct prompt st).1 = Some text) \/
  (use_direct_openrouter st = false /\
     st' = mk_state true (S (proxy_calls st)) (S (direct_calls st))).
Proof.
  unfold call_llm_with_fallback.
  destruct (use_direct_openrouter st) eqn:F; cbn [negb].
  - left. rewrite call_direct_state, F. auto.
  - right. destruct (proxy (proxy_calls st) prompt) as [e|response] eqn:P.
    + right. rewrite call_direct_state. auto.
    + destruct (suspicious response) eqn:S.
      * right. rewrite call_direct_state. auto.
      * left. split; [reflexivity|]. split; [reflexivity|].
        destruct response as [text|]; [|discriminate S].
        exists text. auto.
Qed.

(** The switch is permanent.  From a state in which the flag is set, a
    sequence of calls never reaches the proxy: the flag stays set, the number
    of proxy calls does not move, and each prompt costs one direct call. *)
Theorem fallback_is_permanent prompts st :
  use_direct_openrouter st = true ->
  let st' := (call_all proxy direct prompts st).2 in
  use_direct_openrouter st' = true /\
  proxy_calls st' = proxy_calls st /\
  direct_calls st' = (direct_calls st + length prompts)%nat.
Proof.
  revert st. induction prompts as [|p ps IH]; intros st F; cbn [call_all].
  - cbn. auto with lia.
  - destruct (call_cases p st) as [[_ H]|[[F' _]|[F' _]]]; try congruence.
    destruct (call_llm_with_fallback proxy direct p st) as [answer st1].
    cbn [snd] in H. subst st1.
    specialize (IH (mk_state true (proxy_calls st) (S (direct_calls st))) eq_refl).
    destruct (call_all proxy direct ps _) as [answers st2]. cbn [snd] in *.
    destruct IH as (H1 & H2 & H3). cbn in H2, H3. cbn [length]. repeat split; [exact H1 | exact H2 | lia].
Qed.

(** In any sequence of calls, from any state: there is one answer per
    prompt; a flag that is set stays set; the counters only grow; and every
    prompt goes to exactly one provider, except the one prompt at which the
    flag is switched, which goes to both - so the calls made to the two
    providers are as many as the prompts, plus one if the flag was switched
    during the sequence. *)
Theorem call_all_accounting prompts st :
  let r := call_all proxy direct prompts st in
  length r.1 = length prompts /\
  (use_direct_openrouter st = true -> use_direct_openrouter r.2 = true) /\
  (proxy_calls st <= proxy_calls r.2)%nat /\
  (direct_calls st <= direct_calls r.2)%nat /\
  ((proxy_calls r.2 - proxy_calls st) + (direct_calls r.2 - direct_calls st)
   = length prompts + (if switched st r.2 then 1 else 0))%nat.
Proof.
  revert st. induction prompts as [|p ps IH]; intros st; cbn [call_all].
  - cbn. unfold switched. destruct (use_direct_openrouter st); cbn; repeat split; auto with lia.
  - pose proof (call_cases p st) as C. cbv zeta in C.
    destruct (call_llm_with_fallback proxy direct p st) as [answer st1].
    cbn [snd fst] in C. specialize (IH st1). cbv zeta in IH.
    destruct (call_all proxy direct ps st1) as [answers st2].
    cbn [fst snd length] in *.
    destruct IH as (L & M & P & D & A). unfold switched in *.
    destruct C as [[F ->]|[(F & -> & _)|[F ->]]]; cbn in *; rewrite F in *; cbn in *.
    + rewrite (M eq_refl) in *. cbn in *. repeat split; auto with lia.
    + destruct (use_direct_openrouter st2); cbn in *; repeat split; auto with lia; congruence.
    + rewrite (M eq_refl) in *. cbn in *. repeat split; auto with lia; congruence.
Qed.

(** An answer returned while the flag is still unset is the answer of the
    proxy to this call, is not empty and does not hold the text "Unexpected
    response"; the direct provider was not called. *)
Theorem proxy_answer_is_sound prompt st :
  use_direct_openrouter (call_llm_with_fallback proxy direct prompt st).2 = false ->
  exists text,
    (call_llm_with_fallback proxy direct prompt st).1 = Some text /\
    proxy (proxy_calls st) prompt = Answers (Some text) /\
    text <> [] /\ ~ occurs UNEXPECTED text /\
    (call_llm_with_fallback proxy direct prompt st).2
      = mk_state false (S (proxy_calls st)) (direct_calls st).
Proof.
  intros F.
  destruct (call_cases prompt st) as [[_ H]|[(_ & H & text & P & S & A)|[_ H]]];
    cbv zeta in H; try (rewrite H in F; discriminate F).
  exists text. split; [exact A|]. split; [exact P|].
  unfold suspicious in S. apply orb_false_elim in S. destruct S as [S1 S2].
  split; [intros ->; discriminate S1|]. split; [apply contains_false, S2 | exact H].
Qed.

End Providers.

Lemma fallback_is_permanent_witness :
  let st' := (call_all flaky_proxy echo_direct [lit "a"; lit "b"]
                (mk_state true 2 0)).2 in
  use_direct_openrouter st' = true /\ proxy_calls st' = 2%nat /\ direct_calls st' = 2%nat.
Proof.
  exact (fallback_is_permanent flaky_proxy echo_direct [lit "a"; lit "b"]
           (mk_state true 2 0) eq_refl).
Defined.

Lemma proxy_answer_is_sound_witness :
  exists text,
    (call_llm_with_fallback flaky_proxy echo_direct (lit "a") (mk_state false 0 0)).1
      = Some text /\
    flaky_proxy 0 (lit "a") = Answers (Some text) /\
    text <> [] /\ ~ occurs UNEXPECTED text /\
    (call_llm_with_fallback flaky_proxy echo_direct (lit "a") (mk_state false 0 0)).2
      = mk_state false 1 0.
Proof.
  exact (proxy_answer_is_sound flaky_proxy echo_direct (lit "a") (mk_state false 0 0)
           eq_refl).
Defined.

(** The proxy fails at the second of three prompts: that prompt goes to both
    providers, and the third goes to the direct provider alone. *)
Example call_all_switch :
  call_all flaky_proxy echo_direct [lit "a"; lit "b"; lit "c"] (mk_state false 0 0)
  = ([Some (lit "fine"); Some (lit "b"); Some (lit "c")], mk_state true 2 2).
Proof. reflexivity. Qed.

End LlmSpec.

(** ** The handlers *)

Module HandlerSpec.
Import PyFacts StripFacts Depend Exec Classify Handlers DependFacts ExecSpec
       Termination ParserSpec ExecMore DependMore ManageSpec ParserMore.

Lemma within_refl l e p w : within l e p w w.
Proof. unfold within. lia. Qed.

Lemma within_trans l1 e1 p1 l2 e2 p2 l e p w1 w2 w3 :
  within l1 e1 p1 w1 w2 -> within l2 e2 p2 w2 w3 ->
  (l1 + l2 <= l)%nat -> (e1 + e2 <= e)%nat -> (p1 + p2 <= p)%nat ->
  within l e p w1 w3.
Proof. unfold within. lia. Qed.

Lemma within_weaken l e p l' e' p' w w' :
  within l e p w w' -> (l <= l')%nat -> (e <= e')%nat -> (p <= p')%nat ->
  within l' e' p' w w'.
Proof. unfold within. lia. Qed.

Lemma load_world file w r w' : load_prompt_template file w = (r, w') -> w' = w.
Proof.
  unfold load_prompt_template, bind, get_files, raise, ret.
  destruct (files w !! file) as [f|]; [|congruence].
  destruct (read_fault f) as [e|]; [|congruence].
  destruct (exn_class_of e); congruence.
Qed.

Lemma format_world template args w r w' : format template args w = (r, w') -> w' = w.
Proof. unfold format. destruct (py_format w template args); congruence. Qed.

Lemma load_format_world file args w r w' :
  (template <- load_prompt_template file ;; format template args) w = (r, w') -> w' = w.
Proof.
  unfold bind. destruct (load_prompt_template file w) as [[t|e|] w0] eqn:L;
    apply load_world in L; subst w0; [apply format_world | congruence | congruence].
Qed.

Lemma generate_prompt_world q t code err w r w' :
  generate_prompt q t code err w = (r, w') -> w' = w.
Proof.
  unfold generate_prompt. destruct (blank q); [unfold raise; congruence|].
  destruct t; [apply load_format_world|].
  destruct (blank code); [unfold raise; congruence|].
  destruct (blank err); [unfold raise; congruence|].
  apply load_format_world.
Qed.

Lemma generate_plain_prompt_world q t w r w' :
  generate_plain_prompt q t w = (r, w') -> w' = w.
Proof.
  unfold generate_plain_prompt. destruct (blank q); [unfold raise; congruence|].
  apply load_format_world.
Qed.

Lemma generate_prompt_not_blank q t code err w p w' :
  generate_prompt q t code err w = (Ret p, w') -> blank q = false.
Proof.
  unfold generate_prompt. destruct (blank q); [discriminate | reflexivity].
Qed.

Lemma blank_strip (s : str) : blank (strip s) = blank s.
Proof.
  unfold blank. rewrite strip_idem.
  destruct s as [|c s]; [reflexivity|]. cbn [truthy negb orb].
  destruct (strip (c :: s)); reflexivity.
Qed.

(** White space around the question, the code and the error text changes
    nothing: [generate_prompt] accepts or refuses the trimmed texts as it
    does the given ones, with the same exception, and builds the same
    prompt. *)
Theorem generate_prompt_trims q t code err w :
  generate_prompt (strip q) t (strip code) (strip err) w
  = generate_prompt q t code err w.
Proof.
  unfold generate_prompt. rewrite !blank_strip, !strip_idem. reflexivity.
Qed.

Lemma execute_world code timeout w :
  exists r fs, execute code timeout w =
    (Ret r, mk_world fs (append_fault w) (append_write_fault w) (py_format w)
              (llm w) (llm_calls w) (pips w) (pip_calls w) (execs w)
              (S (exec_calls w)) (exec_log w ++ [(success r, output r)])) /\
    execute_python_code code timeout true (execs w (exec_calls w)) (files w) = (Ret r, fs).
Proof.
  unfold execute.
  destruct (execute_python_code_returns code timeout true
              (execs w (exec_calls w)) (files w)) as (r & fs & E).
  exists r, fs. rewrite E. auto.
Qed.

Section WithLower.
Context (lower : str -> str).

Lemma manage_within deps file install upgrade w :
  within 0 0 1 w (manage_dependencies lower deps file install upgrade w).2.
Proof.
  unfold manage_dependencies. unfold bind at 1.
  destruct (find_missing_dependencies lower deps file w) as [[missing|e|] w0] eqn:Hf;
    apply find_missing_world in Hf; subst w0; cbn [snd]; try apply within_refl.
  destruct missing as [|m ms]; [apply within_refl|].
  unfold bind.
  destruct (append_to_requirements (m :: ms) file w) as [[ok|e|] w1] eqn:Ha;
    pose proof (append_world _ _ _ _ _ Ha) as Hw; cbn [snd].
  - destruct ok; cbn [negb].
    + destruct install.
      * rewrite install_packages_run. rewrite Hw. unfold within. cbn. lia.
      * rewrite Hw. unfold within. cbn. lia.
    + rewrite Hw. unfold within. cbn. lia.
  - rewrite Hw. unfold within. cbn. lia.
  - rewrite Hw. unfold within. cbn. lia.
Qed.

(** One round of [retry] costs at most one call of each kind. *)
Lemma retry_within fuel q code err trial max_trials w :
  within (Z.to_nat (Z.max max_trials DEFAULT_MAX_TRIALS - trial))
         (Z.to_nat (Z.max max_trials DEFAULT_MAX_TRIALS - trial))
         (Z.to_nat (Z.max max_trials DEFAULT_MAX_TRIALS - trial))
         w (retry lower fuel q code err trial max_trials w).2.
Proof.
  revert code err trial max_trials w.
  induction fuel as [|fuel IH]; intros code err trial max_trials w; cbn [retry].
  - apply within_refl.
  - destruct (trial >=? max_trials)%Z eqn:E; [apply within_refl|].
    unfold bind at 1.
    destruct (generate_prompt q PromptRetry code err w) as [[prompt|e|] w0] eqn:G;
      apply generate_prompt_world in G; subst w0; cbn [snd]; try apply within_refl.
    unfold bind at 1. unfold call_llm_code at 1.
    set (w1 := mk_world (files w) (append_fault w) (append_write_fault w)
                 (py_format w) (llm w) (S (llm_calls w)) (pips w) (pip_calls w)
                 (execs w) (exec_calls w) (exec_log w)).
    assert (within 1 0 0 w w1) as H1 by (unfold within; cbn; lia).
    assert (1 <= Z.to_nat (Z.max max_trials DEFAULT_MAX_TRIALS - trial))%nat as Hn
      by (unfold DEFAULT_MAX_TRIALS; lia).
    destruct (negb (PromptUtil.success _)).
    { apply (within_weaken _ _ _ _ _ _ _ _ H1); lia. }
    unfold bind at 1.
    pose proof (manage_within
                  (PromptUtil.dependencies
                     (PromptUtil.extract_code_and_dependencies
                        (llm w (llm_calls w) prompt)))
                  REQUIREMENTS_TXT true false w1) as H2.
    destruct (manage_dependencies lower _ REQUIREMENTS_TXT true false w1)
      as [[ok|e|] w2]; cbn [snd] in H2 |- *;
      try (eapply within_trans; [exact H1 | exact H2 | lia | lia | lia]).
    unfold bind at 1.
    destruct (execute_world
                (PromptUtil.code (PromptUtil.extract_code_and_dependencies
                                    (llm w (llm_calls w) prompt)))
                DEFAULT_TIMEOUT w2) as (r & fs & -> & _).
    set (w3 := mk_world fs _ _ _ _ _ _ _ _ _ _).
    assert (within 0 1 0 w2 w3) as H3 by (unfold within, w3; cbn; lia).
    assert (within 1 1 1 w w3) as H13.
    { eapply within_trans; [exact H1|
        eapply (within_trans 0 0 1 0 1 0 0 1 1); [exact H2 | exact H3 | lia | lia | lia]
        | lia | lia | lia]. }
    destruct (success r).
    + cbn [snd]. apply (within_weaken _ _ _ _ _ _ _ _ H13); lia.
    + eapply within_trans; [exact H13 | apply IH | | | ];
        unfold DEFAULT_MAX_TRIALS in *; lia.
Qed.

(** [handle_execute_code_class] is bounded.  It ends - it returns or raises
    - whatever the generator, the files, the package manager and the runs do,
    and by then it has called the generator at most 5 times, run generated
    code at most 5 times and run the package manager at most 5 times: the
    first attempt and the trials 2 to 5 of [retry]. *)
Theorem handle_execute_code_class_bounded fuel q w :
  (5 <= fuel)%nat ->
  (handle_execute_code_class lower fuel q w).1 <> Unfinished /\
  within 5 5 5 w (handle_execute_code_class lower fuel q w).2.
Proof.
  intros Hfuel. split.
  - revert w. change (finishes (handle_execute_code_class lower fuel q)).
    unfold handle_execute_code_class.
    apply finishes_bind; [apply finishes_generate_prompt|]. intros prompt.
    apply finishes_bind; [apply finishes_call_llm|]. intros response.
    destruct (negb _); [apply finishes_ret|].
    apply finishes_bind; [apply finishes_manage|]. intros _.
    apply finishes_bind; [apply finishes_execute|]. intros result.
    destruct (negb (success result)); [|apply finishes_ret].
    destruct (error_type result); [|apply finishes_raise].
    apply finishes_bind; [|intros; apply finishes_ret].
    apply retry_finishes. unfold DEFAULT_MAX_TRIALS. lia.
  - unfold handle_execute_code_class. unfold bind at 1.
    destruct (generate_prompt q PromptCode [] [] w) as [[prompt|e|] w0] eqn:G;
      apply generate_prompt_world in G; subst w0; cbn [snd]; try apply within_refl.
    unfold bind at 1. unfold call_llm_code at 1.
    set (w1 := mk_world (files w) (append_fault w) (append_write_fault w)
                 (py_format w) (llm w) (S (llm_calls w)) (pips w) (pip_calls w)
                 (execs w) (exec_calls w) (exec_log w)).
    assert (within 1 0 0 w w1) as H1 by (unfold within; cbn; lia).
    destruct (negb (PromptUtil.success _)).
    { apply (within_weaken _ _ _ _ _ _ _ _ H1); lia. }
    unfold bind at 1.
    pose proof (manage_within
                  (PromptUtil.dependencies
                     (PromptUtil.extract_code_and_dependencies
                        (llm w (llm_calls w) prompt)))
                  REQUIREMENTS_TXT true false w1) as H2.
    destruct (manage_dependencies lower _ REQUIREMENTS_TXT true false w1)
      as [[ok|e|] w2]; cbn [snd] in H2 |- *;
      try (eapply within_trans; [exact H1 | exact H2 | lia | lia | lia]).
    unfold bind at 1.
    destruct (execute_world
                (PromptUtil.code (PromptUtil.extract_code_and_dependencies
                                    (llm w (llm_calls w) prompt)))
                (PList (PromptUtil.dependencies
                          (PromptUtil.extract_code_and_dependencies
                             (llm w (llm_calls w) prompt)))) w2) as (r & fs & -> & _).
    set (w3 := mk_world fs _ _ _ _ _ _ _ _ _ _).
    assert (within 0 1 0 w2 w3) as H3 by (unfold within, w3; cbn; lia).
    assert (within 1 1 1 w w3) as H13.
    { eapply within_trans; [exact H1|
        eapply (within_trans 0 0 1 0 1 0 0 1 1); [exact H2 | exact H3 | lia | lia | lia]
        | lia | lia | lia]. }
    destruct (negb (success r)).
    2:{ cbn [snd]. apply (within_weaken _ _ _ _ _ _ _ _ H13); lia. }
    destruct (error_type r) as [kind|].
    2:{ cbn [snd]. apply (within_weaken _ _ _ _ _ _ _ _ H13); lia. }
    unfold bind.
    pose proof (retry_within fuel q
                  (PromptUtil.code (PromptUtil.extract_code_and_dependencies
                                      (llm w (llm_calls w) prompt)))
                  (kind ++ error r) 2 DEFAULT_MAX_TRIALS w3) as H4.
    change (Z.to_nat (Z.max DEFAULT_MAX_TRIALS DEFAULT_MAX_TRIALS - 2)) with 4%nat in H4.
    destruct (retry lower fuel q _ (kind ++ error r) 2 DEFAULT_MAX_TRIALS w3)
      as [[a|e|] w4]; cbn [snd] in H4 |- *;
      (eapply within_trans; [exact H13 | exact H4 | lia | lia | lia]).
Qed.

(** An empty code block.  When the first answer of the generator parses to
    empty code and the dependency step returns, the executor rejects the code
    without running anything, and the retry that follows cannot build its
    prompt: [handle_execute_code_class] raises [ValueError] ("code parameter
    is required for retry prompt").  The generator has been called once, and
    the files are as the dependency step left them. *)
Theorem handle_execute_code_class_empty_code fuel q w prompt ok w2 :
  generate_prompt q PromptCode [] [] w = (Ret prompt, w) ->
  let result :=
    PromptUtil.extract_code_and_dependencies (llm w (llm_calls w) prompt) in
  PromptUtil.success result = true ->
  PromptUtil.code result = [] ->
  manage_dependencies lower (PromptUtil.dependencies result) REQUIREMENTS_TXT
    true false (count_llm w (S (llm_calls w))) = (Ret ok, w2) ->
  let out := handle_execute_code_class lower (S fuel) q w in
  out.1 = Raise (mk_exn ValueError CODE_REQUIRED) /\
  files out.2 = files w2 /\
  llm_calls out.2 = S (llm_calls w).
Proof.
  intros G result Hs Hc Hm out. subst out.
  pose proof (generate_prompt_not_blank _ _ _ _ _ _ _ G) as Hq.
  pose proof (manage_within (PromptUtil.dependencies result) REQUIREMENTS_TXT
                true false (count_llm w (S (llm_calls w)))) as Hw.
  rewrite Hm in Hw. cbn [snd] in Hw.
  assert (handle_execute_code_class lower (S fuel) q w
          = (Raise (mk_exn ValueError CODE_REQUIRED),
             mk_world (files w2) (append_fault w2) (append_write_fault w2)
               (py_format w2) (llm w2) (llm_calls w2) (pips w2) (pip_calls w2)
               (execs w2) (S (exec_calls w2))
               (exec_log w2 ++ [(false, [])]))) as ->.
  { unfold handle_execute_code_class.
    unfold bind at 1. rewrite G. unfold bind at 1. unfold call_llm_code at 1.
    fold (count_llm w (S (llm_calls w))). fold result.
    rewrite Hs. cbn [negb]. unfold bind at 1. rewrite Hm.
    unfold bind at 1. unfold execute at 1. rewrite Hc.
    unfold execute_python_code at 1. cbn [strip lstrip rstrip rev truthy negb app].
    cbn [success error_type initial_result set_error negb].
    cbn [retry]. change (2 >=? DEFAULT_MAX_TRIALS)%Z with false. cbn iota.
    unfold bind. unfold generate_prompt. rewrite Hq.
    change (blank []) with true. reflexivity. }
  destruct Hw as (Hl & _ & _). cbn in Hl. cbn. split; [reflexivity|].
  split; [reflexivity | lia].
Qed.


End WithLower.



Lemma plain_handler_cases (t : plain_prompt_type) q w :
  let h := (prompt <- generate_plain_prompt q t ;;
            response <- call_llm_code prompt ;;
            ret (answer_of response)) in
  (blank q = true -> h w = (Raise (mk_exn ValueError QUESTION_EMPTY), w)) /\
  (forall a w', h w = (Ret a, w') ->
     w' = count_llm w (S (llm_calls w)) /\
     strip a = a /\
     exists prompt,
       generate_plain_prompt q t w = (Ret prompt, w) /\
       (llm w (llm_calls w) prompt = [] -> a = NO_RESPONSE) /\
       (llm w (llm_calls w) prompt <> [] -> a = strip (llm w (llm_calls w) prompt))).
Proof.
  cbv zeta. split.
  - intros Hq. unfold bind, generate_plain_prompt. rewrite Hq. reflexivity.
  - intros a w'. unfold bind at 1.
    destruct (generate_plain_prompt q t w) as [[prompt|e|] w0] eqn:G;
      [|discriminate|discriminate].
    apply generate_plain_prompt_world in G as Hw. subst w0.
    unfold bind, call_llm_code, ret. fold (count_llm w (S (llm_calls w))).
    intros [= <- <-]. split; [reflexivity|].
    unfold answer_of. split.
    + destruct (llm w (llm_calls w) prompt); cbn [truthy]; [reflexivity | apply strip_idem].
    + exists prompt. split; [reflexivity|].
      destruct (llm w (llm_calls w) prompt); cbn [truthy]; split; congruence.
Qed.

(** [simple_llm], [static_answer] and [query_only].  A blank question is
    refused with [ValueError] before anything is read or called.  When one of
    them returns, the prompt was built from the template of its prompt type,
    the generator has been called once, with that prompt, and nothing else
    has changed; the answer is trimmed; it is "No response from LLM" when the
    generator gave the empty text, and otherwise the trimmed response of the
    generator - so a response of white space alone gives the empty answer,
    not that text. *)
Theorem plain_handlers_answer t h q w :
  In (t, h) plain_handlers ->
  (blank q = true -> h q w = (Raise (mk_exn ValueError QUESTION_EMPTY), w)) /\
  (forall a w', h q w = (Ret a, w') ->
     w' = count_llm w (S (llm_calls w)) /\
     strip a = a /\
     exists prompt,
       generate_plain_prompt q t w = (Ret prompt, w) /\
       (llm w (llm_calls w) prompt = [] -> a = NO_RESPONSE) /\
       (llm w (llm_calls w) prompt <> [] -> a = strip (llm w (llm_calls w) prompt)) /\
       (llm w (llm_calls w) prompt <> [] ->
        forallb isspace (llm w (llm_calls w) prompt) = true -> a = [])).
Proof.
  intros Hh.
  assert (h q w = (prompt <- generate_plain_prompt q t ;;
                   response <- call_llm_code prompt ;;
                   ret (answer_of response)) w) as Ht.
  { destruct Hh as [[= <- <-]|[[= <- <-]|[[= <- <-]|[]]]]; reflexivity. }
  rewrite Ht. destruct (plain_handler_cases t q w) as [H1 H2]. cbv zeta in H1, H2.
  split; [exact H1|]. intros a w' E.
  destruct (H2 a w' E) as (Hw & Hs & prompt & Hp & Hn & Hr).
  split; [exact Hw|]. split; [exact Hs|].
  exists prompt. split; [exact Hp|]. split; [exact Hn|]. split; [exact Hr|].
  intros Hne Hsp. rewrite (Hr Hne).
  clear -Hsp. induction (llm w (llm_calls w) prompt) as [|c s IH]; [reflexivity|].
  cbn [forallb] in Hsp. apply andb_prop in Hsp. destruct Hsp as [Hc Hsp].
  rewrite strip_cons_space by exact Hc. apply IH, Hsp.
Qed.

Section Classifier.
Context (call_grok : str -> world -> exn + option str).

(** [classify].  It changes nothing.  A class it returns is trimmed, and is
    the trimmed text the classifier gave, which was not empty (white space
    alone is enough: the class is then the empty text).  When the classifier
    gives [None] or the empty text, [classify] raises [ValueError] with the
    question in its message; a blank question is refused before the
    classifier is called. *)
Theorem classify_class q w :
  (classify call_grok q w).2 = w /\
  (blank q = true ->
     classify call_grok q w = (Raise (mk_exn ValueError QUESTION_EMPTY), w)) /\
  (forall c w', classify call_grok q w = (Ret c, w') ->
     strip c = c /\
     exists prompt text,
       generate_plain_prompt q PromptClassify w = (Ret prompt, w) /\
       call_grok prompt w = inr (Some text) /\ text <> [] /\ c = strip text) /\
  (forall prompt,
     generate_plain_prompt q PromptClassify w = (Ret prompt, w) ->
     call_grok prompt w = inr None \/ call_grok prompt w = inr (Some []) ->
     classify call_grok q w = (Raise (mk_exn ValueError (ERROR_CLASSIFYING ++ q)), w)).
Proof.
  unfold classify. unfold bind.
  destruct (generate_plain_prompt q PromptClassify w) as [[prompt|e|] w0] eqn:G;
    pose proof (generate_plain_prompt_world _ _ _ _ _ G); subst w0.
  - split; [|split; [|split]].
    + destruct (call_grok prompt w) as [e|[text|]]; [reflexivity| |reflexivity].
      destruct (truthy text); reflexivity.
    + intros Hq. unfold generate_plain_prompt in G. rewrite Hq in G. discriminate G.
    + intros c w'.
      destruct (call_grok prompt w) as [e|[text|]] eqn:C; [discriminate| |discriminate].
      destruct text as [|x text]; cbn [truthy]; [discriminate|].
      intros [= <- <-]. split; [apply strip_idem|].
      exists prompt, (x :: text).
      split; [reflexivity|]. split; [exact C|]. split; [discriminate | reflexivity].
    + intros p [= <-] [H|H]; rewrite H; reflexivity.
  - split; [reflexivity|]. split; [|split].
    + intros Hq. unfold generate_plain_prompt in G. rewrite Hq in G.
      unfold raise in G. congruence.
    + intros c w' H. discriminate H.
    + intros p H. discriminate H.
  - exfalso. unfold generate_plain_prompt in G.
    destruct (blank q); [discriminate G|].
    unfold bind in G.
    pose proof (finishes_load (template_path PromptClassify) w) as F.
    destruct (load_prompt_template (template_path PromptClassify) w) as [[t|e|] w0];
      [|discriminate G|apply F; reflexivity].
    apply (finishes_format t [(K_QUESTION, strip q)] w0). rewrite G. reflexivity.
Qed.

End Classifier.

Lemma handle_execute_code_class_bounded_witness :
  (handle_execute_code_class lower_ascii 5 (lit "What is 1/0?")
     (example_world templates
        (fun _ => tagged_block (lit "code") (lit "print(1/0)"))
        (fun _ => failing_run))).1 <> Unfinished /\
  within 5 5 5
    (example_world templates
        (fun _ => tagged_block (lit "code") (lit "print(1/0)"))
        (fun _ => failing_run))
    (handle_execute_code_class lower_ascii 5 (lit "What is 1/0?")
       (example_world templates
          (fun _ => tagged_block (lit "code") (lit "print(1/0)"))
          (fun _ => failing_run))).2.
Proof.
  apply (handle_execute_code_class_bounded lower_ascii 5). lia.
Defined.

Lemma handle_execute_code_class_empty_code_witness :
  let w := example_world templates (fun _ => EMPTY_BLOCK) (fun _ => failing_run) in
  (handle_execute_code_class lower_ascii 1 (lit "What is 1+1?") w).1
  = Raise (mk_exn ValueError CODE_REQUIRED).
Proof.
  intros w.
  assert (generate_prompt (lit "What is 1+1?") PromptCode [] [] w
          = (Ret (lit "Task: {question}"), w)) as G by (vm_compute; reflexivity).
  assert (manage_dependencies lower_ascii
            (PromptUtil.dependencies
               (PromptUtil.extract_code_and_dependencies
                  (llm w (llm_calls w) (lit "Task: {question}"))))
            REQUIREMENTS_TXT true false (count_llm w (S (llm_calls w)))
          = (Ret true, count_llm w (S (llm_calls w)))) as Hm by (vm_compute; reflexivity).
  exact (proj1 (handle_execute_code_class_empty_code lower_ascii 0 (lit "What is 1+1?")
                  w (lit "Task: {question}") true (count_llm w (S (llm_calls w)))
                  G eq_refl eq_refl Hm)).
Defined.


Lemma plain_handlers_answer_witness :
  let w := example_world {[ SIMPLE_TXT := Text (lit "{question}") ]}
             (fun _ => lit "  Hi. ") (fun _ => failing_run) in
  simple_llm (lit "Hello?") w = (Ret (lit "Hi."), count_llm w 1) /\
  exists prompt,
    generate_plain_prompt (lit "Hello?") PromptSimpleLlm w = (Ret prompt, w) /\
    (llm w (llm_calls w) prompt <> [] ->
     lit "Hi." = strip (llm w (llm_calls w) prompt)).
Proof.
  intros w.
  assert (simple_llm (lit "Hello?") w = (Ret (lit "Hi."), count_llm w 1)) as E
    by (vm_compute; reflexivity).
  split; [exact E|].
  destruct (proj2 (plain_handlers_answer PromptSimpleLlm simple_llm (lit "Hello?") w
                     (or_introl eq_refl)) (lit "Hi.") (count_llm w 1) E)
    as (_ & _ & prompt & Hp & _ & Hr & _).
  exists prompt. split; [exact Hp | exact Hr].
Defined.

End HandlerSpec.

(** ** The orchestrator returns the first successful output *)

Module OrchestratorSpec.
Import PyFacts StripFacts Depend Exec Classify DependFacts ExecSpec
       DependMore ManageSpec HandlerSpec.

Lemma stops_nil {A} (returned : res A) value : stops_at_success [] returned value.
Proof. intros before text after H. destruct before; discriminate H. Qed.

Lemma stops_success {A} text (value : str -> A) :
  stops_at_success [(true, text)] (Ret (value text)) value.
Proof.
  intros before t after H. destruct before as [|x before].
  - injection H as <- <-. auto.
  - injection H as _ H. destruct before; discriminate H.
Qed.

Lemma stops_failure {A} out attempts (returned : res A) value :
  stops_at_success attempts returned value ->
  stops_at_success ((false, out) :: attempts) returned value.
Proof.
  intros H before text after E. destruct before as [|x before].
  - discriminate E.
  - injection E as _ E. exact (H before text after E).
Qed.

(** With a list as its time limit the executor reports a failure. *)
Lemma execute_list_timeout code l capture env fs r fs' :
  execute_python_code code (PList l) capture env fs = (Ret r, fs') ->
  success r = false.
Proof.
  destruct (truthy (strip code)) eqn:Hcode.
  2:{ unfold execute_python_code. rewrite Hcode. cbn [negb].
      intros [= <- _]. reflexivity. }
  rewrite (execute_unfold _ _ _ _ _ Hcode). cbv zeta. intros [= <- _].
  set (sp := spawn code (PList l) env fs).
  set (r0 := match sp.1.2 with
             | Exited rc out err => classify_exit capture env rc out err
             | Raised e => handle_exception (PList l) env e
             end).
  destruct (cleanup_fields sp.1.1 env r0 sp.2) as (Hs & _).
  rewrite Hs. unfold r0, sp, spawn.
  destruct (create_fault env) as [e|];
    [unfold handle_exception; cbn; destruct (exn_class_of e); reflexivity|].
  destruct (write_fault env) as [e|];
    [unfold handle_exception; cbn; destruct (exn_class_of e); reflexivity|].
  destruct (encodable code); [|reflexivity].
  unfold subprocess_run.
  destruct (run env) as [rc out err|e]; [reflexivity|].
  destruct (exn_class_of e) eqn:C; cbn; unfold handle_exception; cbn;
    try rewrite C; reflexivity.
Qed.

Section WithLower.
Context (lower : str -> str).

Lemma manage_log deps file install upgrade w :
  exec_log (manage_dependencies lower deps file install upgrade w).2 = exec_log w.
Proof.
  unfold manage_dependencies. unfold bind at 1.
  destruct (find_missing_dependencies lower deps file w) as [[missing|e|] w0] eqn:Hf;
    apply find_missing_world in Hf; subst w0; cbn [snd]; try reflexivity.
  destruct missing as [|m ms]; [reflexivity|].
  unfold bind.
  destruct (append_to_requirements (m :: ms) file w) as [[ok|e|] w1] eqn:Ha;
    pose proof (append_world _ _ _ _ _ Ha) as Hw; cbn [snd];
    try (rewrite Hw; reflexivity).
  destruct ok; cbn [negb]; [|rewrite Hw; reflexivity].
  destruct install; [|rewrite Hw; reflexivity].
  rewrite install_packages_run. rewrite Hw. reflexivity.
Qed.

Ltac no_attempt H :=
  injection H as <- <-; exists []; rewrite app_nil_r;
  split; [reflexivity | apply stops_nil].

Lemma retry_stops fuel q code err trial max_trials w returned w' :
  retry lower fuel q code err trial max_trials w = (returned, w') ->
  exists attempts,
    exec_log w' = exec_log w ++ attempts /\
    stops_at_success attempts returned (fun text => text).
Proof.
  revert code err trial max_trials w returned w'.
  induction fuel as [|fuel IH]; intros code err trial max_trials w returned w' H;
    cbn [retry] in H.
  { unfold lift in H. no_attempt H. }
  destruct (trial >=? max_trials)%Z; [unfold ret in H; no_attempt H|].
  unfold bind at 1 in H.
  destruct (generate_prompt q PromptRetry code err w) as [[prompt|e|] w0] eqn:G;
    apply generate_prompt_world in G; subst w0; try no_attempt H.
  unfold bind at 1 in H. unfold call_llm_code at 1 in H.
  fold (count_llm w (S (llm_calls w))) in H.
  set (w1 := count_llm w (S (llm_calls w))) in *.
  set (result := PromptUtil.extract_code_and_dependencies
                   (llm w (llm_calls w) prompt)) in *.
  destruct (negb (PromptUtil.success result)); [unfold ret in H; no_attempt H|].
  unfold bind at 1 in H.
  pose proof (manage_log (PromptUtil.dependencies result) REQUIREMENTS_TXT
                true false w1) as L2.
  destruct (manage_dependencies lower (PromptUtil.dependencies result)
              REQUIREMENTS_TXT true false w1) as [[ok|e|] w2]; cbn [snd] in L2;
    try (injection H as <- <-; exists []; rewrite app_nil_r;
         split; [exact L2 | apply stops_nil]).
  unfold bind at 1 in H.
  destruct (execute_world (PromptUtil.code result) DEFAULT_TIMEOUT w2)
    as (r & fs & E & _).
  rewrite E in H. clear E.
  set (w3 := mk_world fs _ _ _ _ _ _ _ _ _ _) in *.
  assert (exec_log w3 = exec_log w ++ [(success r, output r)]) as L3.
  { unfold w3. cbn [exec_log]. rewrite L2. reflexivity. }
  destruct (success r) eqn:S.
  - unfold ret in H. injection H as <- <-.
    exists [(true, output r)]. split; [exact L3 | exact (stops_success (output r) (fun text => text))].
  - destruct (IH _ _ _ _ _ _ _ H) as (attempts & La & Ha).
    exists ((false, output r) :: attempts). split.
    + rewrite La, L3, <- app_assoc. reflexivity.
    + apply stops_failure, Ha.
Qed.

Lemma handle_stops fuel q w returned w' :
  handle_execute_code_class lower fuel q w = (returned, w') ->
  exists attempts,
    exec_log w' = exec_log w ++ attempts /\
    stops_at_success attempts returned Some.
Proof.
  intros H. unfold handle_execute_code_class in H.
  unfold bind at 1 in H.
  destruct (generate_prompt q PromptCode [] [] w) as [[prompt|e|] w0] eqn:G;
    apply generate_prompt_world in G; subst w0; try no_attempt H.
  unfold bind at 1 in H. unfold call_llm_code at 1 in H.
  fold (count_llm w (S (llm_calls w))) in H.
  set (w1 := count_llm w (S (llm_calls w))) in *.
  set (result := PromptUtil.extract_code_and_dependencies
                   (llm w (llm_calls w) prompt)) in *.
  destruct (negb (PromptUtil.success result)); [unfold ret in H; no_attempt H|].
  unfold bind at 1 in H.
  pose proof (manage_log (PromptUtil.dependencies result) REQUIREMENTS_TXT
                true false w1) as L2.
  destruct (manage_dependencies lower (PromptUtil.dependencies result)
              REQUIREMENTS_TXT true false w1) as [[ok|e|] w2]; cbn [snd] in L2;
    try (injection H as <- <-; exists []; rewrite app_nil_r;
         split; [exact L2 | apply stops_nil]).
  unfold bind at 1 in H.
  destruct (execute_world (PromptUtil.code result)
              (PList (PromptUtil.dependencies result)) w2) as (r & fs & E & Hx).
  rewrite E in H. clear E.
  set (w3 := mk_world fs _ _ _ _ _ _ _ _ _ _) in *.
  assert (success r = false) as S by (eapply execute_list_timeout; exact Hx).
  assert (exec_log w3 = exec_log w ++ [(false, output r)]) as L3.
  { unfold w3. cbn [exec_log]. rewrite L2, S. reflexivity. }
  rewrite S in H. cbn [negb] in H.
  destruct (error_type r) as [kind|].
  2:{ unfold raise in H. injection H as <- <-.
      exists [(false, output r)]. split; [exact L3|].
      apply stops_failure, stops_nil. }
  unfold bind in H.
  destruct (retry lower fuel q (PromptUtil.code result) (kind ++ error r) 2
              DEFAULT_MAX_TRIALS w3) as [[a|e|] w4] eqn:R;
    destruct (retry_stops _ _ _ _ _ _ _ _ _ R) as (attempts & La & Ha);
    unfold ret in H; injection H as <- <-;
    exists ((false, output r) :: attempts);
    (split; [rewrite La, L3, <- app_assoc; reflexivity|]);
    apply stops_failure; intros before text after E;
    destruct (Ha before text after E) as [? K];
    [injection K as -> | discriminate K | discriminate K]; auto.
Qed.

(** C1.  In every call of [retry] and of [handle_execute_code_class],
    whatever the generator, the files, the package manager and the runs do:
    if one of the results that the executor returns during the call reports
    success, it is the last result of the call - no other attempt follows -
    and its [output] is the value the call returns.  ([handle_execute_code_class]
    returns what [retry] returns; its own first execution is called with a
    list as time limit and never reports success.) *)
Theorem first_success_is_returned fuel q w :
  (forall code err trial max_trials,
     let out := retry lower fuel q code err trial max_trials w in
     exists attempts,
       exec_log out.2 = exec_log w ++ attempts /\
       forall before text after,
         attempts = before ++ (true, text) :: after ->
         after = [] /\ out.1 = Ret text) /\
  (let out := handle_execute_code_class lower fuel q w in
   exists attempts,
     exec_log out.2 = exec_log w ++ attempts /\
     forall before text after,
       attempts = before ++ (true, text) :: after ->
       after = [] /\ out.1 = Ret (Some text)).
Proof.
  split.
  - intros code err trial max_trials. cbv zeta.
    destruct (retry lower fuel q code err trial max_trials w) as [returned w'] eqn:R.
    exact (retry_stops _ _ _ _ _ _ _ _ _ R).
  - cbv zeta.
    destruct (handle_execute_code_class lower fuel q w) as [returned w'] eqn:R.
    exact (handle_stops _ _ _ _ _ R).
Qed.

End WithLower.

(** A request whose first regenerated attempt fails and whose second one
    succeeds: three results in all, the last one the success, and its output
    returned. *)
Example orchestrator_run :
  let out := handle_execute_code_class lower_ascii 10 (lit "What is 1+1?")
               (example_world templates
                  (fun _ => tagged_block (lit "code") (lit "print(2)"))
                  (fun n => match n with
                            | 1%nat => failing_run
                            | _ => quiet_env (Completed 0 (lit "2" ++ [10]) [])
                            end)) in
  out.1 = Ret (Some (lit "2" ++ [10])) /\
  exec_log out.2 = [(false, []); (false, []); (true, lit "2" ++ [10])].
Proof. vm_compute. split; reflexivity. Qed.

End OrchestratorSpec.
